(** * gpu.cpp, examples/matmul/run.cpp: matrix-multiplication kernels and
      their benchmark harness

    The file embeds, from [run.cpp]:
    - the three WGSL kernels held in [kShaderMatmul1], [kShaderMatmul2] and
      [kShaderMatmul3], as functions over the contents of the storage
      buffers [A], [B] and the stores they issue to [C];
    - the source generators [createMatmul1], [createMatmul2],
      [createMatmul3];
    - the host function [runTest]: the sequence of its calls into the
      library and the throughput figure it reports.

    Conventions.  A [u32] of the shading language is a [Z] reduced modulo
    [2^32] after every operation, an [i32] likewise in two's complement;
    a [size_t] of the host is a [Z] reduced modulo [2^64].  The element
    type of the buffers, the [{{precision}}] of the templates, is a type
    with an addition, a multiplication, a zero and a conversion from
    [bool], of which nothing is assumed; [f32] is its instance with the
    binary32 operations of [SpecFloat].  A storage buffer is a total
    function from index to contents; what it yields beyond the extent of
    the tensor stands for whatever the backend returns for such a read. *)

From Stdlib Require Import ZArith List Lia Bool Ascii String DecimalString.
From Stdlib Require Import Floats.SpecFloat.
Import ListNotations.

Local Open Scope Z_scope.

(** [length] is the length of a list throughout. *)
Local Abbreviation length := Datatypes.length.

(** ** Machine integers *)

Module U32.

Definition modulus : Z := 2 ^ 32.

Definition wrap (x : Z) : Z := x mod modulus.

Definition add (x y : Z) : Z := wrap (x + y).

Definition mul (x y : Z) : Z := wrap (x * y).

Definition in_range (x : Z) : Prop := 0 <= x < modulus.

End U32.

Module I32.

Definition wrap (x : Z) : Z := (x + 2 ^ 31) mod 2 ^ 32 - 2 ^ 31.

Definition add (x y : Z) : Z := wrap (x + y).

End I32.

Module Size.

(** [size_t] *)
Definition modulus : Z := 2 ^ 64.

Definition wrap (x : Z) : Z := x mod modulus.

Definition mul (x y : Z) : Z := wrap (x * y).

End Size.

(** ** Floating point

    [float] and [double] are the binary32 and binary64 formats, with the
    operations of [SpecFloat] (rounding to nearest, ties to even). *)

Module F32.

Definition prec : Z := 24.
Definition emax : Z := 128.

Definition of_Z (n : Z) : spec_float := binary_normalize prec emax n 0 false.

(** [static_cast<float>] of a [double]. *)
Definition of_double (x : spec_float) : spec_float :=
  match x with
  | S754_finite s m e => binary_normalize prec emax (cond_Zopp s (Zpos m)) e s
  | _ => x
  end.

Definition add : spec_float -> spec_float -> spec_float := SFadd prec emax.
Definition mul : spec_float -> spec_float -> spec_float := SFmul prec emax.

End F32.

Module F64.

Definition prec : Z := 53.
Definition emax : Z := 1024.

Definition of_Z (n : Z) : spec_float := binary_normalize prec emax n 0 false.

(** The promotion of a [float] operand: exact. *)
Definition of_float (x : spec_float) : spec_float :=
  match x with
  | S754_finite s m e => binary_normalize prec emax (cond_Zopp s (Zpos m)) e s
  | _ => x
  end.

Definition div : spec_float -> spec_float -> spec_float := SFdiv prec emax.
Definition mul : spec_float -> spec_float -> spec_float := SFmul prec emax.
Definition sqrt : spec_float -> spec_float := SFsqrt prec emax.

(** The conversion of a [double] to an integer type: the fraction is
    dropped.  An infinity or a NaN has no defined result in C++; the
    conversion is used below on the square root of a [size_t], which is
    neither. *)
Definition to_Z (x : spec_float) : Z :=
  match x with
  | S754_finite s m e =>
      cond_Zopp s (if 0 <=? e then Zpos m * 2 ^ e else Zpos m / 2 ^ (- e))
  | _ => 0
  end.

End F64.

Definition is_finite (x : spec_float) : bool :=
  match x with
  | S754_zero _ | S754_finite _ _ _ => true
  | S754_infinity _ | S754_nan => false
  end.

(** ** The element type of the kernels

    What the kernels use of [{{precision}}]: the literal [0.0], [+], [*]
    and the conversion [{{precision}}(b)] of a [bool]. *)

Class Precision (E : Type) : Type := {
  fzero : E;
  fadd : E -> E -> E;
  fmul : E -> E -> E;
  of_bool : bool -> E
}.

(** [kf32] *)
#[export] Instance f32 : Precision spec_float := {|
  fzero := S754_zero false;
  fadd := F32.add;
  fmul := F32.mul;
  of_bool := fun b => if b then F32.of_Z 1 else S754_zero false
|}.

(** Exact arithmetic on integers, to read the sums of the kernels as
    sums. *)
#[export] Instance exact : Precision Z := {|
  fzero := 0;
  fadd := Z.add;
  fmul := Z.mul;
  of_bool := fun b => if b then 1 else 0
|}.

(** ** Loops

    [for (var k = k0; k < bound; k = next k) body].  The recursion is on a
    counter that is large enough whenever the loop variable really advances
    towards [bound]; a loop that has not left its range when the counter
    runs out has no result. *)

Fixpoint for_fuel {St : Type} (fuel : nat) (bound : Z) (next : Z -> Z)
    (body : Z -> St -> option St) (k : Z) (s : St) : option St :=
  match fuel with
  | O => None
  | S fuel' =>
      if k <? bound then
        match body k s with
        | Some s' => for_fuel fuel' bound next body (next k) s'
        | None => None
        end
      else Some s
  end.

Definition for_loop {St : Type} (bound : Z) (next : Z -> Z)
    (body : Z -> St -> option St) (k0 : Z) (s : St) : option St :=
  for_fuel (S (Z.to_nat (bound - k0))) bound next body k0 s.

(** [k = k + 1u] *)
Definition incr (k : Z) : Z := U32.add k 1.

(** The values a unit-step loop variable takes: [start], [start+1], ... *)
Fixpoint zseq (start : Z) (len : nat) : list Z :=
  match len with
  | O => []
  | S len' => start :: zseq (start + 1) len'
  end.

(** ** Sums

    [sum_from acc f start n] adds [f start], [f (start+1)], ...,
    [f (start+n-1)] to [acc] in that order, as a loop with [+=] does. *)
Definition sum_from {E : Type} {PE : Precision E} (acc : E) (f : Z -> E)
    (start : Z) (n : nat) : E :=
  fold_left (fun a k => fadd a (f k)) (zseq start n) acc.

(** The contract of all three kernels: [A] is [M x K] row-major, [B] is
    [N x K] row-major, and entry [(i, j)] of the product is the inner
    product of row [i] of [A] with row [j] of [B].  [term] is its [k]-th
    product. *)
Definition term {E : Type} {PE : Precision E} (A B : Z -> E) (K i j : Z)
    (k : Z) : E :=
  fmul (A (i * K + k)) (B (j * K + k)).

(** The inner product as variant 1 adds it up: from the first product
    on, and as the tiled variants do: from zero on. *)
Definition dot1 {E : Type} {PE : Precision E} (A B : Z -> E) (K i j : Z) : E :=
  sum_from (term A B K i j 0) (term A B K i j) 1 (Z.to_nat (K - 1)).

Definition dot0 {E : Type} {PE : Precision E} (A B : Z -> E) (K i j : Z) : E :=
  sum_from fzero (term A B K i j) 0 (Z.to_nat K).

(** [sumZ f start n] is the integer [f start + ... + f (start+n-1)]. *)
Fixpoint sumZ (f : Z -> Z) (start : Z) (n : nat) : Z :=
  match n with
  | O => 0
  | S n' => f start + sumZ f (start + 1) n'
  end.

Record vec3 : Type := Vec3 { vx : Z; vy : Z; vz : Z }.

(** ** Variant 1: [kShaderMatmul1] *)

Module Matmul1.

Section Kernel.

Context {E : Type} {PE : Precision E}.

Variables M K N : Z.
Variables A B : Z -> E.

(** [fn main] of the naive kernel for one invocation: the stores to [C]
    it performs, as pairs of index and value. *)
Definition main (globalID : vec3) : option (list (Z * E)) :=
  let row := vx globalID in
  let col := vy globalID in
  if (M <=? row) || (N <=? col) then Some []
  else
    let total := fmul (A (U32.mul row K)) (B (U32.mul col K)) in
    match
      for_loop K incr
        (fun k total =>
           Some (fadd total
                   (fmul (A (U32.add (U32.mul row K) k))
                         (B (U32.add (U32.mul col K) k)))))
        1 total
    with
    | Some total => Some [(U32.add (U32.mul row N) col, total)]
    | None => None
    end.

End Kernel.

End Matmul1.

(** ** Arrays in workgroup and private memory

    Fixed-size arrays indexed by a [u32].  Within their extent [arr_set]
    replaces one element; beyond it the store is dropped and a load yields
    zero. *)

Fixpoint upd {E : Type} (n : nat) (v : E) (a : list E) : list E :=
  match a, n with
  | [], _ => []
  | _ :: a', O => v :: a'
  | x :: a', S n' => x :: upd n' v a'
  end.

Definition arr_get {E : Type} {PE : Precision E} (a : list E) (i : Z) : E :=
  nth (Z.to_nat i) a fzero.

Definition arr_set {E : Type} (a : list E) (i : Z) (v : E) : list E :=
  upd (Z.to_nat i) v a.

Definition zeros {E : Type} {PE : Precision E} (n : Z) : list E :=
  repeat fzero (Z.to_nat n).

(** Run a step that may fail to return on every element of a list. *)
Fixpoint opt_map {X Y : Type} (f : X -> option Y) (l : list X)
    : option (list Y) :=
  match l with
  | [] => Some []
  | x :: l' =>
      match f x, opt_map f l' with
      | Some y, Some ys => Some (y :: ys)
      | _, _ => None
      end
  end.

(** ** Variant 2: [kShaderMatmul2]

    One workgroup of [W] invocations, numbered by [local_invocation_index].
    The text between two [workgroupBarrier()] calls is a phase that every
    invocation completes before any starts the next: a phase is run for
    the invocations in index order. *)

Module Matmul2.

Record shared (E : Type) : Type := Shared { As : list E; Bs : list E }.

Arguments Shared {E} _ _.
Arguments As {E} _.
Arguments Bs {E} _.

Section Kernel.

Context {E : Type} {PE : Precision E}.

(** [tileSize] and the dimensions, as substituted in the template. *)
Variables T M K N : Z.
Variables A B : Z -> E.
(** Number of invocations of the workgroup. *)
Variable W : Z.
Variable groupID : vec3.

Definition loadRow (localIdx : Z) : Z := localIdx / T.
Definition loadCol (localIdx : Z) : Z := localIdx mod T.
Definition row (localIdx : Z) : Z :=
  U32.add (U32.mul (vx groupID) T) (loadRow localIdx).
Definition col (localIdx : Z) : Z :=
  U32.add (U32.mul (vy groupID) T) (loadCol localIdx).
Definition aRow (localIdx : Z) : Z :=
  U32.add (U32.mul (vx groupID) T) (loadRow localIdx).
Definition bRow (localIdx : Z) : Z :=
  U32.add (U32.mul (vy groupID) T) (loadCol localIdx).

(** The two stores to workgroup memory before the first barrier; the
    loaded values carry no mask. *)
Definition load (tile : Z) (s : shared E) (localIdx : Z) : shared E :=
  let aCol := U32.add (U32.mul tile T) (loadCol localIdx) in
  let bCol := U32.add (U32.mul tile T) (loadRow localIdx) in
  {| As := arr_set (As s)
             (U32.add (U32.mul (loadRow localIdx) T) (loadCol localIdx))
             (A (U32.add (U32.mul (aRow localIdx) K) aCol));
     Bs := arr_set (Bs s)
             (U32.add (U32.mul (loadCol localIdx) T) (loadRow localIdx))
             (B (U32.add (U32.mul (bRow localIdx) K) bCol)) |}.

(** The inner loop between the two barriers. *)
Definition accumulate (s : shared E) (lane : Z * E) : option E :=
  let '(localIdx, total) := lane in
  for_loop T incr
    (fun k total =>
       Some (fadd total
               (fmul
                  (arr_get (As s) (U32.add (U32.mul (loadRow localIdx) T) k))
                  (arr_get (Bs s) (U32.add (U32.mul (loadCol localIdx) T) k)))))
    0 total.

Definition lanes : list Z := zseq 0 (Z.to_nat W).

(** One iteration of the loop over tiles, for the whole workgroup; the
    state is the workgroup memory and the [total] of every invocation. *)
Definition tile_step (tile : Z) (st : shared E * list E)
    : option (shared E * list E) :=
  let s' := fold_left (load tile) lanes (fst st) in
  match opt_map (accumulate s') (combine lanes (snd st)) with
  | Some totals' => Some (s', totals')
  | None => None
  end.

(** The guard and the store after the loop. *)
Definition finish (lane : Z * E) : list (Z * E) :=
  let '(localIdx, total) := lane in
  if (M <=? row localIdx) || (N <=? col localIdx) then []
  else [(U32.add (U32.mul (row localIdx) N) (col localIdx), total)].

(** [fn main] for the workgroup: the stores to [C] of each invocation. *)
Definition main : option (list (list (Z * E))) :=
  match
    for_loop ((K + T - 1) / T) incr tile_step 0
      ({| As := zeros (T * T); Bs := zeros (T * T) |}, zeros W)
  with
  | Some (_, totals) => Some (map finish (combine lanes totals))
  | None => None
  end.

(** *** Vocabulary of the statements about the kernel *)

(** Row and column of the output element an invocation is responsible
    for, without wrap-around. *)
Definition out_row (l : Z) : Z := vx groupID * T + l / T.
Definition out_col (l : Z) : Z := vy groupID * T + l mod T.

(** The stores of an invocation when its element is computed as the
    contract of the kernels has it. *)
Definition expected (l : Z) : list (Z * E) :=
  if (out_row l <? M) && (out_col l <? N)
  then [(out_row l * N + out_col l, dot0 A B K (out_row l) (out_col l))]
  else [].

(** Index and value of the two stores of [load]. *)
Definition idxA (l : Z) : Z := U32.add (U32.mul (loadRow l) T) (loadCol l).
Definition idxB (l : Z) : Z := U32.add (U32.mul (loadCol l) T) (loadRow l).
Definition valA (tile l : Z) : E :=
  A (U32.add (U32.mul (aRow l) K) (U32.add (U32.mul tile T) (loadCol l))).
Definition valB (tile l : Z) : E :=
  B (U32.add (U32.mul (bRow l) K) (U32.add (U32.mul tile T) (loadRow l))).

(** The product the inner loop adds at step [k]. *)
Definition tile_term (s : shared E) (l k : Z) : E :=
  fmul (arr_get (As s) (U32.add (U32.mul (loadRow l) T) k))
       (arr_get (Bs s) (U32.add (U32.mul (loadCol l) T) k)).

(** [tile_step] when every inner loop returns. *)
Definition step_fun (tile : Z) (st : shared E * list E) : shared E * list E :=
  let s' := fold_left (load tile) lanes (fst st) in
  (s', map (fun lane =>
              sum_from (snd lane) (tile_term s' (fst lane)) 0 (Z.to_nat T))
           (combine lanes (snd st))).

(** The partial inner product an in-range invocation holds after [t]
    tiles. *)
Definition inv (t : Z) (st : shared E * list E) : Prop :=
  length (As (fst st)) = Z.to_nat W
  /\ length (Bs (fst st)) = Z.to_nat W
  /\ length (snd st) = Z.to_nat W
  /\ forall l, 0 <= l < W -> out_row l < M -> out_col l < N ->
       nth (Z.to_nat l) (snd st) fzero
       = sum_from fzero (term A B K (out_row l) (out_col l))
                  0 (Z.to_nat (t * T)).

End Kernel.

End Matmul2.

(** ** Variant 3: [kShaderMatmul3]

    One workgroup of [W] invocations along the first axis, numbered by
    [localID.x].  Phases are delimited by the barriers as for variant 2.
    The kernel is run with a log of its accesses to the storage buffers,
    in program order within a phase. *)

Inductive access (E : Type) : Type :=
| ReadA (i : Z)
| ReadB (i : Z)
| WriteC (i : Z) (v : E).

Arguments ReadA {E} _.
Arguments ReadB {E} _.
Arguments WriteC {E} _ _.

Module Matmul3.

(** Workgroup memory, the two tile pointers (private to each invocation in
    the source, and equal in all of them), the [threadResults] of every
    invocation, and the log. *)
Record state (E : Type) : Type := State {
  tileA : list E;
  tileB : list E;
  aPtr : Z;
  bPtr : Z;
  threadResults : list (list E);
  log : list (access E)
}.

Arguments State {E} _ _ _ _ _ _.
Arguments tileA {E} _.
Arguments tileB {E} _.
Arguments aPtr {E} _.
Arguments bPtr {E} _.
Arguments threadResults {E} _.
Arguments log {E} _.

Section Kernel.

Context {E : Type} {PE : Precision E}.

Variables BM BK BN TM M K N : Z.
Variables A B : Z -> E.
Variable W : Z.
Variable groupID : vec3.

Definition cRow : Z := vx groupID.
Definition cCol : Z := vy groupID.

Definition threadRow (lx : Z) : Z := lx / BN.
Definition threadCol (lx : Z) : Z := lx mod BN.
Definition loadColA (lx : Z) : Z := lx mod BK.
Definition loadRowA (lx : Z) : Z := lx / BK.
Definition loadColB (lx : Z) : Z := lx mod BK.
Definition loadRowB (lx : Z) : Z := lx / BK.

Definition cPtr : Z :=
  U32.add (U32.mul (U32.mul cRow BM) N) (U32.mul cCol BN).

Definition lanes : list Z := zseq 0 (Z.to_nat W).

(** The two loads into the tiles, before the first barrier. *)
Definition load (s : state E) (lx : Z) : state E :=
  let ia := U32.add (U32.add (aPtr s) (U32.mul (loadRowA lx) K)) (loadColA lx) in
  let ib := U32.add (U32.add (bPtr s) (U32.mul (loadRowB lx) K)) (loadColB lx) in
  {| tileA := arr_set (tileA s)
                (U32.add (U32.mul (loadRowA lx) BK) (loadColA lx)) (A ia);
     tileB := arr_set (tileB s)
                (U32.add (U32.mul (loadRowB lx) BK) (loadColB lx)) (B ib);
     aPtr := aPtr s;
     bPtr := bPtr s;
     threadResults := threadResults s;
     log := log s ++ [ReadA ia; ReadB ib] |}.

(** [aPtr += BK; bPtr += BK] *)
Definition advance (s : state E) : state E :=
  {| tileA := tileA s; tileB := tileB s;
     aPtr := U32.add (aPtr s) BK;
     bPtr := U32.add (bPtr s) BK;
     threadResults := threadResults s;
     log := log s |}.

(** The guard of the accumulation, converted to the element type. *)
Definition mask (lx resIdx : Z) : E :=
  of_bool
    ((U32.add (U32.mul (threadRow lx) TM) resIdx <? BM)
     && (threadCol lx <? BN)
     && (U32.add (U32.mul (threadRow lx) TM) resIdx <? M)
     && (U32.add (U32.mul cCol BN) (threadCol lx) <? N)
     && (U32.add (U32.mul cRow BM) (threadRow lx) <? M)).

(** The body of the loop over [resIdx]. *)
Definition accumulate_one (s : state E) (lx dotIdx : Z) (tmp : E)
    (resIdx : Z) (results : list E) : list E :=
  arr_set results resIdx
    (fadd (arr_get results resIdx)
       (fmul
          (fmul (mask lx resIdx)
             (arr_get (tileA s)
                (U32.add
                   (U32.mul (U32.add (U32.mul (threadRow lx) TM) resIdx) BK)
                   dotIdx)))
          tmp)).

(** The loops over [dotIdx] and [resIdx] between the two barriers. *)
Definition accumulate (s : state E) (lane : Z * list E) : option (list E) :=
  let '(lx, results) := lane in
  for_loop BK incr
    (fun dotIdx results =>
       let tmp :=
         arr_get (tileB s) (U32.add (U32.mul (threadCol lx) BK) dotIdx) in
       for_loop TM incr
         (fun resIdx results =>
            Some (accumulate_one s lx dotIdx tmp resIdx results))
         0 results)
    0 results.

(** One iteration of the loop over [bkIdx], for the whole workgroup. *)
Definition chunk_step (bkIdx : Z) (s : state E) : option (state E) :=
  let s1 := advance (fold_left load lanes s) in
  match opt_map (accumulate s1) (combine lanes (threadResults s1)) with
  | Some results =>
      Some {| tileA := tileA s1; tileB := tileB s1;
              aPtr := aPtr s1; bPtr := bPtr s1;
              threadResults := results;
              log := log s1 |}
  | None => None
  end.

(** The index of the store of accumulator [resIdx]. *)
Definition c_index (lx resIdx : Z) : Z :=
  U32.add
    (U32.add cPtr (U32.mul (U32.add (U32.mul (threadRow lx) TM) resIdx) N))
    (threadCol lx).

(** The stores of one invocation after the loop: no guard. *)
Definition write_back (lane : Z * list E) : option (list (access E)) :=
  let '(lx, results) := lane in
  for_loop TM incr
    (fun resIdx out =>
       Some (out ++ [WriteC (c_index lx resIdx) (arr_get results resIdx)]))
    0 [].

Definition init : state E :=
  {| tileA := zeros (BM * BK);
     tileB := zeros (BK * BN);
     aPtr := U32.mul (U32.mul cRow BM) K;
     bPtr := U32.mul (U32.mul cCol BN) K;
     threadResults := repeat (zeros TM) (Z.to_nat W);
     log := [] |}.

(** [fn main] for the workgroup: its accesses to [A], [B] and [C]. *)
Definition main : option (list (access E)) :=
  match for_loop K (fun bkIdx => I32.add bkIdx BK) chunk_step 0 init with
  | Some s =>
      match opt_map write_back (combine lanes (threadResults s)) with
      | Some outs => Some (log s ++ List.concat outs)
      | None => None
      end
  | None => None
  end.

(** *** Vocabulary of the statements about the kernel *)

(** Whether an access lies within the extents of the three tensors:
    [M * K] elements of [A], [N * K] of [B], [M * N] of [C]. *)
Definition in_extent (a : access E) : bool :=
  match a with
  | ReadA i => (0 <=? i) && (i <? M * K)
  | ReadB i => (0 <=? i) && (i <? N * K)
  | WriteC i _ => (0 <=? i) && (i <? M * N)
  end.

(** The stores of [write_back], listed. *)
Definition writes (lane : Z * list E) : list (access E) :=
  map (fun resIdx => WriteC (c_index (fst lane) resIdx)
                            (arr_get (snd lane) resIdx))
      (zseq 0 (Z.to_nat TM)).

End Kernel.

End Matmul3.

(** ** Host-side helpers of the library header

    Modelled from the spec: [cdiv], the helper of [gpu.h] that sizes a
    dispatch grid; its definition is not part of [run.cpp].  The spec has
    the grid "rounded up to whole workgroups": the quotient rounded up,
    component by component for shapes. *)

Definition cdiv (n d : Z) : Z := (n + d - 1) / d.

(** [Shape]: the extents along each axis. *)
Definition Shape : Type := list Z.

Fixpoint cdiv_shape (total group : Shape) : Shape :=
  match total, group with
  | n :: total', d :: group' => cdiv n d :: cdiv_shape total' group'
  | _, _ => []
  end.

(** ** The template engine

    Modelled from the spec: [replaceAll], [toString] and the types
    [Shape], [NumType] and [ShaderCode] of [gpu.h]; only their uses are
    part of [run.cpp].  The spec has source generation as "purely textual
    substitution" of "placeholder name" by "stringified value", with
    "no semantic validation of the resulting" text: every occurrence of a
    name, scanning from the left, is replaced by its value, one name
    after the other in the order given; numbers are written in decimal, a
    shape as its extents separated by a comma and a space, the precision
    as the name of the element type.  The model is of the substitution:
    it gives the text where every placeholder of the template has a
    value, as in the three templates of [run.cpp] with the values their
    generators pass.  A placeholder left without a value is, by the
    spec, a configuration error of the library; the model does not
    describe it, and no statement below rests on it. *)

Local Open Scope string_scope.

Inductive NumType : Type := kf32.

Record ShaderCode : Type := {
  data : string;
  workgroupSize : Shape
}.

Definition toString_size (n : Z) : string :=
  NilZero.string_of_uint (N.to_uint (Z.to_N n)).

Fixpoint toString_shape (shape : Shape) : string :=
  match shape with
  | [] => EmptyString
  | [n] => toString_size n
  | n :: shape' =>
      String.append (toString_size n)
        (String.append ", " (toString_shape shape'))
  end.

Definition toString_precision (precision : NumType) : string :=
  match precision with
  | kf32 => "f32"
  end.

(** Replace the occurrences of [from] in [s]; [skip] counts the
    characters of an occurrence still to be passed over. *)
Fixpoint replace_from (from to : string) (skip : nat) (s : string) : string :=
  match s with
  | EmptyString => EmptyString
  | String c s' =>
      match skip with
      | S skip' => replace_from from to skip' s'
      | O =>
          if String.prefix from s
          then String.append to
                 (replace_from from to (String.length from - 1) s')
          else String c (replace_from from to 0 s')
      end
  end.

Definition replaceAll (str : string) (reps : list (string * string)) : string :=
  fold_left
    (fun str rep =>
       match fst rep with
       | EmptyString => str
       | String _ _ => replace_from (fst rep) (snd rep) 0 str
       end)
    reps str.

(** *** The templates and the generators of [run.cpp] *)

Definition kShaderMatmul1 : string := "
@group(0) @binding(0) var<storage, read_write> A: array<{{precision}}>;
@group(0) @binding(1) var<storage, read_write> B: array<{{precision}}>;
@group(0) @binding(2) var<storage, read_write> C: array<{{precision}}>;
@compute @workgroup_size({{workgroupSize}})
fn main(
    @builtin(global_invocation_id) globalID : vec3<u32>) {
    let row = globalID.x; // Use x as row makes mapping to Shape more intuitive
    let col = globalID.y;
    if (row >= {{M}} || col >= {{N}}) {
        return;
    }
    var total: {{precision}} = A[row * {{K}}] * B[col * {{K}}]; // assumes size >= 1
    for (var k = 1u; k < {{K}}; k = k + 1u) {
        // B is stored as B^T, effectively column-major
        total += A[row * {{K}} + k] * B[col * {{K}} + k];
    }
    C[row * {{N}} + col] = total;
}
".

Definition createMatmul1 (shaderTemplate : string) (M K N : Z)
    (workgroupSize : Shape) (precision : NumType) : ShaderCode :=
  let codeString := shaderTemplate in
  let codeString :=
    replaceAll codeString
      [("{{workgroupSize}}", toString_shape workgroupSize);
       ("{{precision}}", toString_precision precision);
       ("{{M}}", toString_size M);
       ("{{K}}", toString_size K);
       ("{{N}}", toString_size N)] in
  {| data := codeString; workgroupSize := workgroupSize |}.

Definition kShaderMatmul2 : string := "
@group(0) @binding(0) var<storage, read_write> A: array<{{precision}}>;
@group(0) @binding(1) var<storage, read_write> B: array<{{precision}}>;
@group(0) @binding(2) var<storage, read_write> C: array<{{precision}}>;
var<workgroup> As: array<{{precision}}, {{tileSize}} * {{tileSize}}>;
var<workgroup> Bs: array<{{precision}}, {{tileSize}} * {{tileSize}}>;
@compute @workgroup_size({{workgroupSize}})
fn main(
  @builtin(local_invocation_index) localIdx : u32,
  @builtin(workgroup_id) groupID: vec3<u32>) {
    let loadRow = localIdx /  {{tileSize}};
    let loadCol = localIdx % {{tileSize}};
    let row = groupID.x * {{tileSize}} + loadRow;
    let col = groupID.y * {{tileSize}} + loadCol;
    let aRow = groupID.x * {{tileSize}} + loadRow;
    let bRow = groupID.y * {{tileSize}} + loadCol;
    var total: {{precision}} = 0.0;
    for (var tile = 0u;
         tile < ({{K}} + {{tileSize}} - 1) / {{tileSize}};
         tile = tile + 1u) {
      let aCol = tile * {{tileSize}} + loadCol;
      let bCol = tile * {{tileSize}} + loadRow;
      // We can skip masking here *iff* tileSize is evenly
      // divisible into M, K, and N dimensions
      As[loadRow * {{tileSize}} + loadCol] =
        A[aRow * {{K}} + aCol];
        // A[aRow * {{K}} + aCol] * {{precision}}(aRow < {{M}} && aCol < {{K}}); // masked version
      Bs[loadCol * {{tileSize}} + loadRow] =
        B[bRow * {{K}} + bCol];
        // B[bRow * {{K}} + bCol] * {{precision}}(bRow < {{N}} && bCol < {{K}}); // masked version
      workgroupBarrier();
      for (var k = 0u; k < {{tileSize}}; k = k + 1u) {
        total += As[loadRow * {{tileSize}} + k] *
                 Bs[loadCol * {{tileSize}} + k];
      }
      workgroupBarrier();
    }
    if (row >= {{M}} || col >= {{N}}) {
      return;
    }
    C[row * {{N}} + col] = total;
}
".

(** [static_cast<size_t>(sqrt(workgroupSize[0]))]: the first extent is
    converted to the nearest [double], its square root is taken in
    [double] and rounded to nearest, and the fraction of the result is
    dropped. *)
Definition tileSize_of (workgroupSize : Shape) : Z :=
  F64.to_Z (F64.sqrt (F64.of_Z (nth 0 workgroupSize 0))).

Definition createMatmul2 (shaderTemplate : string) (M K N : Z)
    (workgroupSize : Shape) (precision : NumType) : ShaderCode :=
  let codeString := shaderTemplate in
  let codeString :=
    replaceAll codeString
      [("{{workgroupSize}}", toString_shape workgroupSize);
       ("{{precision}}", toString_precision precision);
       ("{{M}}", toString_size M);
       ("{{K}}", toString_size K);
       ("{{N}}", toString_size N);
       ("{{tileSize}}", toString_size (tileSize_of workgroupSize))] in
  {| data := codeString; workgroupSize := workgroupSize |}.

Definition kShaderMatmul3 : string := "

@group(0) @binding(0) var<storage, read_write> A: array<{{precision}}>;
@group(0) @binding(1) var<storage, read_write> B: array<{{precision}}>;
@group(0) @binding(2) var<storage, read_write> C: array<{{precision}}>;
var<workgroup> tileA: array<{{precision}}, {{BM}} * {{BK}}>;
var<workgroup> tileB: array<{{precision}}, {{BK}} * {{BN}}>;

@compute @workgroup_size({{workgroupSize}})
fn main(
    @builtin(global_invocation_id) globalID : vec3<u32>,
    @builtin(local_invocation_id) localID : vec3<u32>,
    @builtin(local_invocation_index) localIdx : u32,
    @builtin(workgroup_id) groupID : vec3<u32>) {

    var threadResults: array<{{precision}}, {{TM}}>;

    let cRow: u32 = groupID.x;
    let cCol: u32 = groupID.y;

    // Position of the first C element computed by the thread
    let threadRow: u32 = localID.x / {{BN}};
    let threadCol: u32 = localID.x % {{BN}};

    // Value of A to cache in As
    let loadColA = localID.x % {{BK}};
    let loadRowA = localID.x / {{BK}};

    // Value of B to cache in Bs (B is stored as B^T)
    let loadColB = localID.x % {{BK}};
    let loadRowB = localID.x / {{BK}};

    // aPtr and bPtr are the starting positions of the tiles in A and B,
    // incremented in the bkIdx loop. 
    // cPtr is the starting position of the tile in C which is fixed.

    var aPtr = cRow * {{BM}} * {{K}};
    var bPtr = (cCol * {{BN}})  // cCol corresponds to the row in B^T
                * {{K}}; // K columns per row (column-major)
    var cPtr = cRow * {{BM}} * {{N}} + cCol * {{BN}};

    for (var bkIdx = 0; bkIdx < {{K}}; bkIdx += {{BK}}) {
      tileA[loadRowA * {{BK}} + loadColA] = A[aPtr + loadRowA * {{K}} + loadColA];
      tileB[loadRowB * {{BK}} + loadColB] = B[bPtr + loadRowB * {{K}} + loadColB];

      aPtr += {{BK}};
      bPtr += {{BK}};

      workgroupBarrier();

      for (var dotIdx: u32 = 0; dotIdx < {{BK}}; dotIdx = dotIdx + 1) {
        let tmp = tileB[threadCol * {{BK}} + dotIdx];
        for (var resIdx: u32 = 0; resIdx < {{TM}}; resIdx = resIdx + 1) {
          let mask = {{precision}}(threadRow * {{TM}} + resIdx < {{BM}} 
                          && threadCol < {{BN}}
                          && threadRow * {{TM}} + resIdx < {{M}}
                          && cCol * {{BN}} + threadCol < {{N}}
                          && cRow * {{BM}} + threadRow < {{M}}
                          );
          threadResults[resIdx] += mask * tileA[(threadRow * {{TM}} + resIdx) * {{BK}} + dotIdx] * tmp;
        }
      }

      workgroupBarrier();

    }

    for (var resIdx: u32 = 0; resIdx < {{TM}}; resIdx = resIdx + 1) {
      C[cPtr + (threadRow * {{TM}} + resIdx) * {{N}} + threadCol] = threadResults[resIdx];
    }
    
}
".

Definition createMatmul3 (shaderTemplate : string) (M K N BM BK BN TM : Z)
    (workgroupSize : Shape) (precision : NumType) : ShaderCode :=
  let codeString := shaderTemplate in
  let codeString :=
    replaceAll codeString
      [("{{workgroupSize}}", toString_shape workgroupSize);
       ("{{precision}}", toString_precision precision);
       ("{{M}}", toString_size M);
       ("{{K}}", toString_size K);
       ("{{N}}", toString_size N);
       ("{{BM}}", toString_size BM);
       ("{{BK}}", toString_size BK);
       ("{{BN}}", toString_size BN);
       ("{{TM}}", toString_size TM)] in
  {| data := codeString; workgroupSize := workgroupSize |}.

(** *** Vocabulary of the statements about generated text *)

(** No character of [s] opens a placeholder. *)
Fixpoint no_open_brace (s : string) : bool :=
  match s with
  | EmptyString => true
  | String c s' => negb (Ascii.eqb c "{") && no_open_brace s'
  end.

(** At no position of [tok] does an occurrence of [from] start, whatever
    follows [tok]: at each position the two differ on a character. *)
Fixpoint never_starts (from tok : string) : bool :=
  match tok with
  | EmptyString => true
  | String _ tok' =>
      negb (String.prefix from tok) && negb (String.prefix tok from)
      && never_starts from tok'
  end.

(** [needle] occurs in [s]. *)
Fixpoint contains (needle s : string) : bool :=
  match s with
  | EmptyString => String.prefix needle EmptyString
  | String _ s' => String.prefix needle s || contains needle s'
  end.

(** The number of invocations of a workgroup of the given shape. *)
Definition lane_count (workgroupSize : Shape) : Z :=
  fold_right Z.mul 1 workgroupSize.

Local Close Scope string_scope.

(** ** The harness: [runTest]

    [runTest] is the sequence of its calls into the library and the
    standard library, in program order, and the throughput it reports;
    logging is left out.  The two readings of the clock enter as the
    number of nanoseconds between them. *)

Inductive Tensor : Type := input | weights | output.

Inductive Kernel : Type :=
| KernelDefault
| KernelCompiled (code : ShaderCode) (bindings : list Tensor)
    (nWorkgroups : Shape).

Inductive event : Type :=
| CreateContext
| CreateTensor (tensor : Tensor) (shape : Shape) (upload : bool)
| CreateMatmul (version : Z)
| CreateKernel (code : ShaderCode) (bindings : list Tensor)
    (nWorkgroups : Shape)
| NewPromise (i : nat)
| GetFuture (i : nat)
| ClockNow
| DispatchKernel (kernel : Kernel) (promise : nat)
| Wait (future : nat)
| ResetCommandBuffer (kernel : Kernel)
| ToCPU (tensor : Tensor) (bytes : Z).

(** A computation that appends to the sequence of calls. *)
Definition Run (X : Type) : Type := list event -> X * list event.

Definition ret {X : Type} (x : X) : Run X := fun t => (x, t).

Definition bind {X Y : Type} (m : Run X) (f : X -> Run Y) : Run Y :=
  fun t => let '(x, t') := m t in f x t'.

Definition call (e : event) : Run unit := fun t => (tt, t ++ [e]).

Declare Scope run_scope.
Delimit Scope run_scope with run.
Notation "x <- m ;; f" := (bind m (fun x => f))
  (at level 61, m at next level, right associativity) : run_scope.
Notation "m ;; f" := (bind m (fun _ => f))
  (at level 61, right associativity) : run_scope.

Fixpoint for_each {X : Type} (l : list X) (body : X -> Run unit) : Run unit :=
  match l with
  | [] => ret tt
  | x :: l' => (body x ;; for_each l' body)%run
  end.

Module RunTest.

(** Version 2 *)
Definition tileSize : Z := 16.

(** Version 3 *)
Definition BM : Z := 4.
Definition BK : Z := 4.
Definition BN : Z := 4.
Definition TM : Z := 1.

Definition nIter : nat := 4.

(** The workgroup shape and the dispatch grid of each version. *)
Definition wgSize1 : Shape := [16; 16; 1].
Definition wgSize2 : Shape := [Size.mul tileSize tileSize; 1; 1].
Definition wgSize3 : Shape := [Size.mul BM BN / TM; 1; 1].

Definition nWorkgroups1 (M N : Z) : Shape := cdiv_shape [M; N; 1] wgSize1.
Definition nWorkgroups2 (M N : Z) : Shape :=
  cdiv_shape [M; N; 1] [tileSize; tileSize; 1].
Definition nWorkgroups3 (M N : Z) : Shape :=
  [cdiv (cdiv M BM) TM; cdiv N BN; 1].

(** Initialize Kernel and bind GPU buffers *)
Definition create (version M K N : Z) : Run Kernel :=
  (if version =? 1 then
     call (CreateMatmul 1) ;;
     let matmul := createMatmul1 kShaderMatmul1 M K N wgSize1 kf32 in
     call (CreateKernel matmul [input; weights; output] (nWorkgroups1 M N)) ;;
     ret (KernelCompiled matmul [input; weights; output] (nWorkgroups1 M N))
   else if version =? 2 then
     call (CreateMatmul 2) ;;
     let matmul := createMatmul2 kShaderMatmul2 M K N wgSize2 kf32 in
     call (CreateKernel matmul [input; weights; output] (nWorkgroups2 M N)) ;;
     ret (KernelCompiled matmul [input; weights; output] (nWorkgroups2 M N))
   else if version =? 3 then
     call (CreateMatmul 3) ;;
     let matmul :=
       createMatmul3 kShaderMatmul3 M K N BM BK BN TM wgSize3 kf32 in
     call (CreateKernel matmul [input; weights; output] (nWorkgroups3 M N)) ;;
     ret (KernelCompiled matmul [input; weights; output] (nWorkgroups3 M N))
   else ret KernelDefault)%run.

(** One iteration of the dispatch loop. *)
Definition iteration (kernel : Kernel) (i : nat) : Run unit :=
  (call (DispatchKernel kernel i) ;;
   call (Wait i) ;;
   call (ResetCommandBuffer kernel))%run.

(** [duration_cast<milliseconds>(end - start).count()] *)
Definition duration_count (elapsed_ns : Z) : Z := Z.quot elapsed_ns 1000000.

Definition gflops (M K N : Z) (count : Z) : spec_float :=
  F32.of_double
    (F64.mul
       (F64.div
          (F64.div
             (F64.of_Z (Size.mul (Size.mul (Size.mul 2 M) N) K))
             (F64.div (F64.of_float (F32.of_Z count)) (F64.of_Z 1000)))
          (F64.of_Z 1000000000))
       (F64.of_float (F32.of_Z (Z.of_nat nIter)))).

Definition runTest (version M K N : Z) (elapsed_ns : Z) : Run spec_float :=
  (call CreateContext ;;
   call (CreateTensor input [M; K] true) ;;
   call (CreateTensor weights [N; K] true) ;;
   call (CreateTensor output [M; N] false) ;;
   kernel <- create version M K N ;;
   for_each (seq 0 nIter) (fun i => call (NewPromise i)) ;;
   for_each (seq 0 nIter) (fun i => call (GetFuture i)) ;;
   call ClockNow ;;
   for_each (seq 0 nIter) (iteration kernel) ;;
   call ClockNow ;;
   let duration := duration_count elapsed_ns in
   let gflops := gflops M K N duration in
   call (ToCPU output (Size.mul (Size.mul M N) 4)) ;;
   ret gflops)%run.

(** The calls of a run, from an empty sequence. *)
Definition calls (version M K N elapsed_ns : Z) : list event :=
  snd (runTest version M K N elapsed_ns []).

Definition reported (version M K N elapsed_ns : Z) : spec_float :=
  fst (runTest version M K N elapsed_ns []).

(** *** Vocabulary of the statements about a run *)

(** The calls before the first reading of the clock, those after it, and
    those between the two readings: the dispatch loop. *)
Fixpoint before_clock (t : list event) : list event :=
  match t with
  | [] => []
  | ClockNow :: _ => []
  | e :: t' => e :: before_clock t'
  end.

Fixpoint after_clock (t : list event) : list event :=
  match t with
  | [] => []
  | ClockNow :: t' => t'
  | _ :: t' => after_clock t'
  end.

Definition timed (t : list event) : list event :=
  before_clock (after_clock t).


Definition renders_or_compiles (e : event) : bool :=
  match e with
  | CreateMatmul _ | CreateKernel _ _ _ => true
  | _ => false
  end.



End RunTest.

(** ** Buffer contents used in the examples *)

(** A buffer of [extent] elements, all [1.0]; a read beyond it yields
    [0.0]. *)
Definition ones (extent : Z) : Z -> spec_float :=
  fun i => if (0 <=? i) && (i <? extent) then F32.of_Z 1 else S754_zero false.

(** ** Further vocabulary: variant 2 *)

Module Matmul2Index.

Section Index.

Context {E : Type} {PE : Precision E}.

Variables T M K N : Z.
Variables A B : Z -> E.
Variable groupID : vec3.

(** The indices at which [Matmul2.load] reads [A] and [B]. *)
Definition a_index (tile l : Z) : Z :=
  U32.add (U32.mul (Matmul2.aRow T groupID l) K)
          (U32.add (U32.mul tile T) (Matmul2.loadCol T l)).

Definition b_index (tile l : Z) : Z :=
  U32.add (U32.mul (Matmul2.bRow T groupID l) K)
          (U32.add (U32.mul tile T) (Matmul2.loadRow T l)).

(** The sum the tiled kernel forms for element [(i, j)]: the products
    for [k] from 0 up to the next multiple of [T] at or after [K], taken
    from the buffers as they lie in memory. *)
Definition dot0_padded (i j : Z) : E :=
  sum_from fzero (term A B K i j) 0 (Z.to_nat (cdiv K T * T)).

Definition expected_padded (l : Z) : list (Z * E) :=
  if (Matmul2.out_row T groupID l <? M) && (Matmul2.out_col T groupID l <? N)
  then [(Matmul2.out_row T groupID l * N + Matmul2.out_col T groupID l,
         dot0_padded (Matmul2.out_row T groupID l)
                     (Matmul2.out_col T groupID l))]
  else [].

End Index.

End Matmul2Index.


(** The stores of a log of accesses, as pairs of index and value. *)
Definition stores {E : Type} (log : list (access E)) : list (Z * E) :=
  flat_map (fun a => match a with WriteC i v => [(i, v)] | _ => [] end) log.

(** ** Variant 1 with the log of its accesses

    [fn main] of [kShaderMatmul1] for one invocation, run with the log
    of its accesses to the storage buffers in program order: the loads
    of [A] and [B] of each product, then the store to [C]. *)

Module Matmul1Log.

Section Kernel.

Context {E : Type} {PE : Precision E}.

Variables M K N : Z.
Variables A B : Z -> E.

Definition main (globalID : vec3) : option (list (access E)) :=
  let row := vx globalID in
  let col := vy globalID in
  if (M <=? row) || (N <=? col) then Some []
  else
    let total := fmul (A (U32.mul row K)) (B (U32.mul col K)) in
    let log := [ReadA (U32.mul row K); ReadB (U32.mul col K)] in
    match
      for_loop K incr
        (fun k st =>
           Some (fadd (fst st)
                   (fmul (A (U32.add (U32.mul row K) k))
                         (B (U32.add (U32.mul col K) k))),
                 snd st ++ [ReadA (U32.add (U32.mul row K) k);
                            ReadB (U32.add (U32.mul col K) k)]))
        1 (total, log)
    with
    | Some (total, log) =>
        Some (log ++ [WriteC (U32.add (U32.mul row N) col) total])
    | None => None
    end.

(** *** Vocabulary of the statements about the log *)

(** The loads of the [k]-th product of element [(i, j)]. *)
Definition loads (i j k : Z) : list (access E) :=
  [ReadA (i * K + k); ReadB (j * K + k)].

End Kernel.

End Matmul1Log.

(** ** Further vocabulary: variant 3 *)

Module Matmul3Index.

Section Index.

Context {E : Type} {PE : Precision E}.

Variables BM BK BN TM M K N : Z.
Variables A B : Z -> E.
Variable W : Z.
Variable groupID : vec3.

(** Row and column of the element of [C] that accumulator [resIdx] of
    invocation [lx] is responsible for, without wrap-around. *)
Definition out_row (lx resIdx : Z) : Z :=
  vx groupID * BM + (lx / BN * TM + resIdx).
Definition out_col (lx : Z) : Z := vy groupID * BN + lx mod BN.

(** The [k]-th product as the kernel forms it when its mask holds, and
    the products added up from zero. *)
Definition masked_term (i j k : Z) : E :=
  fmul (fmul (of_bool true) (A (i * K + k))) (B (j * K + k)).

Definition dot_masked (i j : Z) : E :=
  sum_from fzero (masked_term i j) 0 (Z.to_nat K).

(** The stores of the workgroup when every element of its block is
    computed as the contract of the kernels has it: invocation by
    invocation, accumulator by accumulator. *)
Definition expected_stores : list (Z * E) :=
  flat_map
    (fun lx =>
       map (fun resIdx =>
              (out_row lx resIdx * N + out_col lx,
               dot_masked (out_row lx resIdx) (out_col lx)))
           (zseq 0 (Z.to_nat TM)))
    (zseq 0 (Z.to_nat W)).

(** Tile index and source index of the loads of invocation [lx] when
    the tile pointer is [p]. *)
Definition tile_index (lx : Z) : Z :=
  U32.add (U32.mul (Matmul3.loadRowA BK lx) BK) (Matmul3.loadColA BK lx).
Definition source_index (p lx : Z) : Z :=
  U32.add (U32.add p (U32.mul (Matmul3.loadRowA BK lx) K))
          (Matmul3.loadColA BK lx).

(** The state of the workgroup after [n] chunks of the inner
    dimension. *)
Definition inv (n : Z) (s : Matmul3.state E) : Prop :=
  length (Matmul3.tileA s) = Z.to_nat W
  /\ length (Matmul3.tileB s) = Z.to_nat W
  /\ Matmul3.aPtr s = vx groupID * BM * K + n * BK
  /\ Matmul3.bPtr s = vy groupID * BN * K + n * BK
  /\ length (Matmul3.threadResults s) = Z.to_nat W
  /\ (forall lx, 0 <= lx < W ->
        length (nth (Z.to_nat lx) (Matmul3.threadResults s) [])
        = Z.to_nat TM
        /\ forall resIdx, 0 <= resIdx < TM ->
             arr_get (nth (Z.to_nat lx) (Matmul3.threadResults s) []) resIdx
             = sum_from fzero (masked_term (out_row lx resIdx) (out_col lx))
                        0 (Z.to_nat (n * BK)))
  /\ forallb (Matmul3.in_extent M K N) (Matmul3.log s) = true
  /\ stores (Matmul3.log s) = [].

End Index.

End Matmul3Index.

(** ** The program: [main]

    The dimensions [main] selects by [kTestSize], and the version it
    runs. *)

Module Main.

Definition dims (kTestSize : Z) : Z * Z * Z :=
  if kTestSize =? 0 then (16, 4, 8)
  else if kTestSize =? 1 then (256, 128, 512)
  else (4096, 4096, 2 * 4096).

Definition kTestSize : Z := 1.

Definition version : Z := 3.

End Main.

(** ** Further vocabulary: a template split at its placeholders *)

Module Pieces.

Local Open Scope string_scope.

(** A piece of a template: text, a placeholder (its name with the
    braces), or the [i]-th of the values substituted. *)
Inductive piece : Type :=
| Text (s : string)
| Hole (name : string)
| Val (i : nat).

Definition piece_text (vals : list string) (p : piece) : string :=
  match p with
  | Text s => s
  | Hole name => name
  | Val i => nth i vals ""
  end.

(** The text of a list of pieces. *)
Definition flatten (vals : list string) (ps : list piece) : string :=
  fold_right (fun p s => piece_text vals p ++ s) "" ps.

Fixpoint find_name (names : list string) (s : string) : option string :=
  match names with
  | [] => None
  | name :: names' =>
      if String.prefix name s then Some name else find_name names' s
  end.

(** Split [s] at the occurrences of the names, scanning from the left;
    [cur] is the text since the last placeholder, [skip] counts the
    characters of a placeholder still to be passed over. *)
Fixpoint tokens (names : list string) (skip : nat) (cur : string)
    (s : string) : list piece :=
  match s with
  | EmptyString => [Text cur]
  | String c s' =>
      match skip with
      | S skip' => tokens names skip' cur s'
      | O =>
          match find_name names s with
          | Some name =>
              Text cur :: Hole name
              :: tokens names (String.length name - 1) "" s'
          | None => tokens names 0 (cur ++ String c "") s'
          end
      end
  end.

Definition split (names : list string) (template : string) : list piece :=
  tokens names 0 "" template.

Fixpoint index_of (name : string) (names : list string) : option nat :=
  match names with
  | [] => None
  | name' :: names' =>
      if String.eqb name name' then Some O
      else option_map S (index_of name names')
  end.

(** A placeholder filled with the value of its name. *)
Definition fill (names : list string) (p : piece) : piece :=
  match p with
  | Hole name =>
      match index_of name names with
      | Some i => Val i
      | None => p
      end
  | _ => p
  end.

(** No placeholder is left: every piece is a value, or text in which no
    placeholder opens. *)
Definition filled (ps : list piece) : bool :=
  forallb
    (fun p =>
       match p with
       | Text s => negb (contains "{{" s)
       | Hole _ => false
       | Val _ => true
       end)
    ps.

Definition no_val (p : piece) : bool :=
  match p with
  | Val _ => false
  | _ => true
  end.

(** One pass of [replaceAll] on pieces: the placeholders named [from]
    become the [i]-th value. *)
Definition pass (from : string) (i : nat) (ps : list piece) : list piece :=
  map (fun p =>
         match p with
         | Hole name => if String.eqb name from then Val i else p
         | _ => p
         end)
      ps.

(** What a pass for [from] needs of a piece: in text and in the other
    placeholders no occurrence of [from] starts. *)
Definition okb (from : string) (p : piece) : bool :=
  match p with
  | Text s => never_starts from s
  | Hole name => String.eqb name from || never_starts from name
  | Val _ => true
  end.

Definition opens_with_brace (from : string) : bool :=
  match from with
  | String c _ => Ascii.eqb c "{"
  | EmptyString => false
  end.

(** The passes for [names], the first of them for the [i]-th value. *)
Fixpoint run (i : nat) (names : list string) (ps : list piece)
    : option (list piece) :=
  match names with
  | [] => Some ps
  | from :: names' =>
      if opens_with_brace from && forallb (okb from) ps
      then run (S i) names' (pass from i ps)
      else None
  end.

(** The placeholders of the three generators, in the order of their
    values. *)
Definition names1 : list string :=
  ["{{workgroupSize}}"; "{{precision}}"; "{{M}}"; "{{K}}"; "{{N}}"].

Definition names2 : list string :=
  ["{{workgroupSize}}"; "{{precision}}"; "{{M}}"; "{{K}}"; "{{N}}";
   "{{tileSize}}"].

Definition names3 : list string :=
  ["{{workgroupSize}}"; "{{precision}}"; "{{M}}"; "{{K}}"; "{{N}}";
   "{{BM}}"; "{{BK}}"; "{{BN}}"; "{{TM}}"].

End Pieces.

(** ** Further vocabulary: variant 3 with tiles larger than the
       workgroup *)

Module Matmul3Partial.

Section Index.

Context {E : Type} {PE : Precision E}.

Variables BM BK BN TM M K N : Z.
Variables A B : Z -> E.
Variable W : Z.
Variable groupID : vec3.

(** Whether the element of [tileA], of [tileB], that accumulator
    [resIdx] of invocation [lx] reads at step [k] is one that an
    invocation of the workgroup has loaded: the [W] invocations load the
    first [W] elements of each tile. *)
Definition loadedA (lx resIdx k : Z) : bool :=
  (lx / BN * TM + resIdx) * BK + k mod BK <? W.
Definition loadedB (lx k : Z) : bool :=
  lx mod BN * BK + k mod BK <? W.

(** The [k]-th product the accumulator adds: an element of a tile that
    was not loaded is the zero the tile is initialised with. *)
Definition partial_term (lx resIdx k : Z) : E :=
  fmul
    (fmul (of_bool true)
       (if loadedA lx resIdx k
        then A (Matmul3Index.out_row BM BN TM groupID lx resIdx * K + k)
        else fzero))
    (if loadedB lx k
     then B (Matmul3Index.out_col BN groupID lx * K + k)
     else fzero).

Definition partial_dot (lx resIdx : Z) : E :=
  sum_from fzero (partial_term lx resIdx) 0 (Z.to_nat K).

Definition expected_partial : list (Z * E) :=
  flat_map
    (fun lx =>
       map (fun resIdx =>
              (Matmul3Index.out_row BM BN TM groupID lx resIdx * N
               + Matmul3Index.out_col BN groupID lx,
               partial_dot lx resIdx))
           (zseq 0 (Z.to_nat TM)))
    (zseq 0 (Z.to_nat W)).

(** The state of the workgroup after [n] chunks of the inner
    dimension. *)
Definition inv (n : Z) (s : Matmul3.state E) : Prop :=
  length (Matmul3.tileA s) = Z.to_nat (BM * BK)
  /\ length (Matmul3.tileB s) = Z.to_nat (BK * BN)
  /\ (forall idx, W <= idx -> arr_get (Matmul3.tileA s) idx = fzero)
  /\ (forall idx, W <= idx -> arr_get (Matmul3.tileB s) idx = fzero)
  /\ Matmul3.aPtr s = vx groupID * BM * K + n * BK
  /\ Matmul3.bPtr s = vy groupID * BN * K + n * BK
  /\ length (Matmul3.threadResults s) = Z.to_nat W
  /\ (forall lx, 0 <= lx < W ->
        length (nth (Z.to_nat lx) (Matmul3.threadResults s) [])
        = Z.to_nat TM
        /\ forall resIdx, 0 <= resIdx < TM ->
             arr_get (nth (Z.to_nat lx) (Matmul3.threadResults s) []) resIdx
             = sum_from fzero (partial_term lx resIdx) 0 (Z.to_nat (n * BK)))
  /\ forallb (Matmul3.in_extent M K N) (Matmul3.log s) = true
  /\ stores (Matmul3.log s) = [].

End Index.

End Matmul3Partial.

(** ** Further vocabulary: version 3 of [runTest] with its block
       parameters left open *)

Module Grid3.

(** The workgroup shape and the dispatch grid of version 3 as [runTest]
    forms them from [BM], [BN] and [TM]. *)
Definition wgSize (BM BN TM : Z) : Shape := [Size.mul BM BN / TM; 1; 1].

Definition nWorkgroups (BM BN TM M N : Z) : Shape :=
  [cdiv (cdiv M BM) TM; cdiv N BN; 1].

Section Index.

Context {E : Type} {PE : Precision E}.

Variables BM BK BN TM M K N : Z.
Variables A B : Z -> E.
Variable W : Z.
Variable groupID : vec3.


(** The state of the workgroup after [n] chunks of the inner dimension,
    for the accumulators whose element lies within [C]. *)
Definition inv (n : Z) (s : Matmul3.state E) : Prop :=
  length (Matmul3.tileA s) = Z.to_nat W
  /\ length (Matmul3.tileB s) = Z.to_nat W
  /\ Matmul3.aPtr s = vx groupID * BM * K + n * BK
  /\ Matmul3.bPtr s = vy groupID * BN * K + n * BK
  /\ length (Matmul3.threadResults s) = Z.to_nat W
  /\ (forall lx, 0 <= lx < W ->
        length (nth (Z.to_nat lx) (Matmul3.threadResults s) [])
        = Z.to_nat TM
        /\ forall resIdx, 0 <= resIdx < TM ->
             Matmul3Index.out_row BM BN TM groupID lx resIdx < M ->
             Matmul3Index.out_col BN groupID lx < N ->
             arr_get (nth (Z.to_nat lx) (Matmul3.threadResults s) []) resIdx
             = sum_from fzero
                 (Matmul3Index.masked_term K A B
                    (Matmul3Index.out_row BM BN TM groupID lx resIdx)
                    (Matmul3Index.out_col BN groupID lx))
                 0 (Z.to_nat (n * BK)))
  /\ stores (Matmul3.log s) = [].

End Index.

End Grid3.
(** * Facts *)

(** ** Machine integers *)

Lemma u32_wrap_small x : U32.in_range x -> U32.wrap x = x.
Proof. unfold U32.in_range, U32.wrap. intros H. now apply Z.mod_small. Qed.

Lemma u32_add_small x y : U32.in_range (x + y) -> U32.add x y = x + y.
Proof. apply u32_wrap_small. Qed.

Lemma u32_mul_small x y : U32.in_range (x * y) -> U32.mul x y = x * y.
Proof. apply u32_wrap_small. Qed.

(** ** Loops and sums *)

Lemma zseq_length start len : length (zseq start len) = len.
Proof. revert start. induction len; simpl; intros; [reflexivity|]. now rewrite IHlen. Qed.

Lemma in_zseq start len k :
  In k (zseq start len) <-> start <= k < start + Z.of_nat len.
Proof.
  revert start. induction len as [|len IH]; intros start.
  - simpl. lia.
  - cbn [zseq In]. rewrite IH. lia.
Qed.

Lemma nth_zseq start len n d :
  (n < len)%nat -> nth n (zseq start len) d = start + Z.of_nat n.
Proof.
  revert start n. induction len as [|len IH]; intros start [|n] H; simpl; try lia.
  rewrite IH by lia. lia.
Qed.

Lemma zseq_app start n m :
  zseq start (n + m) = zseq start n ++ zseq (start + Z.of_nat n) m.
Proof.
  revert start. induction n as [|n IH]; intros start.
  - simpl. now rewrite Z.add_0_r.
  - cbn [Nat.add zseq app]. rewrite IH.
    replace (start + 1 + Z.of_nat n) with (start + Z.of_nat (S n)) by lia.
    reflexivity.
Qed.

Section Sums.

Context {E : Type} {PE : Precision E}.

Lemma sum_from_app (acc : E) (f : Z -> E) start n m :
  sum_from acc f start (n + m)
  = sum_from (sum_from acc f start n) f (start + Z.of_nat n) m.
Proof. unfold sum_from. now rewrite zseq_app, fold_left_app. Qed.

Lemma sum_from_ext (f g : Z -> E) n : forall start acc,
  (forall k, start <= k < start + Z.of_nat n -> f k = g k) ->
  sum_from acc f start n = sum_from acc g start n.
Proof.
  unfold sum_from. induction n as [|n IH]; intros start acc Hfg;
    [reflexivity|].
  cbn [zseq fold_left]. rewrite Hfg by lia. apply IH.
  intros k Hk. apply Hfg. lia.
Qed.

Lemma sum_from_shift (f : Z -> E) d n : forall start acc,
  sum_from acc f (start + d) n = sum_from acc (fun k => f (k + d)) start n.
Proof.
  unfold sum_from. induction n as [|n IH]; intros start acc; [reflexivity|].
  cbn [zseq fold_left].
  replace (start + d + 1) with (start + 1 + d) by lia. apply IH.
Qed.

End Sums.

(** In exact arithmetic [sum_from] is the sum. *)
Lemma sum_from_exact (f : Z -> Z) n : forall start acc,
  sum_from acc f start n = acc + sumZ f start n.
Proof.
  unfold sum_from. induction n as [|n IH]; intros start acc; simpl.
  - lia.
  - rewrite IH. lia.
Qed.

(** A unit-step loop whose bound fits the index type runs its body once
    for each value of the range, in order. *)
Lemma for_fuel_unit {St : Type} (bound : Z) (body : Z -> St -> option St)
    (g : Z -> St -> St) :
  bound < U32.modulus ->
  (forall k s, 0 <= k < bound -> body k s = Some (g k s)) ->
  forall n k s fuel,
    0 <= k -> k + Z.of_nat n = bound -> (n < fuel)%nat ->
    for_fuel fuel bound incr body k s
    = Some (fold_left (fun s k => g k s) (zseq k n) s).
Proof.
  intros Hb Hbody. induction n as [|n IH]; intros k s fuel Hk Hn Hf.
  - destruct fuel as [|fuel]; [lia|]. simpl.
    destruct (Z.ltb_spec k bound); [lia|reflexivity].
  - destruct fuel as [|fuel]; [lia|]. cbn [for_fuel zseq fold_left].
    destruct (Z.ltb_spec k bound); [|lia].
    rewrite Hbody by lia.
    assert (Hi : incr k = k + 1).
    { unfold incr. apply u32_add_small. unfold U32.in_range. lia. }
    rewrite Hi. apply IH; lia.
Qed.

Lemma for_loop_unit {St : Type} (bound : Z) (body : Z -> St -> option St)
    (g : Z -> St -> St) (k0 : Z) (s : St) :
  bound < U32.modulus -> 0 <= k0 <= bound ->
  (forall k s, 0 <= k < bound -> body k s = Some (g k s)) ->
  for_loop bound incr body k0 s
  = Some (fold_left (fun s k => g k s) (zseq k0 (Z.to_nat (bound - k0))) s).
Proof.
  intros Hb Hk Hbody. unfold for_loop.
  apply for_fuel_unit; try assumption; lia.
Qed.

(** ** Variant 1 *)

Module Matmul1Facts.

Import Matmul1.

(** C3.  For all [M, K, N >= 1] whose three buffers are addressable by the
    kernel's [u32] indices, and every invocation of the naive kernel: an
    invocation with [row >= M] or [col >= N] returns without any store to
    [C]; an invocation with [row < M] and [col < N] performs exactly one
    store, to [C[row * N + col]], of the products
    [A[row * K + k] * B[col * K + k]] added up for [k] from 0 to [K - 1]:
    the inner product of row [row] of [A] and row [col] of [B] in its
    [N x K] row-major layout.  This holds for every element type. *)
Theorem main_spec {E : Type} {PE : Precision E} (M K N : Z) (A B : Z -> E)
    (globalID : vec3) :
  1 <= M -> 1 <= K -> 1 <= N ->
  M * K < U32.modulus -> N * K < U32.modulus -> M * N < U32.modulus ->
  U32.in_range (vx globalID) -> U32.in_range (vy globalID) ->
  let row := vx globalID in
  let col := vy globalID in
  (M <= row \/ N <= col -> main M K N A B globalID = Some [])
  /\ (row < M -> col < N ->
      main M K N A B globalID = Some [(row * N + col, dot1 A B K row col)]).
Proof.
  intros HM HK HN HA HB HC [Hx _] [Hy _] row col. unfold main. fold row col.
  split.
  - intros Hout.
    assert (Hguard : (M <=? row) || (N <=? col) = true).
    { apply orb_true_iff. destruct Hout; [left|right]; now apply Z.leb_le. }
    now rewrite Hguard.
  - intros Hr Hc.
    assert (Hguard : (M <=? row) || (N <=? col) = false).
    { apply orb_false_iff. split; apply Z.leb_gt; assumption. }
    rewrite Hguard.
    assert (HrK : U32.mul row K = row * K).
    { apply u32_mul_small. unfold U32.in_range. nia. }
    assert (HcK : U32.mul col K = col * K).
    { apply u32_mul_small. unfold U32.in_range. nia. }
    assert (HrN : U32.mul row N = row * N).
    { apply u32_mul_small. unfold U32.in_range. nia. }
    rewrite HrK, HcK, HrN.
    rewrite (for_loop_unit K _
               (fun k total => fadd total (term A B K row col k)));
      [ | nia | lia | ].
    + rewrite u32_add_small by (unfold U32.in_range; nia).
      unfold dot1, sum_from, term. now rewrite !Z.add_0_r.
    + intros k s Hk. unfold term.
      rewrite !u32_add_small by (unfold U32.in_range; nia). reflexivity.
Qed.

(** The theorem at the last invocation of a [2 x 3] by [3 x 2] product
    in binary32. *)
Lemma main_spec_witness :
  main 2 3 2 (ones 6) (ones 6) (Vec3 1 1 0)
  = Some [(1 * 2 + 1, dot1 (ones 6) (ones 6) 3 1 1)].
Proof.
  apply (main_spec 2 3 2 (ones 6) (ones 6) (Vec3 1 1 0));
    unfold U32.in_range, U32.modulus; simpl; lia.
Defined.

(** In exact arithmetic the value stored is the sum of the products. *)
Lemma dot1_exact (A B : Z -> Z) (K i j : Z) :
  1 <= K ->
  dot1 A B K i j
  = sumZ (fun k => A (i * K + k) * B (j * K + k)) 0 (Z.to_nat K).
Proof.
  intros HK. unfold dot1. rewrite sum_from_exact.
  replace (Z.to_nat K) with (S (Z.to_nat (K - 1))) by lia.
  reflexivity.
Qed.

End Matmul1Facts.

(** ** Arrays *)

Section Arrays.

Context {E : Type} {PE : Precision E}.

Lemma upd_length n (v : E) a : length (upd n v a) = length a.
Proof.
  revert n. induction a as [|x a IH]; intros [|n]; simpl; auto.
Qed.

Lemma nth_upd_same n (v : E) a d :
  (n < length a)%nat -> nth n (upd n v a) d = v.
Proof.
  revert n. induction a as [|x a IH]; intros [|n] Hn; simpl in *; try lia; auto.
  apply IH. lia.
Qed.

Lemma nth_upd_other n m (v : E) a d :
  n <> m -> nth m (upd n v a) d = nth m a d.
Proof.
  revert n m. induction a as [|x a IH]; intros [|n] [|m] Hn; simpl; auto; try lia.
Qed.

Lemma arr_set_length (a : list E) i v : length (arr_set a i v) = length a.
Proof. apply upd_length. Qed.

Lemma arr_get_set_same (a : list E) i v :
  0 <= i < Z.of_nat (length a) -> arr_get (arr_set a i v) i = v.
Proof. intros Hi. apply nth_upd_same. lia. Qed.

Lemma arr_get_set_other (a : list E) i j v :
  0 <= i -> 0 <= j -> i <> j -> arr_get (arr_set a i v) j = arr_get a j.
Proof. intros Hi Hj Hij. apply nth_upd_other. lia. Qed.

Lemma zeros_length n : length (zeros n) = Z.to_nat n.
Proof. apply repeat_length. Qed.

(** A phase in which every invocation stores to its own element of an
    array leaves, in each such element, the value its invocation stored. *)
Lemma fold_arr_set_length (idx : Z -> Z) (val : Z -> E) ls : forall a,
  length (fold_left (fun a l => arr_set a (idx l) (val l)) ls a) = length a.
Proof.
  induction ls as [|x ls IH]; intros a; simpl; [reflexivity|].
  rewrite IH. apply arr_set_length.
Qed.

Lemma fold_arr_set_get (idx : Z -> Z) (val : Z -> E) ls : forall a l,
  (forall l1 l2, In l1 ls -> In l2 ls -> idx l1 = idx l2 -> l1 = l2) ->
  (forall l', In l' ls -> 0 <= idx l') ->
  In l ls -> idx l < Z.of_nat (length a) ->
  arr_get (fold_left (fun a l => arr_set a (idx l) (val l)) ls a) (idx l)
  = val l.
Proof.
  induction ls as [|x ls IH] using rev_ind; intros a l Hinj Hpos Hin Hlen.
  - destruct Hin.
  - rewrite fold_left_app. cbn [fold_left].
    apply in_app_or in Hin. destruct (Z.eq_dec (idx x) (idx l)) as [Eq|Ne].
    + assert (x = l).
      { apply Hinj; auto using in_or_app, in_eq. }
      subst x. apply arr_get_set_same. rewrite fold_arr_set_length.
      split; [apply Hpos; auto using in_or_app, in_eq | assumption].
    + destruct Hin as [Hin|[->|[]]]; [|congruence].
      rewrite arr_get_set_other; [apply IH | | | ];
        auto using in_or_app, in_eq.
Qed.

End Arrays.

Lemma opt_map_some {X Y : Type} (f : X -> option Y) (g : X -> Y) l :
  (forall x, In x l -> f x = Some (g x)) -> opt_map f l = Some (map g l).
Proof.
  induction l as [|x l IH]; intros Hf; simpl; [reflexivity|].
  rewrite Hf by (left; reflexivity). rewrite IH; [reflexivity|].
  intros y Hy. apply Hf. now right.
Qed.

Lemma div_mod_pair T q r :
  0 <= r < T -> (q * T + r) / T = q /\ (q * T + r) mod T = r.
Proof.
  intros Hr. split.
  - symmetry. apply (Z.div_unique _ _ q r); lia.
  - symmetry. apply (Z.mod_unique _ _ q r); lia.
Qed.

Lemma lane_split T l :
  1 <= T -> 0 <= l < T * T ->
  0 <= l / T < T /\ 0 <= l mod T < T /\ l = l / T * T + l mod T.
Proof.
  intros HT Hl.
  pose proof (Z.div_mod l T ltac:(lia)) as Eq.
  pose proof (Z.mod_pos_bound l T ltac:(lia)) as Hm.
  assert (0 <= l / T) by (apply Z.div_pos; lia).
  assert (l / T < T) by (apply Z.div_lt_upper_bound; lia).
  lia.
Qed.

Lemma cdiv_gt (n d g : Z) : 1 <= d -> (g < cdiv n d <-> g * d < n).
Proof.
  intros Hd. unfold cdiv. split; intros Hg.
  - assert (g + 1 <= (n + d - 1) / d) as H1 by lia.
    pose proof (Z.mul_div_le (n + d - 1) d ltac:(lia)). nia.
  - assert (g + 1 <= (n + d - 1) / d); [|lia].
    apply Z.div_le_lower_bound; lia.
Qed.

(** ** Variant 2 *)

Module Matmul2Facts.

Import Matmul2.

Section Divisible.

Context {E : Type} {PE : Precision E}.

Variables T M K N : Z.
Variables A B : Z -> E.
Variable groupID : vec3.

Hypothesis HT : 1 <= T.
Hypothesis HW : T * T < U32.modulus.
Hypothesis HKT : K mod T = 0.
Hypothesis HM : 1 <= M.
Hypothesis HK : 1 <= K.
Hypothesis HN : 1 <= N.
Hypothesis HA : M * K < U32.modulus.
Hypothesis HB : N * K < U32.modulus.
Hypothesis HC : M * N < U32.modulus.
Hypothesis Hgx : 0 <= vx groupID /\ vx groupID * T < M.
Hypothesis Hgy : 0 <= vy groupID /\ vy groupID * T < N.

Let W := T * T.
Let gx := vx groupID.
Let gy := vy groupID.

Local Abbreviation out_row := (Matmul2.out_row T groupID).
Local Abbreviation out_col := (Matmul2.out_col T groupID).
Local Abbreviation idxA := (Matmul2.idxA T).
Local Abbreviation idxB := (Matmul2.idxB T).
Local Abbreviation valA := (Matmul2.valA T K A groupID).
Local Abbreviation valB := (Matmul2.valB T K B groupID).
Local Abbreviation tile_term := (Matmul2.tile_term T).
Local Abbreviation step_fun := (Matmul2.step_fun T K A B W groupID).
Local Abbreviation inv := (Matmul2.inv T M K N A B W groupID).
Local Abbreviation expected := (Matmul2.expected T M K N A B groupID).


Local Ltac small := unfold U32.in_range, U32.modulus in *; nia.

Lemma T_le_K : T <= K.
Proof.
  apply Z.mod_divide in HKT; [|lia]. apply Z.divide_pos_le in HKT; lia.
Qed.

Lemma K_blocks : K = K / T * T.
Proof. pose proof (Z.div_mod K T ltac:(lia)). lia. Qed.

Lemma row_eq l : 0 <= l < W -> row T groupID l = out_row l.
Proof.
  intros Hl. destruct (lane_split T l HT Hl) as (Hq & Hr & _).
  pose proof T_le_K. unfold row, loadRow, out_row. fold gx.
  rewrite u32_mul_small by (unfold gx in *; small).
  apply u32_add_small. unfold gx in *; small.
Qed.

Lemma col_eq l : 0 <= l < W -> col T groupID l = out_col l.
Proof.
  intros Hl. destruct (lane_split T l HT Hl) as (Hq & Hr & _).
  pose proof T_le_K. unfold col, loadCol, out_col. fold gy.
  rewrite u32_mul_small by (unfold gy in *; small).
  apply u32_add_small. unfold gy in *; small.
Qed.


Lemma load_As tile ls : forall s,
  As (fold_left (load T K A B groupID tile) ls s)
  = fold_left (fun a l => arr_set a (idxA l) (valA tile l)) ls (As s).
Proof. induction ls as [|x ls IH]; intros s; simpl; [reflexivity|]. now rewrite IH. Qed.

Lemma load_Bs tile ls : forall s,
  Bs (fold_left (load T K A B groupID tile) ls s)
  = fold_left (fun a l => arr_set a (idxB l) (valB tile l)) ls (Bs s).
Proof. induction ls as [|x ls IH]; intros s; simpl; [reflexivity|]. now rewrite IH. Qed.

Lemma in_lanes l : In l (lanes W) <-> 0 <= l < W.
Proof.
  unfold lanes. rewrite in_zseq. assert (0 <= W) by (unfold W; nia). lia.
Qed.

Lemma idxA_eq l : 0 <= l < W -> idxA l = l.
Proof.
  intros Hl. destruct (lane_split T l HT Hl) as (Hq & Hr & El).
  unfold idxA, loadRow, loadCol.
  rewrite u32_mul_small by (unfold W in *; small).
  rewrite u32_add_small by (unfold W in *; small). lia.
Qed.

Lemma idxB_eq l : 0 <= l < W -> idxB l = l mod T * T + l / T.
Proof.
  intros Hl. destruct (lane_split T l HT Hl) as (Hq & Hr & El).
  unfold idxB, loadRow, loadCol.
  rewrite u32_mul_small by (unfold W in *; small).
  rewrite u32_add_small by (unfold W in *; small). lia.
Qed.

Lemma idxA_inj l1 l2 :
  In l1 (lanes W) -> In l2 (lanes W) -> idxA l1 = idxA l2 -> l1 = l2.
Proof.
  rewrite !in_lanes. intros H1 H2. rewrite !idxA_eq by assumption. auto.
Qed.

Lemma idxB_inj l1 l2 :
  In l1 (lanes W) -> In l2 (lanes W) -> idxB l1 = idxB l2 -> l1 = l2.
Proof.
  rewrite !in_lanes. intros H1 H2. rewrite !idxB_eq by assumption.
  destruct (lane_split T l1 HT H1) as (Hq1 & Hr1 & E1).
  destruct (lane_split T l2 HT H2) as (Hq2 & Hr2 & E2).
  intros Eidx.
  assert (l1 mod T = l2 mod T) by nia.
  assert (l1 / T = l2 / T) by nia.
  lia.
Qed.

(** After the load phase of tile [tile], the row of [As] read by an
    invocation whose output row is in range holds that row of [A]. *)
Lemma As_after_load tile s l k :
  length (As s) = Z.to_nat W ->
  0 <= l < W -> 0 <= k < T -> out_row l < M ->
  0 <= tile -> tile * T + k < K ->
  arr_get (As (fold_left (load T K A B groupID tile) (lanes W) s))
          (U32.add (U32.mul (loadRow T l) T) k)
  = A (out_row l * K + (tile * T + k)).
Proof.
  intros Hlen Hl Hk Hrow Ht Hin.
  destruct (lane_split T l HT Hl) as (Hq & Hr & El).
  set (l' := l / T * T + k).
  assert (Hl' : 0 <= l' < W) by (unfold l', W in *; nia).
  destruct (div_mod_pair T (l / T) k Hk) as [Eq Er]. fold l' in Eq, Er.
  assert (Ei : U32.add (U32.mul (loadRow T l) T) k = idxA l').
  { rewrite idxA_eq by assumption. unfold loadRow.
    rewrite u32_mul_small by (unfold W in *; small).
    apply u32_add_small. unfold W in *; small. }
  rewrite Ei, load_As.
  rewrite fold_arr_set_get.
  - unfold valA, aRow, loadRow, loadCol. rewrite Eq, Er.
    pose proof (row_eq l Hl) as Erow. unfold row, loadRow in Erow.
    rewrite Erow.
    rewrite (u32_mul_small tile) by small.
    rewrite (u32_add_small (tile * T)) by small.
    rewrite u32_mul_small by (unfold Matmul2.out_row, gx in *; small).
    rewrite u32_add_small by (unfold Matmul2.out_row, gx in *; small).
    reflexivity.
  - apply idxA_inj.
  - intros x Hx. apply in_lanes in Hx. rewrite idxA_eq by assumption. lia.
  - now apply in_lanes.
  - rewrite idxA_eq by assumption. lia.
Qed.

Lemma Bs_after_load tile s l k :
  length (Bs s) = Z.to_nat W ->
  0 <= l < W -> 0 <= k < T -> out_col l < N ->
  0 <= tile -> tile * T + k < K ->
  arr_get (Bs (fold_left (load T K A B groupID tile) (lanes W) s))
          (U32.add (U32.mul (loadCol T l) T) k)
  = B (out_col l * K + (tile * T + k)).
Proof.
  intros Hlen Hl Hk Hcol Ht Hin.
  destruct (lane_split T l HT Hl) as (Hq & Hr & El).
  set (l' := k * T + l mod T).
  assert (Hl' : 0 <= l' < W) by (unfold l', W in *; nia).
  destruct (div_mod_pair T k (l mod T) Hr) as [Eq Er]. fold l' in Eq, Er.
  assert (Ei : U32.add (U32.mul (loadCol T l) T) k = idxB l').
  { rewrite idxB_eq by assumption. rewrite Eq, Er. unfold loadCol.
    rewrite u32_mul_small by (unfold W in *; small).
    apply u32_add_small. unfold W in *; small. }
  rewrite Ei, load_Bs.
  rewrite fold_arr_set_get.
  - unfold valB, bRow, loadRow, loadCol. rewrite Eq, Er.
    pose proof (col_eq l Hl) as Ecol. unfold col, loadCol in Ecol.
    rewrite Ecol.
    rewrite (u32_mul_small tile) by small.
    rewrite (u32_add_small (tile * T)) by small.
    rewrite u32_mul_small by (unfold Matmul2.out_col, gy in *; small).
    rewrite u32_add_small by (unfold Matmul2.out_col, gy in *; small).
    reflexivity.
  - apply idxB_inj.
  - intros x Hx. apply in_lanes in Hx. rewrite idxB_eq by assumption.
    destruct (lane_split T x HT Hx) as (? & ? & _). nia.
  - now apply in_lanes.
  - rewrite idxB_eq by assumption. rewrite Eq, Er. unfold W in *. nia.
Qed.


Lemma accumulate_some s lane :
  accumulate T s lane
  = Some (sum_from (snd lane) (tile_term s (fst lane)) 0 (Z.to_nat T)).
Proof.
  destruct lane as [l total]. unfold accumulate. cbn [fst snd].
  rewrite (for_loop_unit T _ (fun k total => fadd total (tile_term s l k)));
    [ | small | lia | reflexivity ].
  now rewrite Z.sub_0_r.
Qed.

Lemma tile_step_some tile st :
  tile_step T K A B W groupID tile st = Some (step_fun tile st).
Proof.
  unfold tile_step, Matmul2.step_fun.
  set (s' := fold_left (load T K A B groupID tile) (lanes W) (fst st)).
  rewrite (opt_map_some _
             (fun lane =>
                sum_from (snd lane) (tile_term s' (fst lane)) 0 (Z.to_nat T)));
    [reflexivity|].
  intros lane _. apply accumulate_some.
Qed.

Lemma lanes_length : length (lanes W) = Z.to_nat W.
Proof. apply zseq_length. Qed.

Lemma nth_lanes l d : 0 <= l < W -> nth (Z.to_nat l) (lanes W) d = l.
Proof. intros Hl. unfold lanes. rewrite nth_zseq by lia. lia. Qed.

Lemma nth_map_combine {Y : Type} (g : Z * E -> Y) (totals : list E) l d :
  length totals = Z.to_nat W -> 0 <= l < W ->
  nth (Z.to_nat l) (map g (combine (lanes W) totals)) d
  = g (l, nth (Z.to_nat l) totals fzero).
Proof.
  intros Hlen Hl.
  rewrite (nth_indep _ d (g (0, fzero))).
  - rewrite map_nth, combine_nth by (rewrite lanes_length; lia).
    now rewrite nth_lanes.
  - rewrite length_map, length_combine, lanes_length. lia.
Qed.

Lemma inv_step t st :
  0 <= t -> (t + 1) * T <= K -> inv t st -> inv (t + 1) (step_fun t st).
Proof.
  intros Ht HtK (HlA & HlB & Hlt & Hsum).
  unfold Matmul2.inv, Matmul2.step_fun. cbn [fst snd].
  repeat split.
  - rewrite load_As, fold_arr_set_length. assumption.
  - rewrite load_Bs, fold_arr_set_length. assumption.
  - rewrite length_map, length_combine, lanes_length. lia.
  - intros l Hl Hr Hc.
    rewrite nth_map_combine by assumption. cbn [fst snd].
    rewrite Hsum by assumption.
    replace (Z.to_nat ((t + 1) * T))
      with (Z.to_nat (t * T) + Z.to_nat T)%nat by nia.
    rewrite sum_from_app.
    replace (0 + Z.of_nat (Z.to_nat (t * T))) with (0 + t * T) by nia.
    rewrite sum_from_shift.
    apply sum_from_ext. intros k Hk.
    unfold Matmul2.tile_term, term.
    rewrite As_after_load, Bs_after_load by (try assumption; nia).
    f_equal; f_equal; lia.
Qed.

Lemma inv_fold n : forall t st,
  0 <= t -> (t + Z.of_nat n) * T <= K -> inv t st ->
  inv (t + Z.of_nat n) (fold_left (fun s k => step_fun k s) (zseq t n) st).
Proof.
  induction n as [|n IH]; intros t st Ht HtK Hinv.
  - simpl. now rewrite Z.add_0_r.
  - cbn [zseq fold_left].
    replace (t + Z.of_nat (S n)) with (t + 1 + Z.of_nat n) by lia.
    apply IH; [lia | nia | ]. apply inv_step; [lia | nia | assumption].
Qed.

Lemma tiles_eq : (K + T - 1) / T = K / T.
Proof.
  pose proof K_blocks as EK.
  replace (K + T - 1) with (K / T * T + (T - 1)) by lia.
  apply div_mod_pair. lia.
Qed.

Lemma main_divisible :
  exists stores,
    main T M K N A B W groupID = Some stores
    /\ length stores = Z.to_nat W
    /\ forall l, 0 <= l < W -> nth (Z.to_nat l) stores [] = expected l.
Proof.
  unfold main. rewrite tiles_eq.
  assert (HKT' : 0 <= K / T) by (apply Z.div_pos; lia).
  pose proof K_blocks as EK. pose proof T_le_K as HTK.
  rewrite (for_loop_unit _ _ step_fun);
    [ | small | lia | intros; apply tile_step_some ].
  rewrite Z.sub_0_r.
  set (st0 := ({| As := zeros (T * T); Bs := zeros (T * T) |}, zeros W)).
  assert (H0 : inv 0 st0).
  { unfold Matmul2.inv, st0. cbn [fst snd As Bs]. rewrite !zeros_length.
    repeat split; try reflexivity.
    intros l Hl _ _. unfold zeros, sum_from. cbn [Z.mul Z.to_nat zseq fold_left].
    destruct (Z.to_nat l); destruct (Z.to_nat W);
      reflexivity || apply nth_repeat. }
  pose proof (inv_fold (Z.to_nat (K / T)) 0 st0 ltac:(lia) ltac:(lia) H0) as Hf.
  replace (0 + Z.of_nat (Z.to_nat (K / T))) with (K / T) in Hf by lia.
  destruct (fold_left _ _ st0) as [sf totals].
  destruct Hf as (_ & _ & Hlt & Hsum). cbn [fst snd] in *.
  eexists. split; [reflexivity|]. split.
  - rewrite length_map, length_combine, lanes_length. lia.
  - intros l Hl. rewrite nth_map_combine by assumption.
    unfold finish, Matmul2.expected. rewrite row_eq, col_eq by assumption.
    destruct (lane_split T l HT Hl) as (Hq & Hr & _).
    destruct (Z.leb_spec M (out_row l)), (Z.ltb_spec (out_row l) M);
      try lia; cbn [orb andb]; try reflexivity.
    destruct (Z.leb_spec N (out_col l)), (Z.ltb_spec (out_col l) N);
      try lia; cbn [orb andb]; try reflexivity.
    rewrite Hsum by assumption. rewrite <- EK.
    rewrite u32_mul_small
      by (unfold Matmul2.out_row, Matmul2.out_col, gx, gy in *; small).
    rewrite u32_add_small
      by (unfold Matmul2.out_row, Matmul2.out_col, gx, gy in *; small).
    reflexivity.
Qed.

End Divisible.

(** C1, as the kernel has it.  The loads of the tiled kernel carry no mask
    (the masked loads are commented out in the template).  When the tile
    size [T] divides [K], the kernel is correct for every [M] and [N],
    multiples of [T] or not: in every workgroup of the grid
    [cdiv M T x cdiv N T], of [T * T] invocations, the invocation
    responsible for an element [(i, j)] with [i < M] and [j < N] stores
    the products [A[i * K + k] * B[j * K + k]] added up from zero for
    [k] from 0 to [K - 1], the inner product of row [i] of [A] and row
    [j] of [B], to [C[i * N + j]], the others store nothing; and every
    element of [C] is the responsibility of an invocation of a workgroup
    of the grid.  This holds for every element type. *)
Theorem main_K_divisible {E : Type} {PE : Precision E} (T M K N : Z)
    (A B : Z -> E) :
  1 <= T -> T * T < U32.modulus -> K mod T = 0 ->
  1 <= M -> 1 <= K -> 1 <= N ->
  M * K < U32.modulus -> N * K < U32.modulus -> M * N < U32.modulus ->
  (forall groupID,
     0 <= vx groupID < cdiv M T -> 0 <= vy groupID < cdiv N T ->
     exists stores,
       main T M K N A B (T * T) groupID = Some stores
       /\ length stores = Z.to_nat (T * T)
       /\ forall l, 0 <= l < T * T ->
            nth (Z.to_nat l) stores [] = expected T M K N A B groupID l)
  /\ (forall i j, 0 <= i < M -> 0 <= j < N ->
      exists groupID l,
        (0 <= vx groupID < cdiv M T /\ 0 <= vy groupID < cdiv N T)
        /\ 0 <= l < T * T
        /\ expected T M K N A B groupID l = [(i * N + j, dot0 A B K i j)]).
Proof.
  intros HT HW HKT HM HK HN HA HB HC. split.
  - intros groupID [Hx0 Hx] [Hy0 Hy].
    apply cdiv_gt in Hx; [|assumption]. apply cdiv_gt in Hy; [|assumption].
    apply main_divisible; auto.
  - intros i j Hi Hj.
    pose proof (Z.div_mod i T ltac:(lia)) as Ei.
    pose proof (Z.div_mod j T ltac:(lia)) as Ej.
    pose proof (Z.mod_pos_bound i T ltac:(lia)) as Hmi.
    pose proof (Z.mod_pos_bound j T ltac:(lia)) as Hmj.
    assert (0 <= i / T) by (apply Z.div_pos; lia).
    assert (0 <= j / T) by (apply Z.div_pos; lia).
    exists (Vec3 (i / T) (j / T) 0), (i mod T * T + j mod T).
    cbn [vx vy]. repeat split; try assumption; try nia.
    + apply cdiv_gt; [assumption | nia].
    + apply cdiv_gt; [assumption | nia].
    + unfold expected, out_row, out_col. cbn [vx vy].
      destruct (div_mod_pair T (i mod T) (j mod T) Hmj) as [Eq Er].
      rewrite Eq, Er.
      replace (i / T * T + i mod T) with i by lia.
      replace (j / T * T + j mod T) with j by lia.
      destruct (Z.ltb_spec i M); [|lia]. destruct (Z.ltb_spec j N); [|lia].
      reflexivity.
Qed.

(** The theorem at a [3 x 4] by [4 x 3] product with tiles of size two:
    neither [M] nor [N] is a multiple of the tile size. *)
Lemma main_K_divisible_witness :
  (forall groupID,
     0 <= vx groupID < cdiv 3 2 -> 0 <= vy groupID < cdiv 3 2 ->
     exists stores,
       main 2 3 4 3 (ones 12) (ones 12) (2 * 2) groupID = Some stores
       /\ length stores = Z.to_nat (2 * 2)
       /\ forall l, 0 <= l < 2 * 2 ->
            nth (Z.to_nat l) stores []
            = expected 2 3 4 3 (ones 12) (ones 12) groupID l)
  /\ (forall i j, 0 <= i < 3 -> 0 <= j < 3 ->
      exists groupID l,
        (0 <= vx groupID < cdiv 3 2 /\ 0 <= vy groupID < cdiv 3 2)
        /\ 0 <= l < 2 * 2
        /\ expected 2 3 4 3 (ones 12) (ones 12) groupID l
           = [(i * 3 + j, dot0 (ones 12) (ones 12) 4 i j)]).
Proof.
  apply (main_K_divisible 2 3 4 3 (ones 12) (ones 12));
    try reflexivity; lia.
Defined.

(** In exact arithmetic the value stored is the sum of the products. *)
Lemma dot0_exact (A B : Z -> Z) (K i j : Z) :
  dot0 A B K i j
  = sumZ (fun k => A (i * K + k) * B (j * K + k)) 0 (Z.to_nat K).
Proof. unfold dot0. now rewrite sum_from_exact. Qed.

(** C1 as stated fails.  With the tile size of the harness, sixteen, and
    the dimensions of the tiny test of [main()] ([M = 16], [K = 4],
    [N = 8]), the first invocation of the first workgroup stores 16 to
    [C[0]], where the inner product of the first rows of [A] and [B] is 4:
    the loads beyond column [K] are not masked. *)
Lemma main_unmasked_counterexample :
  exists stores,
    main 16 16 4 8 (ones 64) (ones 32) 256 (Vec3 0 0 0) = Some stores
    /\ nth 0 stores [] = [(0, F32.of_Z 16)]
    /\ dot0 (ones 64) (ones 32) 4 0 0 = F32.of_Z 4.
Proof.
  eexists. split; [vm_compute; reflexivity|].
  split; vm_compute; reflexivity.
Qed.

End Matmul2Facts.

(** ** Loops that advance by more than one *)

Lemma for_fuel_inv {St : Type} (P : St -> Prop) (bound : Z) (next : Z -> Z)
    (body : Z -> St -> option St) (lo : Z) :
  (forall k s, lo <= k < bound -> P s ->
               exists s', body k s = Some s' /\ P s') ->
  (forall k, lo <= k < bound -> k < next k) ->
  forall fuel k s,
    lo <= k -> P s -> (Z.to_nat (bound - k) < fuel)%nat ->
    exists s', for_fuel fuel bound next body k s = Some s' /\ P s'.
Proof.
  intros Hbody Hnext. induction fuel as [|fuel IH]; intros k s Hk Hs Hf; [lia|].
  cbn [for_fuel]. destruct (Z.ltb_spec k bound) as [Hlt|Hge].
  - destruct (Hbody k s ltac:(lia) Hs) as (s' & E & Hs'). rewrite E.
    pose proof (Hnext k ltac:(lia)).
    apply IH; [lia | assumption | lia].
  - eauto.
Qed.

Lemma i32_add_small x y :
  - 2 ^ 31 <= x + y < 2 ^ 31 -> I32.add x y = x + y.
Proof.
  intros H. unfold I32.add, I32.wrap. rewrite Z.mod_small; lia.
Qed.

Lemma fold_left_snoc {X Y : Type} (f : X -> Y) (l : list X) : forall acc,
  fold_left (fun out x => out ++ [f x]) l acc = acc ++ map f l.
Proof.
  induction l as [|x l IH]; intros acc; simpl.
  - now rewrite app_nil_r.
  - rewrite IH, <- app_assoc. reflexivity.
Qed.

Lemma opt_map_inv {X Y : Type} (f : X -> option Y) (l : list X) :
  (forall x, In x l -> exists y, f x = Some y) ->
  exists ys, opt_map f l = Some ys /\ length ys = length l.
Proof.
  induction l as [|x l IH]; intros H; simpl.
  - eauto.
  - destruct (H x (or_introl eq_refl)) as [y E]. rewrite E.
    destruct IH as (ys & E' & Hl); [intros; apply H; now right|].
    rewrite E'. exists (y :: ys). simpl. auto.
Qed.

(** ** Variant 3 *)

Module Matmul3Facts.

Import Matmul3.

Section Returns.

Context {E : Type} {PE : Precision E}.

Variables BM BK BN TM M K N : Z.
Variables A B : Z -> E.
Variable W : Z.
Variable groupID : vec3.

Hypothesis HBK : 1 <= BK < U32.modulus.
Hypothesis HTM : 0 <= TM < U32.modulus.
Hypothesis HK : 0 <= K /\ K + BK <= 2 ^ 31.

Local Abbreviation load := (Matmul3.load BK K A B).
Local Abbreviation accumulate := (Matmul3.accumulate BM BK BN TM M N groupID).
Local Abbreviation chunk_step :=
  (Matmul3.chunk_step BM BK BN TM M K N A B W groupID).
Local Abbreviation write_back := (Matmul3.write_back BM BN TM N groupID).
Local Abbreviation writes := (Matmul3.writes BM BN TM N groupID).
Local Abbreviation init := (Matmul3.init BM BK BN TM K W groupID).

Lemma accumulate_returns s lane : exists r, accumulate s lane = Some r.
Proof.
  destruct lane as [lx results]. unfold Matmul3.accumulate.
  eexists.
  apply (for_loop_unit BK _
           (fun dotIdx results =>
              fold_left
                (fun results resIdx =>
                   accumulate_one BM BK BN TM M N groupID s lx dotIdx
                     (arr_get (tileB s)
                        (U32.add (U32.mul (threadCol BN lx) BK) dotIdx))
                     resIdx results)
                (zseq 0 (Z.to_nat (TM - 0))) results)); try lia.
  intros dotIdx r _.
  apply (for_loop_unit TM _
           (fun resIdx results =>
              accumulate_one BM BK BN TM M N groupID s lx dotIdx
                (arr_get (tileB s)
                   (U32.add (U32.mul (threadCol BN lx) BK) dotIdx))
                resIdx results));
    try lia.
  reflexivity.
Qed.

Lemma load_threadResults ls : forall s,
  threadResults (fold_left load ls s) = threadResults s.
Proof. induction ls as [|x ls IH]; intros s; simpl; [reflexivity|]. now rewrite IH. Qed.

Lemma workgroup_lanes_length : length (lanes W) = Z.to_nat W.
Proof. apply zseq_length. Qed.

Lemma chunk_step_returns bkIdx s :
  length (threadResults s) = Z.to_nat W ->
  exists s', chunk_step bkIdx s = Some s'
             /\ length (threadResults s') = Z.to_nat W.
Proof.
  intros Hlen. unfold Matmul3.chunk_step.
  set (s1 := advance BK (fold_left load (lanes W) s)).
  destruct (opt_map_inv (accumulate s1) (combine (lanes W) (threadResults s1)))
    as (ys & Eys & Hys).
  { intros lane _. apply accumulate_returns. }
  rewrite Eys. eexists. split; [reflexivity|]. cbn [threadResults].
  rewrite Hys, length_combine, workgroup_lanes_length.
  unfold s1. cbn [advance threadResults]. rewrite load_threadResults. lia.
Qed.

Lemma loop_returns :
  exists s,
    for_loop K (fun bkIdx => I32.add bkIdx BK) chunk_step 0 init = Some s
    /\ length (threadResults s) = Z.to_nat W.
Proof.
  unfold for_loop.
  apply (for_fuel_inv (fun s => length (threadResults s) = Z.to_nat W)
           K _ _ 0).
  - intros k s _ Hs. now apply chunk_step_returns.
  - intros k Hk. rewrite i32_add_small; lia.
  - lia.
  - unfold Matmul3.init. cbn [threadResults]. apply repeat_length.
  - lia.
Qed.

Lemma write_back_eq lane : write_back lane = Some (writes lane).
Proof.
  destruct lane as [lx results]. unfold Matmul3.write_back, Matmul3.writes.
  rewrite (for_loop_unit TM _
             (fun resIdx out =>
                out ++ [WriteC (c_index BM BN TM N groupID lx resIdx)
                               (arr_get results resIdx)]));
    try lia; [|reflexivity].
  rewrite (fold_left_snoc
             (fun resIdx => WriteC (c_index BM BN TM N groupID lx resIdx)
                                   (arr_get results resIdx))).
  now rewrite Z.sub_0_r.
Qed.

(** The kernel returns, and ends with the stores of every invocation. *)
Lemma main_returns :
  exists s,
    main BM BK BN TM M K N A B W groupID
    = Some (log s ++ flat_map writes (combine (lanes W) (threadResults s)))
    /\ length (threadResults s) = Z.to_nat W.
Proof.
  destruct loop_returns as (s & Eloop & Hlen). exists s. split; [|assumption].
  unfold main. rewrite Eloop.
  rewrite (opt_map_some _ writes) by (intros; apply write_back_eq).
  now rewrite flat_map_concat_map.
Qed.

End Returns.

(** C2 fails on the kernel.  For the [5 x 4] by [4 x 5] product the grid
    of [runTest] is [2 x 2] workgroups, and the last of them reads [A]
    and [B], of twenty elements each, up to index 31, and stores to [C],
    of twenty-five elements, up to index 42: the loads and the stores of
    the kernel carry no guard, the mask only zeroes what is accumulated. *)
Theorem main_leaves_extent :
  RunTest.nWorkgroups3 5 5 = [2; 2; 1]
  /\ exists accesses,
       main RunTest.BM RunTest.BK RunTest.BN RunTest.TM 5 4 5
         (ones 20) (ones 20) (nth 0 RunTest.wgSize3 0) (Vec3 1 1 0)
       = Some accesses
       /\ (In (ReadA 31) accesses /\ in_extent 5 4 5 (ReadA 31 : access spec_float) = false)
       /\ (In (ReadB 31) accesses /\ in_extent 5 4 5 (ReadB 31 : access spec_float) = false)
       /\ (In (WriteC 42 fzero) accesses
           /\ in_extent 5 4 5 (WriteC 42 (fzero : spec_float)) = false).
Proof.
  split; [reflexivity|].
  eexists. split; [vm_compute; reflexivity|].
  repeat split; try reflexivity; cbn [In]; intuition congruence.
Qed.

End Matmul3Facts.

(** ** The template engine *)

Section Replace.

Local Open Scope string_scope.

Lemma append_assoc (a b c : string) : (a ++ b) ++ c = a ++ (b ++ c).
Proof. induction a as [|x a IH]; simpl; [reflexivity|]. now rewrite IH. Qed.

Lemma no_open_brace_app a b :
  no_open_brace (a ++ b) = no_open_brace a && no_open_brace b.
Proof.
  induction a as [|c a IH]; simpl; [reflexivity|].
  rewrite IH. now rewrite andb_assoc.
Qed.

(** A pass for a name that opens with a brace copies text without one. *)
Lemma replace_from_no_brace (from' to a b : string) :
  no_open_brace a = true ->
  replace_from (String "{" from') to 0 (a ++ b)
  = a ++ replace_from (String "{" from') to 0 b.
Proof.
  induction a as [|c a IH]; intros H; [reflexivity|].
  cbn [no_open_brace] in H. apply andb_true_iff in H. destruct H as [Hc Ha].
  cbn [append replace_from String.prefix].
  destruct (ascii_dec "{" c) as [E|E].
  - subst c. discriminate Hc.
  - now rewrite IH.
Qed.

Lemma no_open_brace_uint d :
  no_open_brace (NilEmpty.string_of_uint d) = true.
Proof. induction d; simpl; auto. Qed.

Lemma no_open_brace_size n : no_open_brace (toString_size n) = true.
Proof.
  unfold toString_size, NilZero.string_of_uint.
  destruct (N.to_uint (Z.to_N n)); try reflexivity;
    apply (no_open_brace_uint (_ _)).
Qed.

Lemma prefix_app_false (from s b : string) :
  String.prefix from s = false -> String.prefix s from = false ->
  String.prefix from (s ++ b) = false.
Proof.
  revert s. induction from as [|x from IH]; intros [|y s] H1 H2;
    try discriminate.
  cbn [append String.prefix] in *.
  destruct (ascii_dec x y) as [E|E]; [|reflexivity].
  subst y. destruct (ascii_dec x x) as [_|E]; [|contradiction].
  now apply IH.
Qed.

(** A pass copies a token at no position of which its name starts. *)
Lemma replace_from_keeps (from to tok b : string) :
  never_starts from tok = true ->
  replace_from from to 0 (tok ++ b) = tok ++ replace_from from to 0 b.
Proof.
  induction tok as [|c tok IH]; intros H; [reflexivity|].
  cbn [never_starts] in H.
  apply andb_true_iff in H. destruct H as [H H3].
  apply andb_true_iff in H. destruct H as [H1 H2].
  apply negb_true_iff in H1, H2.
  change (String c tok ++ b) with (String c (tok ++ b)).
  cbn [replace_from].
  change (String c (tok ++ b)) with (String c tok ++ b).
  rewrite (prefix_app_false _ _ b H1 H2).
  change (String c tok ++ b) with (String c (tok ++ b)).
  now rewrite IH.
Qed.

Lemma prefix_app_same (from b : string) : String.prefix from (from ++ b) = true.
Proof.
  induction from as [|x from IH]; [destruct b; reflexivity|].
  cbn [append String.prefix].
  destruct (ascii_dec x x) as [_|E]; [assumption|contradiction].
Qed.

Lemma replace_from_skip (from to x b : string) :
  replace_from from to (String.length x) (x ++ b) = replace_from from to 0 b.
Proof. induction x as [|c x IH]; [reflexivity|]. exact IH. Qed.

(** A pass replaces its name by the value. *)
Lemma replace_from_hit (c : ascii) (from to b : string) :
  replace_from (String c from) to 0 (String c from ++ b)
  = to ++ replace_from (String c from) to 0 b.
Proof.
  change (String c from ++ b) with (String c (from ++ b)).
  cbn [replace_from].
  change (String c (from ++ b)) with (String c from ++ b).
  rewrite prefix_app_same. cbn [String.length Nat.sub].
  rewrite Nat.sub_0_r. now rewrite replace_from_skip.
Qed.

End Replace.
(** ** The harness *)

Module RunTestFacts.

Import RunTest.

Lemma create_cases (version M K N : Z) (t : list event) :
  exists kernel made,
    create version M K N t = (kernel, t ++ made)
    /\ (made = []
        \/ exists v code bindings grid,
            made = [CreateMatmul v; CreateKernel code bindings grid])
    /\ ((version <> 1 /\ version <> 2 /\ version <> 3) ->
        kernel = KernelDefault /\ made = []).
Proof.
  unfold create.
  destruct (Z.eqb_spec version 1) as [E1|E1];
    [|destruct (Z.eqb_spec version 2) as [E2|E2];
      [|destruct (Z.eqb_spec version 3) as [E3|E3]]].
  - do 2 eexists. unfold bind, call, ret. rewrite <- app_assoc.
    split; [reflexivity|]. split; [right; do 4 eexists; reflexivity | lia].
  - do 2 eexists. unfold bind, call, ret. rewrite <- app_assoc.
    split; [reflexivity|]. split; [right; do 4 eexists; reflexivity | lia].
  - do 2 eexists. unfold bind, call, ret. rewrite <- app_assoc.
    split; [reflexivity|]. split; [right; do 4 eexists; reflexivity | lia].
  - exists KernelDefault, []. unfold ret. rewrite app_nil_r.
    split; [reflexivity|]. split; [now left | auto].
Qed.

(** The calls of a run: the set-up, then the dispatch loop between the
    two readings of the clock. *)
Lemma calls_shape (version M K N elapsed_ns : Z) :
  exists kernel made,
    (made = []
     \/ exists v code bindings grid,
            made = [CreateMatmul v; CreateKernel code bindings grid])
    /\ ((version <> 1 /\ version <> 2 /\ version <> 3) ->
        kernel = KernelDefault /\ made = [])
    /\ calls version M K N elapsed_ns
       = [CreateContext; CreateTensor input [M; K] true;
          CreateTensor weights [N; K] true; CreateTensor output [M; N] false]
         ++ made
         ++ map NewPromise (seq 0 nIter) ++ map GetFuture (seq 0 nIter)
         ++ [ClockNow]
         ++ flat_map
              (fun i => [DispatchKernel kernel i; Wait i;
                         ResetCommandBuffer kernel])
              (seq 0 nIter)
         ++ [ClockNow; ToCPU output (Size.mul (Size.mul M N) 4)].
Proof.
  destruct (create_cases version M K N
              [CreateContext; CreateTensor input [M; K] true;
               CreateTensor weights [N; K] true;
               CreateTensor output [M; N] false])
    as (kernel & made & E & Hmade & Hdefault).
  exists kernel, made. split; [exact Hmade|]. split; [exact Hdefault|].
  unfold calls, runTest, bind at 1 2 3 4, call at 1 2 3 4. cbn [app].
  unfold bind at 1. cbn [app]. rewrite E.
  cbv beta iota delta [bind call ret for_each iteration nIter seq fst snd].
  rewrite <- !app_assoc. reflexivity.
Qed.

(** C9.  The version is not checked: for every version other than 1, 2
    and 3, [runTest] calls no generator and compiles no kernel, and its
    dispatch loop still runs, [nIter] times, on the default-constructed
    kernel. *)
Theorem runTest_default_kernel (version M K N elapsed_ns : Z) :
  version <> 1 -> version <> 2 -> version <> 3 ->
  existsb renders_or_compiles (calls version M K N elapsed_ns) = false
  /\ timed (calls version M K N elapsed_ns)
     = flat_map
         (fun i => [DispatchKernel KernelDefault i; Wait i;
                    ResetCommandBuffer KernelDefault])
         (seq 0 nIter).
Proof.
  intros H1 H2 H3.
  destruct (calls_shape version M K N elapsed_ns)
    as (kernel & made & _ & Hdefault & E).
  destruct Hdefault as [-> ->]; [auto|]. rewrite E. split; reflexivity.
Qed.

Lemma runTest_default_kernel_witness :
  existsb renders_or_compiles (calls 0 16 4 8 5000000) = false
  /\ timed (calls 0 16 4 8 5000000)
     = flat_map
         (fun i => [DispatchKernel KernelDefault i; Wait i;
                    ResetCommandBuffer KernelDefault])
         (seq 0 nIter).
Proof.
  apply (runTest_default_kernel 0 16 4 8 5000000); discriminate.
Defined.



Lemma reported_eq (version M K N elapsed_ns : Z) :
  reported version M K N elapsed_ns
  = gflops M K N (duration_count elapsed_ns).
Proof.
  destruct (create_cases version M K N
              [CreateContext; CreateTensor input [M; K] true;
               CreateTensor weights [N; K] true;
               CreateTensor output [M; N] false])
    as (kernel & made & E & _).
  unfold reported, runTest, bind at 1 2 3 4, call at 1 2 3 4. cbn [app].
  unfold bind at 1. cbn [app]. rewrite E.
  cbv beta iota delta [bind call ret for_each iteration nIter seq fst snd].
  reflexivity.
Qed.

(** A quotient by zero is infinite or not a number, and stays so through
    the rest of the computation of the throughput. *)
Lemma gflops_zero_count (M K N : Z) : is_finite (gflops M K N 0) = false.
Proof.
  unfold gflops.
  destruct (F64.of_Z (Size.mul (Size.mul (Size.mul 2 M) N) K));
    reflexivity.
Qed.

(** C10.  The throughput is computed from the elapsed time in whole
    milliseconds, the fraction dropped: when the [nIter] dispatches take
    less than a millisecond together, that count is zero, the
    computation divides by it, and the throughput reported is not a
    finite number. *)
Theorem runTest_gflops_not_finite (version M K N elapsed_ns : Z) :
  0 <= elapsed_ns < 1000000 ->
  duration_count elapsed_ns = 0
  /\ reported version M K N elapsed_ns = gflops M K N 0
  /\ is_finite (reported version M K N elapsed_ns) = false.
Proof.
  intros H.
  assert (E : duration_count elapsed_ns = 0)
    by (unfold duration_count; apply Z.quot_small; lia).
  rewrite reported_eq, E. repeat split. apply gflops_zero_count.
Qed.

(** The theorem at the dimensions of the small test of [main()], for a
    run of version 3 that takes 0.9 ms. *)
Lemma runTest_gflops_not_finite_witness :
  duration_count 900000 = 0
  /\ reported 3 256 128 512 900000 = gflops 256 128 512 0
  /\ is_finite (reported 3 256 128 512 900000) = false.
Proof.
  apply (runTest_gflops_not_finite 3 256 128 512 900000). lia.
Defined.

End RunTestFacts.


(** ** Arithmetic side conditions

    [lia] treats every [Z.to_nat] and every [length] of the context by
    cases.  The side conditions below are about integers alone, so the
    hypotheses about lengths are put aside first. *)

Ltac hide_nat :=
  repeat match goal with
  | H : context [Z.to_nat _] |- _ => clear H
  | H : context [length _] |- _ => clear H
  end.

Ltac flia := hide_nat; lia.

Ltac fits := unfold U32.in_range, U32.modulus in *; hide_nat; lia.

Lemma to_nat_stride (n step : Z) :
  0 <= n * step -> 0 <= step ->
  Z.to_nat ((n + 1) * step) = (Z.to_nat (n * step) + Z.to_nat step)%nat.
Proof.
  intros H1 H2. replace ((n + 1) * step) with (n * step + step) by ring.
  now apply Z2Nat.inj_add.
Qed.

Lemma in_range_to_nat (d b : Z) :
  0 <= d < 0 + Z.of_nat (Z.to_nat b) -> 1 <= b -> 0 <= d < b.
Proof. lia. Qed.

Lemma combine_lanes_length {X : Type} (W : Z) (xs : list X) :
  length xs = Z.to_nat W ->
  length (combine (zseq 0 (Z.to_nat W)) xs) = Z.to_nat W.
Proof.
  intros Hlen. rewrite length_combine, zseq_length, Hlen. lia.
Qed.

(** ** Variant 2, for every [K] *)

Lemma u32_wrap_le x : 0 <= x -> 0 <= U32.wrap x <= x.
Proof.
  intros Hx. unfold U32.wrap, U32.modulus. split.
  - apply Z.mod_pos_bound. lia.
  - apply Z.mod_le; lia.
Qed.

Lemma u32_wrap_range x : U32.in_range (U32.wrap x).
Proof. unfold U32.in_range, U32.wrap, U32.modulus. apply Z.mod_pos_bound. lia. Qed.

Lemma cdiv_bounds (n d : Z) :
  1 <= d -> 0 <= n -> n <= cdiv n d * d < n + d /\ 0 <= cdiv n d.
Proof.
  intros Hd Hn. unfold cdiv.
  pose proof (Z.div_mod (n + d - 1) d ltac:(lia)) as Ediv.
  pose proof (Z.mod_pos_bound (n + d - 1) d ltac:(lia)) as Hmod.
  assert (0 <= (n + d - 1) / d) by (apply Z.div_pos; lia).
  nia.
Qed.

Module Matmul2More.

Import Matmul2 Matmul2Index.

Section Padded.

Context {E : Type} {PE : Precision E}.

Variables T M K N : Z.
Variables A B : Z -> E.
Variable groupID : vec3.

Hypothesis HT : 1 <= T.
Hypothesis HW : T * T < U32.modulus.
Hypothesis HM : 1 <= M.
Hypothesis HK : 1 <= K.
Hypothesis HN : 1 <= N.
Hypothesis HA : M * K + T <= U32.modulus.
Hypothesis HB : N * K + T <= U32.modulus.
Hypothesis HC : M * N < U32.modulus.
Hypothesis Hgx : 0 <= vx groupID /\ vx groupID * T < M.
Hypothesis Hgy : 0 <= vy groupID /\ vy groupID * T < N.

Local Abbreviation W := (T * T).
Let nt := cdiv K T.

Local Abbreviation out_row := (Matmul2.out_row T groupID).
Local Abbreviation out_col := (Matmul2.out_col T groupID).
Local Abbreviation step_fun := (Matmul2.step_fun T K A B W groupID).
Local Abbreviation inv := (Matmul2.inv T M K N A B W groupID).

Local Ltac small := unfold U32.in_range, U32.modulus in *; nia.
Local Ltac lin := unfold U32.in_range, U32.modulus in *; lia.

Lemma nt_bounds : K <= nt * T < K + T /\ 0 <= nt.
Proof. apply cdiv_bounds; lia. Qed.

Lemma row_pad l : 0 <= l < W -> row T groupID l = out_row l.
Proof.
  intros Hl. destruct (lane_split T l HT Hl) as (Hq & Hr & _).
  unfold row, loadRow, Matmul2.out_row.
  rewrite u32_mul_small by small.
  apply u32_add_small. small.
Qed.

Lemma col_pad l : 0 <= l < W -> col T groupID l = out_col l.
Proof.
  intros Hl. destruct (lane_split T l HT Hl) as (Hq & Hr & _).
  unfold col, loadCol, Matmul2.out_col.
  rewrite u32_mul_small by small.
  apply u32_add_small. small.
Qed.

Lemma As_after_load_pad tile s l k :
  length (As s) = Z.to_nat W ->
  0 <= l < W -> 0 <= k < T -> out_row l < M ->
  0 <= tile < nt ->
  arr_get (As (fold_left (load T K A B groupID tile) (lanes W) s))
          (U32.add (U32.mul (loadRow T l) T) k)
  = A (out_row l * K + (tile * T + k)).
Proof.
  intros Hlen Hl Hk Hrow Ht. pose proof nt_bounds as Hnt.
  destruct (lane_split T l HT Hl) as (Hq & Hr & El).
  set (l' := l / T * T + k).
  assert (Hl' : 0 <= l' < W) by (unfold l' in *; nia).
  destruct (div_mod_pair T (l / T) k Hk) as [Eq Er]. fold l' in Eq, Er.
  assert (Ei : U32.add (U32.mul (loadRow T l) T) k = idxA T l').
  { rewrite (Matmul2Facts.idxA_eq T groupID HT HW) by assumption.
    unfold loadRow.
    rewrite u32_mul_small by small.
    apply u32_add_small. small. }
  rewrite Ei, Matmul2Facts.load_As.
  rewrite fold_arr_set_get.
  - unfold valA, aRow, loadRow, loadCol. rewrite Eq, Er.
    pose proof (row_pad l Hl) as Erow. unfold row, loadRow in Erow.
    rewrite Erow.
    assert (0 <= tile * T) by (apply Z.mul_nonneg_nonneg; lia).
    assert (tile * T <= (nt - 1) * T)
      by (apply Z.mul_le_mono_nonneg_r; lia).
    assert (tile * T + k < K + T) by lia.
    assert (0 <= vx groupID * T) by (apply Z.mul_nonneg_nonneg; lia).
    assert (0 <= out_row l) by (unfold Matmul2.out_row; lia).
    assert (out_row l * K <= (M - 1) * K)
      by (apply Z.mul_le_mono_nonneg_r; lia).
    assert (0 <= out_row l * K) by (apply Z.mul_nonneg_nonneg; lia).
    rewrite (u32_mul_small tile) by lin.
    rewrite (u32_add_small (tile * T)) by lin.
    rewrite u32_mul_small by lin.
    rewrite u32_add_small by lin.
    reflexivity.
  - apply (Matmul2Facts.idxA_inj T groupID HT HW).
  - intros x Hx. apply (Matmul2Facts.in_lanes T groupID HT) in Hx.
    rewrite (Matmul2Facts.idxA_eq T groupID HT HW) by assumption. lia.
  - now apply (Matmul2Facts.in_lanes T groupID HT).
  - rewrite (Matmul2Facts.idxA_eq T groupID HT HW) by assumption. lia.
Qed.

Lemma Bs_after_load_pad tile s l k :
  length (Bs s) = Z.to_nat W ->
  0 <= l < W -> 0 <= k < T -> out_col l < N ->
  0 <= tile < nt ->
  arr_get (Bs (fold_left (load T K A B groupID tile) (lanes W) s))
          (U32.add (U32.mul (loadCol T l) T) k)
  = B (out_col l * K + (tile * T + k)).
Proof.
  intros Hlen Hl Hk Hcol Ht. pose proof nt_bounds as Hnt.
  destruct (lane_split T l HT Hl) as (Hq & Hr & El).
  set (l' := k * T + l mod T).
  assert (Hl' : 0 <= l' < W) by (unfold l' in *; nia).
  destruct (div_mod_pair T k (l mod T) Hr) as [Eq Er]. fold l' in Eq, Er.
  assert (Ei : U32.add (U32.mul (loadCol T l) T) k = idxB T l').
  { rewrite (Matmul2Facts.idxB_eq T groupID HT HW) by assumption.
    rewrite Eq, Er. unfold loadCol.
    rewrite u32_mul_small by small.
    apply u32_add_small. small. }
  rewrite Ei, Matmul2Facts.load_Bs.
  rewrite fold_arr_set_get.
  - unfold valB, bRow, loadRow, loadCol. rewrite Eq, Er.
    pose proof (col_pad l Hl) as Ecol. unfold col, loadCol in Ecol.
    rewrite Ecol.
    assert (0 <= tile * T) by (apply Z.mul_nonneg_nonneg; lia).
    assert (tile * T <= (nt - 1) * T)
      by (apply Z.mul_le_mono_nonneg_r; lia).
    assert (tile * T + k < K + T) by lia.
    assert (0 <= vy groupID * T) by (apply Z.mul_nonneg_nonneg; lia).
    assert (0 <= out_col l) by (unfold Matmul2.out_col; lia).
    assert (out_col l * K <= (N - 1) * K)
      by (apply Z.mul_le_mono_nonneg_r; lia).
    assert (0 <= out_col l * K) by (apply Z.mul_nonneg_nonneg; lia).
    rewrite (u32_mul_small tile) by lin.
    rewrite (u32_add_small (tile * T)) by lin.
    rewrite u32_mul_small by lin.
    rewrite u32_add_small by lin.
    reflexivity.
  - apply (Matmul2Facts.idxB_inj T groupID HT HW).
  - intros x Hx. apply (Matmul2Facts.in_lanes T groupID HT) in Hx.
    rewrite (Matmul2Facts.idxB_eq T groupID HT HW) by assumption.
    destruct (lane_split T x HT Hx) as (? & ? & _). nia.
  - now apply (Matmul2Facts.in_lanes T groupID HT).
  - rewrite (Matmul2Facts.idxB_eq T groupID HT HW) by assumption.
    rewrite Eq, Er. nia.
Qed.

Lemma inv_step_pad t st :
  0 <= t < nt -> inv t st -> inv (t + 1) (step_fun t st).
Proof.
  intros Ht (HlA & HlB & Hlt & Hsum).
  unfold Matmul2.inv, Matmul2.step_fun. cbn [fst snd].
  repeat split.
  - rewrite Matmul2Facts.load_As, fold_arr_set_length. assumption.
  - rewrite Matmul2Facts.load_Bs, fold_arr_set_length. assumption.
  - rewrite length_map, length_combine, Matmul2Facts.lanes_length. lia.
  - intros l Hl Hr Hc.
    rewrite (Matmul2Facts.nth_map_combine T groupID HT) by assumption.
    cbn [fst snd].
    rewrite Hsum by assumption.
    replace (Z.to_nat ((t + 1) * T))
      with (Z.to_nat (t * T) + Z.to_nat T)%nat by nia.
    rewrite sum_from_app.
    replace (0 + Z.of_nat (Z.to_nat (t * T))) with (0 + t * T) by nia.
    rewrite sum_from_shift.
    apply sum_from_ext. intros k Hk.
    unfold Matmul2.tile_term, term.
    rewrite As_after_load_pad, Bs_after_load_pad by (try assumption; lia).
    f_equal; f_equal; lia.
Qed.

Lemma inv_fold_pad n : forall t st,
  0 <= t -> t + Z.of_nat n <= nt -> inv t st ->
  inv (t + Z.of_nat n) (fold_left (fun s k => step_fun k s) (zseq t n) st).
Proof.
  induction n as [|n IH]; intros t st Ht HtK Hinv.
  - simpl. now rewrite Z.add_0_r.
  - cbn [zseq fold_left].
    replace (t + Z.of_nat (S n)) with (t + 1 + Z.of_nat n) by lia.
    apply IH; [lia | lia | ]. apply inv_step_pad; [lia | assumption].
Qed.

Lemma main_padded :
  exists stores,
    main T M K N A B W groupID = Some stores
    /\ length stores = Z.to_nat W
    /\ forall l, 0 <= l < W ->
         nth (Z.to_nat l) stores [] = expected_padded T M K N A B groupID l.
Proof.
  unfold main. fold (cdiv K T). fold nt. pose proof nt_bounds as Hnt.
  rewrite (for_loop_unit _ _ step_fun);
    [ | small | lia
      | intros; apply (Matmul2Facts.tile_step_some T K A B groupID HT HW) ].
  rewrite Z.sub_0_r.
  set (st0 := ({| As := zeros (T * T); Bs := zeros (T * T) |}, zeros W)).
  assert (H0 : inv 0 st0).
  { unfold Matmul2.inv, st0. cbn [fst snd As Bs]. rewrite !zeros_length.
    repeat split; try reflexivity.
    intros l Hl _ _. unfold zeros, sum_from. cbn [Z.mul Z.to_nat zseq fold_left].
    destruct (Z.to_nat l); destruct (Z.to_nat W);
      reflexivity || apply nth_repeat. }
  pose proof (inv_fold_pad (Z.to_nat nt) 0 st0 ltac:(lia) ltac:(lia) H0) as Hf.
  replace (0 + Z.of_nat (Z.to_nat nt)) with nt in Hf by lia.
  destruct (fold_left _ _ st0) as [sf totals].
  destruct Hf as (_ & _ & Hlt & Hsum). cbn [fst snd] in *.
  eexists. split; [reflexivity|]. split.
  - rewrite length_map, length_combine, Matmul2Facts.lanes_length. lia.
  - intros l Hl.
    rewrite (Matmul2Facts.nth_map_combine T groupID HT) by assumption.
    unfold finish, expected_padded, dot0_padded.
    rewrite row_pad, col_pad by assumption.
    destruct (lane_split T l HT Hl) as (Hq & Hr & _).
    destruct (Z.leb_spec M (out_row l)), (Z.ltb_spec (out_row l) M);
      try lia; cbn [orb andb]; try reflexivity.
    destruct (Z.leb_spec N (out_col l)), (Z.ltb_spec (out_col l) N);
      try lia; cbn [orb andb]; try reflexivity.
    rewrite Hsum by assumption. fold nt.
    assert (0 <= out_row l) by (unfold Matmul2.out_row; nia).
    assert (0 <= out_col l) by (unfold Matmul2.out_col; nia).
    rewrite u32_mul_small by small.
    rewrite u32_add_small by small.
    reflexivity.
Qed.

End Padded.

(** X1.  What the tiled kernel computes for every [K], a multiple of the
    tile size or not: in every workgroup of the grid, the invocation
    responsible for an in-range element [(i, j)] stores to
    [C[i * N + j]] the products [A[i * K + k] * B[j * K + k]] added up
    from zero for [k] from 0 up to the next multiple of [T] at or after
    [K]; the products from [k = K] on are taken from what follows the
    row in memory.  The other invocations store nothing. *)
Theorem main_every_K {E : Type} {PE : Precision E} (T M K N : Z)
    (A B : Z -> E) (groupID : vec3) :
  1 <= T -> T * T < U32.modulus ->
  1 <= M -> 1 <= K -> 1 <= N ->
  M * K + T <= U32.modulus -> N * K + T <= U32.modulus ->
  M * N < U32.modulus ->
  0 <= vx groupID < cdiv M T -> 0 <= vy groupID < cdiv N T ->
  exists stores,
    main T M K N A B (T * T) groupID = Some stores
    /\ length stores = Z.to_nat (T * T)
    /\ forall l, 0 <= l < T * T ->
         nth (Z.to_nat l) stores [] = expected_padded T M K N A B groupID l.
Proof.
  intros HT HW HM HK HN HA HB HC [Hx0 Hx] [Hy0 Hy].
  apply cdiv_gt in Hx; [|assumption]. apply cdiv_gt in Hy; [|assumption].
  apply main_padded; auto.
Qed.

(** The theorem at a [3 x 3] by [3 x 3] product with tiles of size two. *)
Lemma main_every_K_witness :
  exists stores,
    main 2 3 3 3 (ones 9) (ones 9) (2 * 2) (Vec3 1 0 0) = Some stores
    /\ length stores = Z.to_nat (2 * 2)
    /\ forall l, 0 <= l < 2 * 2 ->
         nth (Z.to_nat l) stores []
         = expected_padded 2 3 3 3 (ones 9) (ones 9) (Vec3 1 0 0) l.
Proof.
  apply (main_every_K 2 3 3 3 (ones 9) (ones 9) (Vec3 1 0 0));
    vm_compute; repeat split; (reflexivity || discriminate).
Defined.

Section Guard.

Context {E : Type} {PE : Precision E}.

Variables T M K N : Z.
Variables A B : Z -> E.
Variable W : Z.
Variable groupID : vec3.

Hypothesis HT : 1 <= T < U32.modulus.
Hypothesis HK : 0 <= K < U32.modulus.

Lemma accumulate_returns_any s lane :
  exists total, accumulate T s lane = Some total.
Proof.
  destruct lane as [l total]. unfold accumulate. eexists.
  apply (for_loop_unit T _
           (fun k total => fadd total (Matmul2.tile_term T s l k)));
    try lia.
  reflexivity.
Qed.

Lemma tile_step_returns tile st :
  exists st', tile_step T K A B W groupID tile st = Some st'.
Proof.
  unfold tile_step.
  destruct (opt_map_inv
              (accumulate T
                 (fold_left (load T K A B groupID tile) (lanes W) (fst st)))
              (combine (lanes W) (snd st))) as (ys & Eys & _).
  { intros lane _. apply accumulate_returns_any. }
  rewrite Eys. eauto.
Qed.

Lemma finish_guarded lane :
  (length (finish T M N groupID lane) <= 1)%nat
  /\ Forall (fun st : Z * E => 0 <= fst st < M * N)
            (finish T M N groupID lane).
Proof.
  destruct lane as [l total]. unfold finish.
  destruct (Z.leb_spec M (row T groupID l)) as [|Hr]; cbn [orb];
    [split; [simpl; lia | constructor]|].
  destruct (Z.leb_spec N (col T groupID l)) as [|Hc];
    [split; [simpl; lia | constructor]|].
  split; [simpl; lia|]. constructor; [|constructor]. cbn [fst].
  assert (Hr0 : 0 <= row T groupID l)
    by (unfold row; apply u32_wrap_range).
  assert (Hc0 : 0 <= col T groupID l)
    by (unfold col; apply u32_wrap_range).
  unfold U32.add, U32.mul.
  pose proof (u32_wrap_le (row T groupID l * N) ltac:(nia)) as H1.
  pose proof (u32_wrap_le (U32.wrap (row T groupID l * N) + col T groupID l)
                ltac:(lia)) as H2.
  nia.
Qed.

Lemma main_guarded :
  exists stores,
    main T M K N A B W groupID = Some stores
    /\ Forall (fun ss : list (Z * E) =>
                 (length ss <= 1)%nat
                 /\ Forall (fun st => 0 <= fst st < M * N) ss)
              stores.
Proof.
  unfold main, for_loop.
  assert (Hb : 0 <= (K + T - 1) / T < U32.modulus).
  { split; [apply Z.div_pos; lia|].
    apply Z.div_lt_upper_bound; nia. }
  destruct (for_fuel_inv (fun _ : shared E * list E => True)
              ((K + T - 1) / T) incr (tile_step T K A B W groupID) 0)
    with (fuel := S (Z.to_nat ((K + T - 1) / T - 0))) (k := 0)
         (s := ({| As := zeros (T * T); Bs := zeros (T * T) |},
                (zeros W : list E)))
    as ([sf totals] & Eloop & _); try lia; try exact I.
  - intros k s _ _. destruct (tile_step_returns k s) as [st' Est].
    eauto.
  - intros k Hk. unfold incr. rewrite u32_add_small; [lia|].
    unfold U32.in_range. lia.
  - rewrite Eloop. eexists. split; [reflexivity|].
    apply Forall_forall. intros ss Hin. apply in_map_iff in Hin.
    destruct Hin as (lane & <- & _). apply finish_guarded.
Qed.

End Guard.

(** X2.  The tiled kernel never stores outside [C], and no invocation
    stores more than once: for every [K], every workgroup, whatever its
    size and position, every store is to an index below [M * N]. *)
Theorem main_stores_in_extent {E : Type} {PE : Precision E} (T M K N : Z)
    (A B : Z -> E) (W : Z) (groupID : vec3) :
  1 <= T < U32.modulus -> 0 <= K < U32.modulus ->
  exists stores,
    main T M K N A B W groupID = Some stores
    /\ Forall (fun ss : list (Z * E) =>
                 (length ss <= 1)%nat
                 /\ Forall (fun st => 0 <= fst st < M * N) ss)
              stores.
Proof. intros HT HK. now apply main_guarded. Qed.

(** The theorem at the last workgroup of the tiny test of [main()], whose
    [K] and [N] are no multiples of the tile size. *)
Lemma main_stores_in_extent_witness :
  exists stores,
    main 16 16 4 8 (ones 64) (ones 32) 256 (Vec3 0 0 0) = Some stores
    /\ Forall (fun ss : list (Z * spec_float) =>
                 (length ss <= 1)%nat
                 /\ Forall (fun st => 0 <= fst st < 16 * 8) ss)
              stores.
Proof.
  apply (main_stores_in_extent 16 16 4 8 (ones 64) (ones 32) 256 (Vec3 0 0 0));
    unfold U32.modulus; lia.
Defined.

(** X3.  The loads of the tiled kernel on its fast path.  [load] reads
    [A] at [a_index] and [B] at [b_index]; when the tile size divides
    [M], [N] and [K], these lie within the extents of [A] and [B] for
    every tile, every invocation and every workgroup of the grid. *)
Theorem load_in_extent {E : Type} {PE : Precision E} (T M K N : Z)
    (A B : Z -> E) (groupID : vec3) (tile l : Z) :
  1 <= T -> T * T < U32.modulus ->
  1 <= M -> 1 <= K -> 1 <= N ->
  M mod T = 0 -> N mod T = 0 -> K mod T = 0 ->
  M * K < U32.modulus -> N * K < U32.modulus ->
  0 <= vx groupID < cdiv M T -> 0 <= vy groupID < cdiv N T ->
  0 <= tile < cdiv K T -> 0 <= l < T * T ->
  (forall s,
     load T K A B groupID tile s l
     = {| As := arr_set (As s) (idxA T l) (A (a_index T K groupID tile l));
          Bs := arr_set (Bs s) (idxB T l) (B (b_index T K groupID tile l)) |})
  /\ 0 <= a_index T K groupID tile l < M * K
  /\ 0 <= b_index T K groupID tile l < N * K.
Proof.
  intros HT HW HM HK HN HMT HNT HKT HA HB [Hx0 Hx] [Hy0 Hy] [Ht0 Ht] Hl.
  split; [reflexivity|].
  apply cdiv_gt in Hx; [|assumption]. apply cdiv_gt in Hy; [|assumption].
  apply cdiv_gt in Ht; [|assumption].
  destruct (lane_split T l HT Hl) as (Hq & Hr & _).
  pose proof (Z.div_mod M T ltac:(lia)) as EM.
  pose proof (Z.div_mod N T ltac:(lia)) as EN.
  pose proof (Z.div_mod K T ltac:(lia)) as EK.
  rewrite HMT in EM. rewrite HNT in EN. rewrite HKT in EK.
  assert (HxT : vx groupID * T + T <= M).
  { assert (vx groupID < M / T) by nia. nia. }
  assert (HyT : vy groupID * T + T <= N).
  { assert (vy groupID < N / T) by nia. nia. }
  assert (HtT : tile * T + T <= K).
  { assert (tile < K / T) by nia. nia. }
  clear EM EN EK.
  unfold a_index, b_index, aRow, bRow, loadRow, loadCol.
  assert (1 * M <= K * M) by (apply Z.mul_le_mono_nonneg_r; lia).
  assert (1 * N <= K * N) by (apply Z.mul_le_mono_nonneg_r; lia).
  assert (0 <= vx groupID * T) by (apply Z.mul_nonneg_nonneg; lia).
  assert (0 <= vy groupID * T) by (apply Z.mul_nonneg_nonneg; lia).
  assert (0 <= tile * T) by (apply Z.mul_nonneg_nonneg; lia).
  assert ((vx groupID * T + l / T) * K <= (M - 1) * K)
    by (apply Z.mul_le_mono_nonneg_r; lia).
  assert ((vy groupID * T + l mod T) * K <= (N - 1) * K)
    by (apply Z.mul_le_mono_nonneg_r; lia).
  assert (0 <= (vx groupID * T + l / T) * K)
    by (apply Z.mul_nonneg_nonneg; lia).
  assert (0 <= (vy groupID * T + l mod T) * K)
    by (apply Z.mul_nonneg_nonneg; lia).
  rewrite (u32_mul_small (vx groupID) T)
    by (unfold U32.in_range, U32.modulus in *; lia).
  rewrite (u32_mul_small (vy groupID) T)
    by (unfold U32.in_range, U32.modulus in *; lia).
  rewrite (u32_mul_small tile T)
    by (unfold U32.in_range, U32.modulus in *; lia).
  rewrite !(u32_add_small (tile * T))
    by (unfold U32.in_range, U32.modulus in *; lia).
  rewrite (u32_add_small (vx groupID * T))
    by (unfold U32.in_range, U32.modulus in *; lia).
  rewrite (u32_add_small (vy groupID * T))
    by (unfold U32.in_range, U32.modulus in *; lia).
  rewrite !u32_mul_small by (unfold U32.in_range, U32.modulus in *; lia).
  rewrite !u32_add_small by (unfold U32.in_range, U32.modulus in *; lia).
  lia.
Qed.

Lemma load_in_extent_witness :
  (forall s,
     load 2 4 (ones 16) (ones 16) (Vec3 1 1 0) 1 s 3
     = {| As := arr_set (As s) (idxA 2 3)
                  (ones 16 (a_index 2 4 (Vec3 1 1 0) 1 3));
          Bs := arr_set (Bs s) (idxB 2 3)
                  (ones 16 (b_index 2 4 (Vec3 1 1 0) 1 3)) |})
  /\ 0 <= a_index 2 4 (Vec3 1 1 0) 1 3 < 4 * 4
  /\ 0 <= b_index 2 4 (Vec3 1 1 0) 1 3 < 4 * 4.
Proof.
  apply (load_in_extent 2 4 4 4 (ones 16) (ones 16) (Vec3 1 1 0) 1 3);
    vm_compute; repeat split; (reflexivity || discriminate).
Defined.

(** X4.  Off the fast path the tiled kernel reads beyond the buffers:
    when the tile size does not divide [M], the last invocation of the
    last row of workgroups reads [A] at or beyond [M * K]; when it does
    not divide [N], the last invocation of the last column of workgroups
    reads [B] at or beyond [N * K]. *)
Theorem load_beyond_extent (T M K N : Z) :
  1 <= T -> T * T < U32.modulus ->
  1 <= M -> 1 <= K -> 1 <= N ->
  (M + T) * K + T <= U32.modulus -> (N + T) * K + T <= U32.modulus ->
  (M mod T <> 0 ->
   0 <= cdiv M T - 1 < cdiv M T
   /\ M * K <= a_index T K (Vec3 (cdiv M T - 1) 0 0) 0 (T * T - 1))
  /\ (N mod T <> 0 ->
      0 <= cdiv N T - 1 < cdiv N T
      /\ N * K <= b_index T K (Vec3 0 (cdiv N T - 1) 0) 0 (T * T - 1)).
Proof.
  intros HT HW HM HK HN HA HB.
  assert (Hl : 0 <= T * T - 1 < T * T) by nia.
  destruct (div_mod_pair T (T - 1) (T - 1) ltac:(lia)) as [Eq Er].
  replace ((T - 1) * T + (T - 1)) with (T * T - 1) in Eq, Er by lia.
  assert (Hceil : forall n, 1 <= n -> n mod T <> 0 ->
                  n + 1 <= cdiv n T * T < n + T /\ 1 <= cdiv n T).
  { intros n Hn Hmod. destruct (cdiv_bounds n T HT ltac:(lia)) as [Hb Hc].
    assert (cdiv n T * T <> n).
    { intros Heq. apply Hmod. rewrite <- Heq. apply Z.mod_mul. lia. }
    nia. }
  split; intros Hmod.
  - destruct (Hceil M HM Hmod) as [Hb Hc]. split; [lia|].
    unfold a_index, aRow, loadRow, loadCol. cbn [vx]. rewrite Eq, Er.
    rewrite (u32_mul_small (cdiv M T - 1) T)
      by (unfold U32.in_range, U32.modulus in *; nia).
    rewrite (u32_mul_small 0 T)
      by (unfold U32.in_range, U32.modulus in *; nia).
    rewrite (u32_add_small (0 * T))
      by (unfold U32.in_range, U32.modulus in *; nia).
    rewrite (u32_add_small ((cdiv M T - 1) * T))
      by (unfold U32.in_range, U32.modulus in *; nia).
    assert (((cdiv M T - 1) * T + (T - 1)) * K <= (M + T) * K) by nia.
    rewrite u32_mul_small by (unfold U32.in_range, U32.modulus in *; nia).
    rewrite u32_add_small by (unfold U32.in_range, U32.modulus in *; nia).
    nia.
  - destruct (Hceil N HN Hmod) as [Hb Hc]. split; [lia|].
    unfold b_index, bRow, loadRow, loadCol. cbn [vy]. rewrite Eq, Er.
    rewrite (u32_mul_small (cdiv N T - 1) T)
      by (unfold U32.in_range, U32.modulus in *; nia).
    rewrite (u32_mul_small 0 T)
      by (unfold U32.in_range, U32.modulus in *; nia).
    rewrite (u32_add_small (0 * T))
      by (unfold U32.in_range, U32.modulus in *; nia).
    rewrite (u32_add_small ((cdiv N T - 1) * T))
      by (unfold U32.in_range, U32.modulus in *; nia).
    assert (((cdiv N T - 1) * T + (T - 1)) * K <= (N + T) * K) by nia.
    rewrite u32_mul_small by (unfold U32.in_range, U32.modulus in *; nia).
    rewrite u32_add_small by (unfold U32.in_range, U32.modulus in *; nia).
    nia.
Qed.

Lemma load_beyond_extent_witness :
  (17 mod 16 <> 0 ->
   0 <= cdiv 17 16 - 1 < cdiv 17 16
   /\ 17 * 4 <= a_index 16 4 (Vec3 (cdiv 17 16 - 1) 0 0) 0 (16 * 16 - 1))
  /\ (8 mod 16 <> 0 ->
      0 <= cdiv 8 16 - 1 < cdiv 8 16
      /\ 8 * 4 <= b_index 16 4 (Vec3 0 (cdiv 8 16 - 1) 0) 0 (16 * 16 - 1)).
Proof.
  apply (load_beyond_extent 16 17 4 8); unfold U32.modulus; lia.
Defined.

End Matmul2More.

(** ** Variant 1: accesses, the empty inner dimension, the grid *)

(** A loop that also appends to a log runs as the loop without the log,
    and keeps what every step keeps of the log. *)
Lemma for_fuel_logged {St L : Type} (P : L -> Prop) (bound : Z)
    (next : Z -> Z) (g : Z -> St -> St) (e : Z -> L -> L) :
  (forall k t, P t -> P (e k t)) ->
  forall fuel k s t,
    P t ->
    match
      for_fuel fuel bound next
        (fun k (st : St * L) => Some (g k (fst st), e k (snd st))) k (s, t)
    with
    | Some (s', t') =>
        for_fuel fuel bound next (fun k s => Some (g k s)) k s = Some s'
        /\ P t'
    | None => for_fuel fuel bound next (fun k s => Some (g k s)) k s = None
    end.
Proof.
  intros He. induction fuel as [|fuel IH]; intros k s t Ht; cbn [for_fuel];
    [reflexivity|].
  destruct (k <? bound); [|auto]. cbn [fst snd]. apply IH. now apply He.
Qed.

Lemma fold_left_pair {St L X : Type} (g : X -> St -> St) (e : X -> list L)
    (l : list X) : forall s t,
  fold_left (fun (st : St * list L) x => (g x (fst st), snd st ++ e x)) l (s, t)
  = (fold_left (fun s x => g x s) l s, t ++ flat_map e l).
Proof.
  induction l as [|x l IH]; intros s t; cbn [fold_left flat_map fst snd].
  - now rewrite app_nil_r.
  - rewrite IH, <- app_assoc. reflexivity.
Qed.

Module Matmul1More.

Import Matmul1Log.

(** The instrumented kernel is the kernel: for all dimensions and every
    invocation, the stores in the log of [Matmul1Log.main] are the stores
    of [Matmul1.main], and the one returns when the other does. *)
Lemma main_log_stores {E : Type} {PE : Precision E} (M K N : Z)
    (A B : Z -> E) (globalID : vec3) :
  option_map stores (main M K N A B globalID)
  = Matmul1.main M K N A B globalID.
Proof.
  unfold main, Matmul1.main.
  destruct ((M <=? vx globalID) || (N <=? vy globalID)); [reflexivity|].
  unfold for_loop.
  set (row := vx globalID). set (col := vy globalID).
  pose proof (for_fuel_logged (fun log : list (access E) => stores log = [])
                K incr
                (fun k total =>
                   fadd total
                     (fmul (A (U32.add (U32.mul row K) k))
                           (B (U32.add (U32.mul col K) k))))
                (fun k (log : list (access E)) =>
                   log ++ [ReadA (U32.add (U32.mul row K) k);
                           ReadB (U32.add (U32.mul col K) k)])) as Hsim.
  cbv beta in Hsim.
  specialize (Hsim ltac:(intros k t Ht; unfold stores in *;
                         rewrite flat_map_app, Ht; reflexivity)
                (S (Z.to_nat (K - 1))) 1
                (fmul (A (U32.mul row K)) (B (U32.mul col K)))
                [ReadA (U32.mul row K); ReadB (U32.mul col K)] eq_refl).
  match type of Hsim with
  | match ?x with _ => _ end => destruct x as [[total log]|]
  end.
  - destruct Hsim as [-> Hlog]. cbn [option_map]. f_equal. unfold stores in *.
    rewrite flat_map_app, Hlog. reflexivity.
  - rewrite Hsim. reflexivity.
Qed.

Section InRange.

Context {E : Type} {PE : Precision E}.

Variables M K N : Z.
Variables A B : Z -> E.
Variable globalID : vec3.

Hypothesis HM : 1 <= M.
Hypothesis HK : 1 <= K.
Hypothesis HN : 1 <= N.
Hypothesis HA : M * K < U32.modulus.
Hypothesis HB : N * K < U32.modulus.
Hypothesis HC : M * N < U32.modulus.

Let row := vx globalID.
Let col := vy globalID.

Hypothesis Hrow : 0 <= row < M.
Hypothesis Hcol : 0 <= col < N.

Lemma main_log_eq :
  main M K N A B globalID
  = Some (flat_map (loads K row col) (zseq 0 (Z.to_nat K))
          ++ [WriteC (row * N + col) (dot1 A B K row col)]).
Proof.
  unfold main. fold row col.
  assert (Hguard : (M <=? row) || (N <=? col) = false).
  { apply orb_false_iff. split; apply Z.leb_gt; lia. }
  rewrite Hguard.
  assert (HrK : U32.mul row K = row * K).
  { apply u32_mul_small. unfold U32.in_range. nia. }
  assert (HcK : U32.mul col K = col * K).
  { apply u32_mul_small. unfold U32.in_range. nia. }
  assert (HrN : U32.mul row N = row * N).
  { apply u32_mul_small. unfold U32.in_range. nia. }
  rewrite HrK, HcK, HrN.
  rewrite (for_loop_unit K _
             (fun k (st : E * list (access E)) =>
                (fadd (fst st) (term A B K row col k),
                 snd st ++ loads K row col k)));
    [ | nia | lia | ].
  - rewrite (fold_left_pair
               (fun k total => fadd total (term A B K row col k))
               (loads K row col)).
    rewrite u32_add_small by (unfold U32.in_range; nia).
    replace (Z.to_nat K) with (S (Z.to_nat (K - 1))) by lia.
    cbn [zseq flat_map]. unfold loads at 2, dot1, sum_from, term.
    rewrite !Z.add_0_r. cbn [app]. reflexivity.
  - intros k s Hk. unfold term, loads.
    rewrite !u32_add_small by (unfold U32.in_range; nia). reflexivity.
Qed.

Lemma main_log_in_extent :
  forallb (Matmul3.in_extent M K N)
    (flat_map (loads K row col) (zseq 0 (Z.to_nat K))
     ++ [WriteC (row * N + col) (dot1 A B K row col)]) = true.
Proof.
  apply forallb_forall. intros a Ha. apply in_app_or in Ha.
  destruct Ha as [Ha|[<-|[]]].
  - apply in_flat_map in Ha. destruct Ha as (k & Hk & Ha).
    apply in_zseq in Hk.
    destruct Ha as [<-|[<-|[]]]; cbn [Matmul3.in_extent];
      apply andb_true_iff; split; try apply Z.leb_le; try apply Z.ltb_lt; nia.
  - cbn [Matmul3.in_extent].
    apply andb_true_iff; split; try apply Z.leb_le; try apply Z.ltb_lt; nia.
Qed.

End InRange.

(** X5.  The accesses of the naive kernel.  For all [M, K, N >= 1] whose
    buffers are addressable, an invocation with [row < M] and [col < N]
    loads, for [k] from 0 to [K - 1] in this order, [A[row * K + k]] and
    [B[col * K + k]], and then stores the inner product to
    [C[row * N + col]]: [2 * K] loads and one store, all within the
    extents of the three buffers.  The stores of the log are the stores
    of the kernel of C3. *)
Theorem main_accesses {E : Type} {PE : Precision E} (M K N : Z)
    (A B : Z -> E) (globalID : vec3) :
  1 <= M -> 1 <= K -> 1 <= N ->
  M * K < U32.modulus -> N * K < U32.modulus -> M * N < U32.modulus ->
  0 <= vx globalID < M -> 0 <= vy globalID < N ->
  let row := vx globalID in
  let col := vy globalID in
  exists log,
    main M K N A B globalID = Some log
    /\ log = flat_map (loads K row col) (zseq 0 (Z.to_nat K))
             ++ [WriteC (row * N + col) (dot1 A B K row col)]
    /\ length log = Z.to_nat (2 * K + 1)
    /\ forallb (Matmul3.in_extent M K N) log = true
    /\ Matmul1.main M K N A B globalID = Some (stores log).
Proof.
  intros HM HK HN HA HB HC Hr Hc row col.
  eexists. split; [apply main_log_eq; assumption|].
  split; [reflexivity|]. split; [|split].
  - rewrite length_app, (flat_map_constant_length (c := 2%nat)), zseq_length
      by reflexivity.
    cbn [length]. lia.
  - apply main_log_in_extent; assumption.
  - rewrite <- main_log_stores, main_log_eq by assumption. reflexivity.
Qed.

(** The theorem at an invocation of a [2 x 3] by [3 x 2] product. *)
Lemma main_accesses_witness :
  exists log,
    main 2 3 2 (ones 6) (ones 6) (Vec3 1 0 0) = Some log
    /\ log = flat_map (loads 3 1 0) (zseq 0 (Z.to_nat 3))
             ++ [WriteC (1 * 2 + 0) (dot1 (ones 6) (ones 6) 3 1 0)]
    /\ length log = Z.to_nat (2 * 3 + 1)
    /\ forallb (Matmul3.in_extent 2 3 2) log = true
    /\ Matmul1.main 2 3 2 (ones 6) (ones 6) (Vec3 1 0 0) = Some (stores log).
Proof.
  apply (main_accesses 2 3 2 (ones 6) (ones 6) (Vec3 1 0 0));
    cbn [vx vy]; unfold U32.modulus; lia.
Defined.

(** X6.  The empty inner dimension.  With [K = 0] the buffers [A] and
    [B] are empty, and yet every invocation with [row < M] and
    [col < N] loads [A[0]] and [B[0]], both beyond the extents, and
    stores their product to [C[row * N + col]]: the first product is
    formed before the loop tests [k] against [K]. *)
Theorem main_K_zero {E : Type} {PE : Precision E} (M N : Z)
    (A B : Z -> E) (globalID : vec3) :
  M * N < U32.modulus ->
  0 <= vx globalID < M -> 0 <= vy globalID < N ->
  main M 0 N A B globalID
  = Some [ReadA 0; ReadB 0;
          WriteC (vx globalID * N + vy globalID) (fmul (A 0) (B 0))]
  /\ Matmul3.in_extent M 0 N (ReadA 0 : access E) = false
  /\ Matmul3.in_extent M 0 N (ReadB 0 : access E) = false
  /\ Matmul1.main M 0 N A B globalID
     = Some [(vx globalID * N + vy globalID, fmul (A 0) (B 0))].
Proof.
  intros HC Hr Hc.
  assert (Emain : main M 0 N A B globalID
                  = Some [ReadA 0; ReadB 0;
                          WriteC (vx globalID * N + vy globalID)
                                 (fmul (A 0) (B 0))]).
  { unfold main.
    assert (Hguard : (M <=? vx globalID) || (N <=? vy globalID) = false).
    { apply orb_false_iff. split; apply Z.leb_gt; lia. }
    rewrite Hguard.
    rewrite !(u32_mul_small _ 0)
      by (unfold U32.in_range, U32.modulus; lia).
    rewrite !Z.mul_0_r.
    rewrite u32_mul_small by (unfold U32.in_range; nia).
    rewrite u32_add_small by (unfold U32.in_range; nia).
    reflexivity. }
  split; [exact Emain|].
  split; [cbn [Matmul3.in_extent]; rewrite Z.mul_0_r; reflexivity|].
  split; [cbn [Matmul3.in_extent]; rewrite Z.mul_0_r; reflexivity|].
  rewrite <- main_log_stores, Emain. reflexivity.
Qed.

Lemma main_K_zero_witness :
  main 2 0 2 (ones 0) (ones 0) (Vec3 1 1 0)
  = Some [ReadA 0; ReadB 0;
          WriteC (1 * 2 + 1) (fmul (ones 0 0) (ones 0 0))]
  /\ Matmul3.in_extent 2 0 2 (ReadA 0 : access spec_float) = false
  /\ Matmul3.in_extent 2 0 2 (ReadB 0 : access spec_float) = false
  /\ Matmul1.main 2 0 2 (ones 0) (ones 0) (Vec3 1 1 0)
     = Some [(1 * 2 + 1, fmul (ones 0 0) (ones 0 0))].
Proof.
  apply (main_K_zero 2 2 (ones 0) (ones 0) (Vec3 1 1 0));
    cbn [vx vy]; unfold U32.modulus; lia.
Defined.

End Matmul1More.

(** ** The dispatch grids of versions 1 and 2 *)

Module GridFacts.

Lemma index_inj (N r c i j : Z) :
  0 <= c < N -> 0 <= j < N -> r * N + c = i * N + j -> r = i /\ c = j.
Proof.
  intros Hc Hj Heq.
  destruct (div_mod_pair N r c Hc) as [Eq1 Em1].
  destruct (div_mod_pair N i j Hj) as [Eq2 Em2].
  rewrite Heq in Eq1, Em1. split; congruence.
Qed.

(** The store of an invocation of the naive kernel within the extents. *)
Lemma naive_in_range {E : Type} {PE : Precision E} (M K N : Z)
    (A B : Z -> E) (globalID : vec3) :
  1 <= M -> 1 <= K -> 1 <= N ->
  M * K < U32.modulus -> N * K < U32.modulus -> M * N < U32.modulus ->
  0 <= vx globalID < M -> 0 <= vy globalID < N ->
  Matmul1.main M K N A B globalID
  = Some [(vx globalID * N + vy globalID,
           dot1 A B K (vx globalID) (vy globalID))].
Proof.
  intros HM HK HN HA HB HC Hr Hc.
  rewrite <- Matmul1More.main_log_stores, Matmul1More.main_log_eq
    by assumption.
  cbn [option_map]. unfold stores. rewrite flat_map_app.
  cbn [flat_map app].
  replace (flat_map _ (flat_map _ _)) with (@nil (Z * E)); [reflexivity|].
  symmetry. induction (zseq 0 (Z.to_nat K)) as [|k ks IH]; [reflexivity|].
  cbn [flat_map Matmul1Log.loads app]. exact IH.
Qed.

Lemma naive_out_of_range {E : Type} {PE : Precision E} (M K N : Z)
    (A B : Z -> E) (globalID : vec3) :
  M <= vx globalID \/ N <= vy globalID ->
  Matmul1.main M K N A B globalID = Some [].
Proof.
  intros Hout. unfold Matmul1.main.
  assert (Hguard : (M <=? vx globalID) || (N <=? vy globalID) = true).
  { apply orb_true_iff. destruct Hout; [left|right]; now apply Z.leb_le. }
  now rewrite Hguard.
Qed.

(** X7.  The grid of version 1.  For all [M, K, N >= 1] whose buffers
    are addressable and every element [(i, j)] of [C]: the grid
    [runTest] dispatches has a workgroup, and its [16 x 16] shape an
    invocation, whose global id is [(i, j)]; that invocation stores the
    inner product to [C[i * N + j]]; and no other invocation, of this
    grid or beyond, stores to [C[i * N + j]]. *)
Theorem runTest_naive_grid {E : Type} {PE : Precision E} (M K N : Z)
    (A B : Z -> E) (i j : Z) :
  1 <= K ->
  M * K < U32.modulus -> N * K < U32.modulus -> M * N < U32.modulus ->
  0 <= i < M -> 0 <= j < N ->
  let grid := RunTest.nWorkgroups1 M N in
  let wx := nth 0 RunTest.wgSize1 0 in
  let wy := nth 1 RunTest.wgSize1 0 in
  (exists groupID localID,
     (0 <= vx groupID < nth 0 grid 0 /\ 0 <= vy groupID < nth 1 grid 0)
     /\ (0 <= vx localID < wx /\ 0 <= vy localID < wy)
     /\ vx groupID * wx + vx localID = i
     /\ vy groupID * wy + vy localID = j)
  /\ Matmul1.main M K N A B (Vec3 i j 0)
     = Some [(i * N + j, dot1 A B K i j)]
  /\ forall globalID stores v,
       0 <= vx globalID -> 0 <= vy globalID ->
       Matmul1.main M K N A B globalID = Some stores ->
       In (i * N + j, v) stores ->
       vx globalID = i /\ vy globalID = j.
Proof.
  intros HK HA HB HC Hi Hj grid wx wy.
  assert (Hgrid : grid = [cdiv M 16; cdiv N 16; cdiv 1 1]) by reflexivity.
  assert (Hwx : wx = 16) by reflexivity.
  assert (Hwy : wy = 16) by reflexivity.
  rewrite Hgrid, Hwx, Hwy. cbn [nth]. clear grid wx wy Hgrid Hwx Hwy.
  pose proof (Z.div_mod i 16 ltac:(lia)) as Ei.
  pose proof (Z.div_mod j 16 ltac:(lia)) as Ej.
  pose proof (Z.mod_pos_bound i 16 ltac:(lia)) as Hmi.
  pose proof (Z.mod_pos_bound j 16 ltac:(lia)) as Hmj.
  assert (0 <= i / 16) by (apply Z.div_pos; lia).
  assert (0 <= j / 16) by (apply Z.div_pos; lia).
  split; [|split].
  - exists (Vec3 (i / 16) (j / 16) 0), (Vec3 (i mod 16) (j mod 16) 0).
    cbn [vx vy].
    repeat split; try lia; apply cdiv_gt; lia.
  - apply (naive_in_range M K N A B (Vec3 i j 0)); cbn [vx vy]; lia.
  - intros globalID stores v Hx Hy Emain Hin.
    destruct (Z_lt_le_dec (vx globalID) M) as [Hr|Hr];
      [destruct (Z_lt_le_dec (vy globalID) N) as [Hc|Hc]|].
    + rewrite naive_in_range in Emain by lia.
      injection Emain as <-. destruct Hin as [Hin|[]].
      injection Hin as Hidx _. symmetry in Hidx.
      destruct (index_inj N i j (vx globalID) (vy globalID)); auto; lia.
    + rewrite naive_out_of_range in Emain by (right; assumption).
      injection Emain as <-. destruct Hin.
    + rewrite naive_out_of_range in Emain by (left; assumption).
      injection Emain as <-. destruct Hin.
Qed.

(** The theorem at element [(17, 3)] of a [20 x 5] product. *)
Lemma runTest_naive_grid_witness :
  let grid := RunTest.nWorkgroups1 20 5 in
  let wx := nth 0 RunTest.wgSize1 0 in
  let wy := nth 1 RunTest.wgSize1 0 in
  (exists groupID localID,
     (0 <= vx groupID < nth 0 grid 0 /\ 0 <= vy groupID < nth 1 grid 0)
     /\ (0 <= vx localID < wx /\ 0 <= vy localID < wy)
     /\ vx groupID * wx + vx localID = 17
     /\ vy groupID * wy + vy localID = 3)
  /\ Matmul1.main 20 7 5 (ones 140) (ones 35) (Vec3 17 3 0)
     = Some [(17 * 5 + 3, dot1 (ones 140) (ones 35) 7 17 3)]
  /\ forall globalID stores v,
       0 <= vx globalID -> 0 <= vy globalID ->
       Matmul1.main 20 7 5 (ones 140) (ones 35) globalID = Some stores ->
       In (17 * 5 + 3, v) stores ->
       vx globalID = 17 /\ vy globalID = 3.
Proof.
  apply (runTest_naive_grid 20 7 5 (ones 140) (ones 35) 17 3);
    unfold U32.modulus; lia.
Defined.

(** X8.  The grid of version 2.  The tile size [createMatmul2] derives
    from the workgroup shape of [runTest] is the tile size [runTest]
    sizes the grid with.  For all [M, K, N >= 1] whose buffers are
    addressable and every element [(i, j)] of [C], the grid has the
    workgroup of the tile that holds the element, and the invocation
    responsible for it stores to [C[i * N + j]] the products of row [i]
    of [A] and row [j] of [B] added up from zero over the whole tiles:
    for [k] from 0 up to the next multiple of 16 at or after [K]. *)
Theorem runTest_tiled_grid {E : Type} {PE : Precision E} (M K N : Z)
    (A B : Z -> E) (i j : Z) :
  1 <= K ->
  M * K + RunTest.tileSize <= U32.modulus ->
  N * K + RunTest.tileSize <= U32.modulus ->
  M * N < U32.modulus ->
  0 <= i < M -> 0 <= j < N ->
  let grid := RunTest.nWorkgroups2 M N in
  let W := nth 0 RunTest.wgSize2 0 in
  let T := tileSize_of RunTest.wgSize2 in
  T = RunTest.tileSize
  /\ exists groupID l stores,
       (0 <= vx groupID < nth 0 grid 0 /\ 0 <= vy groupID < nth 1 grid 0)
       /\ 0 <= l < W
       /\ Matmul2.main T M K N A B W groupID = Some stores
       /\ nth (Z.to_nat l) stores []
          = [(i * N + j, Matmul2Index.dot0_padded T K A B i j)].
Proof.
  intros HK HA HB HC Hi Hj grid W T.
  assert (Hgrid : grid = [cdiv M 16; cdiv N 16; cdiv 1 1]) by reflexivity.
  assert (HW : W = 16 * 16) by reflexivity.
  assert (HT : T = 16) by reflexivity.
  assert (HTS : RunTest.tileSize = 16) by reflexivity.
  rewrite Hgrid, HW, HT, HTS in *. cbn [nth].
  clear grid W T Hgrid HW HT HTS.
  split; [reflexivity|].
  pose proof (Z.div_mod i 16 ltac:(lia)) as Ei.
  pose proof (Z.div_mod j 16 ltac:(lia)) as Ej.
  pose proof (Z.mod_pos_bound i 16 ltac:(lia)) as Hmi.
  pose proof (Z.mod_pos_bound j 16 ltac:(lia)) as Hmj.
  assert (0 <= i / 16) by (apply Z.div_pos; lia).
  assert (0 <= j / 16) by (apply Z.div_pos; lia).
  set (groupID := Vec3 (i / 16) (j / 16) 0).
  set (l := i mod 16 * 16 + j mod 16).
  destruct (Matmul2More.main_padded 16 M K N A B groupID)
    as (stores & Emain & _ & Hnth);
    try (unfold U32.modulus in *; cbn [groupID vx vy]; lia).
  exists groupID, l, stores.
  split; [cbn [groupID vx vy]; repeat split; try lia; apply cdiv_gt; lia|].
  split; [unfold l; lia|]. split; [exact Emain|].
  rewrite Hnth by (unfold l; lia).
  unfold Matmul2Index.expected_padded, Matmul2.out_row, Matmul2.out_col.
  cbn [groupID vx vy].
  destruct (div_mod_pair 16 (i mod 16) (j mod 16) Hmj) as [Eq Em].
  fold l in Eq, Em. rewrite Eq, Em.
  replace (i / 16 * 16 + i mod 16) with i by lia.
  replace (j / 16 * 16 + j mod 16) with j by lia.
  destruct (Z.ltb_spec i M); [|lia]. destruct (Z.ltb_spec j N); [|lia].
  reflexivity.
Qed.

(** The theorem at element [(17, 3)] of a [20 x 5] product. *)
Lemma runTest_tiled_grid_witness :
  let grid := RunTest.nWorkgroups2 20 5 in
  let W := nth 0 RunTest.wgSize2 0 in
  let T := tileSize_of RunTest.wgSize2 in
  T = RunTest.tileSize
  /\ exists groupID l stores,
       (0 <= vx groupID < nth 0 grid 0 /\ 0 <= vy groupID < nth 1 grid 0)
       /\ 0 <= l < W
       /\ Matmul2.main T 20 7 5 (ones 140) (ones 35) W groupID = Some stores
       /\ nth (Z.to_nat l) stores []
          = [(17 * 5 + 3,
              Matmul2Index.dot0_padded T 7 (ones 140) (ones 35) 17 3)].
Proof.
  apply (runTest_tiled_grid 20 7 5 (ones 140) (ones 35) 17 3);
    unfold RunTest.tileSize, U32.modulus; lia.
Defined.

End GridFacts.

(** ** Variant 3 when the blocks divide the dimensions *)

Lemma combine_zseq {X : Type} (d : X) (n : nat) : forall (l : list X) start,
  length l = n ->
  combine (zseq start n) l
  = map (fun i => (i, nth (Z.to_nat (i - start)) l d)) (zseq start n).
Proof.
  induction n as [|n IH]; intros l start Hl; [reflexivity|].
  destruct l as [|x l]; [discriminate|].
  cbn [zseq combine map]. rewrite Z.sub_diag. cbn [Z.to_nat nth].
  f_equal. rewrite (IH l (start + 1)) by (simpl in Hl; lia).
  apply map_ext_in. intros i Hi. apply in_zseq in Hi.
  replace (Z.to_nat (i - start)) with (S (Z.to_nat (i - (start + 1))))
    by lia.
  reflexivity.
Qed.

(** A loop whose index advances by [step] runs its body once for each
    multiple of [step] below the bound. *)
Lemma for_fuel_stride {St : Type} (P : Z -> St -> Prop) (bound step : Z)
    (body : Z -> St -> option St) :
  1 <= step -> 0 <= bound -> bound + step <= 2 ^ 31 ->
  (forall n s, 0 <= n -> n * step < bound -> P n s ->
               exists s', body (n * step) s = Some s' /\ P (n + 1) s') ->
  forall fuel n s,
    0 <= n -> (n - 1) * step < bound -> P n s ->
    (Z.to_nat (bound - n * step) < fuel)%nat ->
    exists n' s',
      for_fuel fuel bound (fun k => I32.add k step) body (n * step) s
      = Some s'
      /\ P n' s' /\ (n' - 1) * step < bound <= n' * step.
Proof.
  intros Hstep Hb Hb31 Hbody.
  induction fuel as [|fuel IH]; intros n s Hn Hprev Hs Hf; [lia|].
  cbn [for_fuel]. destruct (Z.ltb_spec (n * step) bound) as [Hlt|Hge].
  - destruct (Hbody n s Hn Hlt Hs) as (s' & Es & Hs'). rewrite Es.
    rewrite i32_add_small by nia.
    replace (n * step + step) with ((n + 1) * step) by lia.
    apply IH; try assumption; try lia; nia.
  - exists n, s. repeat split; try assumption; lia.
Qed.

Lemma stride_next (n step bound : Z) :
  1 <= step -> bound mod step = 0 -> 0 <= n -> n * step < bound ->
  (n + 1) * step <= bound.
Proof.
  intros Hs Hd Hn Hlt.
  pose proof (Z.div_mod bound step ltac:(lia)) as E. rewrite Hd in E.
  assert (n < bound / step) by nia. nia.
Qed.

Lemma stride_end (n step bound : Z) :
  1 <= step -> bound mod step = 0 ->
  (n - 1) * step < bound <= n * step -> bound / step = n.
Proof.
  intros Hs Hd Hn.
  pose proof (Z.div_mod bound step ltac:(lia)) as E. rewrite Hd in E.
  nia.
Qed.

Section Updates.

Context {E : Type} {PE : Precision E}.

(** A loop that updates each element of an array once. *)
Lemma fold_update_get (f : Z -> E -> E) (n : nat) : forall start r res,
  0 <= start -> start + Z.of_nat n <= Z.of_nat (length r) -> 0 <= res ->
  length (fold_left (fun r x => arr_set r x (f x (arr_get r x)))
            (zseq start n) r) = length r
  /\ arr_get (fold_left (fun r x => arr_set r x (f x (arr_get r x)))
                (zseq start n) r) res
     = if (start <=? res) && (res <? start + Z.of_nat n)
       then f res (arr_get r res) else arr_get r res.
Proof.
  induction n as [|n IH]; intros start r res Hs Hlen Hres.
  - cbn [zseq fold_left]. split; [reflexivity|].
    destruct (Z.leb_spec start res), (Z.ltb_spec res (start + Z.of_nat 0));
      cbn [andb]; try reflexivity; lia.
  - cbn [zseq fold_left].
    destruct (IH (start + 1) (arr_set r start (f start (arr_get r start))) res)
      as [Hl Hg]; try lia.
    { rewrite arr_set_length. lia. }
    rewrite Hl, Hg, arr_set_length. split; [reflexivity|].
    destruct (Z.eq_dec start res) as [->|Hne].
    + rewrite arr_get_set_same by lia.
      destruct (Z.leb_spec (res + 1) res),
               (Z.ltb_spec res (res + 1 + Z.of_nat n)),
               (Z.leb_spec res res),
               (Z.ltb_spec res (res + Z.of_nat (S n)));
        cbn [andb]; try reflexivity; lia.
    + rewrite arr_get_set_other by lia.
      destruct (Z.leb_spec (start + 1) res),
               (Z.ltb_spec res (start + 1 + Z.of_nat n)),
               (Z.leb_spec start res),
               (Z.ltb_spec res (start + Z.of_nat (S n)));
        cbn [andb]; try reflexivity; lia.
Qed.

(** A loop of such loops adds up, element by element. *)
Lemma fold_fold_update (p : Z -> Z -> E) (TM : Z) (ds : list Z) :
  forall r res,
    length r = Z.to_nat TM -> 0 <= res < TM ->
    length (fold_left
              (fun r d =>
                 fold_left
                   (fun r x => arr_set r x (fadd (arr_get r x) (p x d)))
                   (zseq 0 (Z.to_nat TM)) r)
              ds r) = Z.to_nat TM
    /\ arr_get (fold_left
                  (fun r d =>
                     fold_left
                       (fun r x => arr_set r x (fadd (arr_get r x) (p x d)))
                       (zseq 0 (Z.to_nat TM)) r)
                  ds r) res
       = fold_left (fun a d => fadd a (p res d)) ds (arr_get r res).
Proof.
  induction ds as [|d ds IH]; intros r res Hlen Hres; cbn [fold_left].
  - auto.
  - destruct (fold_update_get (fun x v => fadd v (p x d)) (Z.to_nat TM)
                0 r res) as [Hl Hg]; try lia.
    destruct (IH (fold_left
                    (fun r x => arr_set r x (fadd (arr_get r x) (p x d)))
                    (zseq 0 (Z.to_nat TM)) r) res) as [Hl' Hg'];
      try lia.
    split; [exact Hl'|]. rewrite Hg', Hg.
    destruct (Z.leb_spec 0 res), (Z.ltb_spec res (0 + Z.of_nat (Z.to_nat TM)));
      cbn [andb]; try reflexivity; lia.
Qed.

End Updates.

Lemma opt_map_nth {X Y : Type} (f : X -> option Y) : forall l ys,
  opt_map f l = Some ys ->
  forall i dx dy, (i < length l)%nat -> f (nth i l dx) = Some (nth i ys dy).
Proof.
  induction l as [|x l IH]; intros ys Hys i dx dy Hi; [simpl in Hi; lia|].
  cbn [opt_map] in Hys. destruct (f x) as [y|] eqn:Ex; [|discriminate].
  destruct (opt_map f l) as [ys'|] eqn:El; [|discriminate].
  injection Hys as <-. destruct i as [|i]; [exact Ex|].
  cbn [nth]. apply (IH ys' eq_refl). simpl in Hi. lia.
Qed.

Lemma opt_map_lanes {X Y : Type} (f : Z * X -> option Y) (W : Z)
    (xs : list X) (ys : list Y) (dx : X) (dy : Y) :
  length xs = Z.to_nat W ->
  opt_map f (combine (zseq 0 (Z.to_nat W)) xs) = Some ys ->
  forall lx, 0 <= lx < W ->
    f (lx, nth (Z.to_nat lx) xs dx) = Some (nth (Z.to_nat lx) ys dy).
Proof.
  intros Hlen Hys lx Hl.
  pose proof (opt_map_nth f _ _ Hys (Z.to_nat lx) (0, dx) dy) as H.
  rewrite combine_nth in H by (now rewrite zseq_length).
  rewrite nth_zseq in H by lia.
  replace (0 + Z.of_nat (Z.to_nat lx)) with lx in H by lia.
  apply H. rewrite combine_lanes_length by assumption. lia.
Qed.

Lemma flat_map_ext_in {X Y : Type} (f g : X -> list Y) (l : list X) :
  (forall x, In x l -> f x = g x) -> flat_map f l = flat_map g l.
Proof.
  induction l as [|x l IH]; intros H; [reflexivity|].
  cbn [flat_map]. rewrite H by (left; reflexivity).
  rewrite IH; [reflexivity|]. intros y Hy. apply H. now right.
Qed.

Lemma stores_app {E : Type} (l1 l2 : list (access E)) :
  stores (l1 ++ l2) = stores l1 ++ stores l2.
Proof. apply flat_map_app. Qed.

Lemma stores_reads {E : Type} {X : Type} (a b : X -> Z) (l : list X) :
  stores (flat_map (fun x => [ReadA (a x); ReadB (b x) : access E]) l) = [].
Proof. induction l as [|x l IH]; [reflexivity|]. exact IH. Qed.

Lemma stores_flat_map {E : Type} {X : Type} (h : X -> list (access E))
    (l : list X) :
  stores (flat_map h l) = flat_map (fun x => stores (h x)) l.
Proof.
  induction l as [|x l IH]; [reflexivity|].
  cbn [flat_map]. now rewrite stores_app, IH.
Qed.

Lemma stores_writes {E : Type} {X : Type} (i : X -> Z) (v : X -> E)
    (l : list X) :
  stores (map (fun x => WriteC (i x) (v x)) l) = map (fun x => (i x, v x)) l.
Proof.
  induction l as [|x l IH]; [reflexivity|].
  cbn [map]. change (stores (WriteC (i x) (v x) :: ?t))
    with ((i x, v x) :: stores t). now rewrite IH.
Qed.

Module Matmul3More.

Import Matmul3 Matmul3Index.

Section Phases.

Context {E : Type} {PE : Precision E}.

Variables BM BK BN TM M K N : Z.
Variables A B : Z -> E.
Variable groupID : vec3.

Local Abbreviation load := (Matmul3.load BK K A B).
Local Abbreviation tile_index := (Matmul3Index.tile_index BK).
Local Abbreviation source_index := (Matmul3Index.source_index BK K).

(** The phase of the loads, field by field. *)
Lemma load_fold ls : forall s,
  fold_left load ls s
  = {| tileA := fold_left
                  (fun a lx =>
                     arr_set a (tile_index lx) (A (source_index (aPtr s) lx)))
                  ls (tileA s);
       tileB := fold_left
                  (fun a lx =>
                     arr_set a (tile_index lx) (B (source_index (bPtr s) lx)))
                  ls (tileB s);
       aPtr := aPtr s;
       bPtr := bPtr s;
       threadResults := threadResults s;
       log := log s
              ++ flat_map (fun lx => [ReadA (source_index (aPtr s) lx);
                                      ReadB (source_index (bPtr s) lx)])
                          ls |}.
Proof.
  induction ls as [|lx ls IH]; intros s; cbn [fold_left flat_map].
  - rewrite app_nil_r. now destruct s.
  - rewrite IH. unfold Matmul3.load at 2 4 6 7 8 9.
    cbn [tileA tileB aPtr bPtr threadResults log].
    rewrite <- app_assoc. reflexivity.
Qed.

(** The phase of the accumulation, as sums. *)
Lemma accumulate_sums s lx results res :
  1 <= BK < U32.modulus -> 0 <= TM < U32.modulus ->
  length results = Z.to_nat TM -> 0 <= res < TM ->
  exists results',
    Matmul3.accumulate BM BK BN TM M N groupID s (lx, results)
    = Some results'
    /\ length results' = Z.to_nat TM
    /\ arr_get results' res
       = sum_from (arr_get results res)
           (fun d =>
              fmul
                (fmul (mask BM BN TM M N groupID lx res)
                   (arr_get (tileA s)
                      (U32.add
                         (U32.mul (U32.add (U32.mul (threadRow BN lx) TM) res)
                                  BK) d)))
                (arr_get (tileB s) (U32.add (U32.mul (threadCol BN lx) BK) d)))
           0 (Z.to_nat BK).
Proof.
  intros HBK HTM Hlen Hres. unfold Matmul3.accumulate.
  set (p := fun x d =>
              fmul
                (fmul (mask BM BN TM M N groupID lx x)
                   (arr_get (tileA s)
                      (U32.add
                         (U32.mul (U32.add (U32.mul (threadRow BN lx) TM) x)
                                  BK) d)))
                (arr_get (tileB s) (U32.add (U32.mul (threadCol BN lx) BK) d))).
  eexists. split.
  - apply (for_loop_unit BK _
             (fun d r =>
                fold_left
                  (fun r x => arr_set r x (fadd (arr_get r x) (p x d)))
                  (zseq 0 (Z.to_nat TM)) r)); try lia.
    intros d r _.
    rewrite (for_loop_unit TM _
               (fun x r => arr_set r x (fadd (arr_get r x) (p x d))));
      try lia; [|reflexivity].
    now rewrite Z.sub_0_r.
  - rewrite Z.sub_0_r.
    destruct (fold_fold_update p TM (zseq 0 (Z.to_nat BK)) results res)
      as [Hl Hg]; try assumption.
    split; [exact Hl|]. rewrite Hg. reflexivity.
Qed.

End Phases.

Section Divisible.

Context {E : Type} {PE : Precision E}.

Variables BM BK BN TM M K N : Z.
Variables A B : Z -> E.
Variable groupID : vec3.

Local Abbreviation W := (BM * BK).

Hypothesis HBK : 1 <= BK.
Hypothesis HTM : 1 <= TM.
Hypothesis HBMN : BM = BN.
Hypothesis HBN : BN = BK * TM.
Hypothesis HM : 1 <= M.
Hypothesis HK : 1 <= K.
Hypothesis HN : 1 <= N.
Hypothesis HMd : M mod BM = 0.
Hypothesis HNd : N mod BN = 0.
Hypothesis HKd : K mod BK = 0.
Hypothesis HK31 : K + BK <= 2 ^ 31.
Hypothesis HA : M * K < U32.modulus.
Hypothesis HB : N * K < U32.modulus.
Hypothesis HC : M * N < U32.modulus.
Hypothesis Hgx : 0 <= vx groupID /\ vx groupID * BM < M.
Hypothesis Hgy : 0 <= vy groupID /\ vy groupID * BN < N.

Local Abbreviation load := (Matmul3.load BK K A B).
Local Abbreviation tile_index := (Matmul3Index.tile_index BK).
Local Abbreviation source_index := (Matmul3Index.source_index BK K).
Local Abbreviation chunk_step :=
  (Matmul3.chunk_step BM BK BN TM M K N A B W groupID).
Local Abbreviation inv := (Matmul3Index.inv BM BK BN TM M K N A B W groupID).
Local Abbreviation out_row := (Matmul3Index.out_row BM BN TM groupID).
Local Abbreviation out_col := (Matmul3Index.out_col BN groupID).
Local Abbreviation masked_term := (Matmul3Index.masked_term K A B).
Local Abbreviation gx := (vx groupID).
Local Abbreviation gy := (vy groupID).

Lemma block_facts :
  1 <= BM /\ 1 <= BN /\ BM <= M /\ BN <= N /\ BK <= K
  /\ gx * BM + BM <= M /\ gy * BN + BN <= N
  /\ W < U32.modulus /\ TM < U32.modulus /\ BK < U32.modulus.
Proof.
  assert (H1 : 1 <= BN) by nia.
  assert (H2 : 1 <= BM) by lia.
  pose proof (Z.div_mod M BM ltac:(lia)) as EM. rewrite HMd in EM.
  pose proof (Z.div_mod N BN ltac:(lia)) as EN. rewrite HNd in EN.
  pose proof (Z.div_mod K BK ltac:(lia)) as EK. rewrite HKd in EK.
  assert (H3 : gx * BM + BM <= M).
  { assert (gx < M / BM) by nia. nia. }
  assert (H4 : gy * BN + BN <= N).
  { assert (gy < N / BN) by nia. nia. }
  assert (H5 : BK <= K).
  { assert (0 < K / BK) by nia. nia. }
  assert (H6 : BM <= M) by nia.
  assert (H7 : BN <= N) by nia.
  assert (H8 : BM * BK <= M * K) by nia.
  assert (H9 : TM <= BN) by nia.
  assert (H10 : 1 * N <= K * N) by (apply Z.mul_le_mono_nonneg_r; lia).
  assert (H11 : 1 * K <= M * K) by (apply Z.mul_le_mono_nonneg_r; lia).
  repeat split; try assumption; lia.
Qed.

Lemma lane_facts lx :
  0 <= lx < W ->
  (0 <= lx / BK < BM /\ 0 <= lx mod BK < BK
   /\ lx = lx / BK * BK + lx mod BK)
  /\ (0 <= lx / BN < BK /\ 0 <= lx mod BN < BN
      /\ lx = lx / BN * BN + lx mod BN).
Proof.
  intros Hl. destruct block_facts as (H1 & H2 & _).
  pose proof (Z.div_mod lx BK ltac:(lia)) as E1.
  pose proof (Z.mod_pos_bound lx BK ltac:(lia)) as B1.
  pose proof (Z.div_mod lx BN ltac:(lia)) as E2.
  pose proof (Z.mod_pos_bound lx BN ltac:(lia)) as B2.
  assert (0 <= lx / BK) by (apply Z.div_pos; lia).
  assert (0 <= lx / BN) by (apply Z.div_pos; lia).
  assert (lx / BK < BM) by (apply Z.div_lt_upper_bound; lia).
  assert (lx / BN < BK) by (apply Z.div_lt_upper_bound; nia).
  repeat split; lia.
Qed.

Lemma tile_index_eq lx : 0 <= lx < W -> tile_index lx = lx.
Proof.
  intros Hl. destruct (lane_facts lx Hl) as ((Hq & Hr & Eq) & _).
  destruct block_facts as (_ & _ & _ & _ & _ & _ & _ & HW & _).
  unfold Matmul3Index.tile_index, loadRowA, loadColA.
  rewrite u32_mul_small by (unfold U32.in_range; nia).
  rewrite u32_add_small by (unfold U32.in_range; nia).
  lia.
Qed.

Lemma source_index_A n lx :
  0 <= n -> (n + 1) * BK <= K -> 0 <= lx < W ->
  source_index (gx * BM * K + n * BK) lx
  = (gx * BM + lx / BK) * K + (n * BK + lx mod BK)
  /\ 0 <= (gx * BM + lx / BK) * K + (n * BK + lx mod BK) < M * K.
Proof.
  intros Hn HnK Hl. destruct (lane_facts lx Hl) as ((Hq & Hr & Eq) & _).
  destruct block_facts as (H1 & H2 & _ & _ & _ & Hrows & _).
  assert (Hb : 0 <= (gx * BM + lx / BK) * K + (n * BK + lx mod BK) < M * K).
  { assert ((gx * BM + lx / BK) * K <= (M - 1) * K) by nia. nia. }
  split; [|exact Hb].
  unfold Matmul3Index.source_index, loadRowA, loadColA.
  assert (0 <= lx / BK * K) by nia. assert (0 <= gx * BM * K) by nia.
  rewrite (u32_mul_small (lx / BK) K) by (unfold U32.in_range; nia).
  rewrite (u32_add_small (gx * BM * K + n * BK))
    by (unfold U32.in_range; nia).
  rewrite u32_add_small by (unfold U32.in_range; nia).
  lia.
Qed.

Lemma source_index_B n lx :
  0 <= n -> (n + 1) * BK <= K -> 0 <= lx < W ->
  source_index (gy * BN * K + n * BK) lx
  = (gy * BN + lx / BK) * K + (n * BK + lx mod BK)
  /\ 0 <= (gy * BN + lx / BK) * K + (n * BK + lx mod BK) < N * K.
Proof.
  intros Hn HnK Hl. destruct (lane_facts lx Hl) as ((Hq & Hr & Eq) & _).
  destruct block_facts as (H1 & H2 & _ & _ & _ & _ & Hcols & _).
  assert (Hb : 0 <= (gy * BN + lx / BK) * K + (n * BK + lx mod BK) < N * K).
  { assert ((gy * BN + lx / BK) * K <= (N - 1) * K) by nia. nia. }
  split; [|exact Hb].
  unfold Matmul3Index.source_index, loadRowA, loadColA.
  assert (0 <= lx / BK * K) by nia. assert (0 <= gy * BN * K) by nia.
  rewrite (u32_mul_small (lx / BK) K) by (unfold U32.in_range; nia).
  rewrite (u32_add_small (gy * BN * K + n * BK))
    by (unfold U32.in_range; nia).
  rewrite u32_add_small by (unfold U32.in_range; nia).
  lia.
Qed.

Lemma in_workgroup lx : In lx (lanes W) <-> 0 <= lx < W.
Proof. unfold lanes. rewrite in_zseq. lia. Qed.

(** After the loads every element of a tile holds what its invocation
    loaded. *)
Lemma tile_filled (v : Z -> E) (a : list E) lx :
  length a = Z.to_nat W -> 0 <= lx < W ->
  arr_get (fold_left (fun a l => arr_set a (tile_index l) (v l)) (lanes W) a)
          lx
  = v lx.
Proof.
  intros Hlen Hl. rewrite <- (tile_index_eq lx Hl) at 1.
  apply fold_arr_set_get.
  - intros l1 l2 H1 H2. apply in_workgroup in H1, H2.
    rewrite !tile_index_eq by assumption. auto.
  - intros l' H'. apply in_workgroup in H'. rewrite tile_index_eq by assumption.
    lia.
  - now apply in_workgroup.
  - rewrite tile_index_eq by assumption. lia.
Qed.

Lemma thread_facts lx res :
  0 <= lx < W -> 0 <= res < TM ->
  0 <= lx / BN * TM + res < BM
  /\ 0 <= (lx / BN * TM + res) * BK <= (BM - 1) * BK
  /\ 0 <= lx mod BN * BK <= (BN - 1) * BK.
Proof.
  intros Hl Hr. destruct (lane_facts lx Hl) as (_ & Hq & Hm & _).
  destruct block_facts as (H1 & H2 & _).
  assert (0 <= lx / BN * TM) by nia.
  assert (lx / BN * TM + res < BK * TM).
  { assert (lx / BN * TM <= (BK - 1) * TM) by nia. lia. }
  assert (0 <= lx mod BN * BK) by nia.
  assert (lx mod BN * BK <= (BN - 1) * BK) by nia.
  assert ((lx / BN * TM + res) * BK <= (BM - 1) * BK) by nia.
  repeat split; try lia; nia.
Qed.

Lemma mask_true lx res :
  0 <= lx < W -> 0 <= res < TM ->
  mask BM BN TM M N groupID lx res = of_bool true.
Proof.
  intros Hl Hr. destruct (lane_facts lx Hl) as (_ & Hq & Hm & _).
  destruct (thread_facts lx res Hl Hr) as (Ht & _).
  destruct block_facts as (H1 & H2 & H3 & H4 & _ & Hrows & Hcols & HW & HT & _).
  unfold mask, threadRow, threadCol, cRow, cCol.
  assert (0 <= lx / BN * TM) by nia.
  assert (0 <= gx * BM) by nia. assert (0 <= gy * BN) by nia.
  assert (M < U32.modulus).
  { assert (1 * M <= N * M) by (apply Z.mul_le_mono_nonneg_r; lia). lia. }
  assert (N < U32.modulus).
  { assert (1 * N <= M * N) by (apply Z.mul_le_mono_nonneg_r; lia). lia. }
  rewrite (u32_mul_small (lx / BN) TM) by (unfold U32.in_range; lia).
  rewrite (u32_add_small (lx / BN * TM)) by (unfold U32.in_range; lia).
  rewrite (u32_mul_small gy BN) by (unfold U32.in_range; lia).
  rewrite (u32_mul_small gx BM) by (unfold U32.in_range; lia).
  rewrite (u32_add_small (gy * BN)) by (unfold U32.in_range; lia).
  assert (HBKN : BK * 1 <= BK * TM)
    by (apply Z.mul_le_mono_nonneg_l; lia).
  rewrite (u32_add_small (gx * BM)) by (unfold U32.in_range; lia).
  f_equal. rewrite !andb_true_iff. repeat split; apply Z.ltb_lt; lia.
Qed.

Lemma reads_in_extent n (s : state E) :
  0 <= n -> (n + 1) * BK <= K ->
  aPtr s = gx * BM * K + n * BK -> bPtr s = gy * BN * K + n * BK ->
  forallb (in_extent M K N)
    (flat_map (fun lx => [ReadA (source_index (aPtr s) lx);
                          ReadB (source_index (bPtr s) lx) : access E])
              (lanes W)) = true.
Proof.
  intros Hn HnK Ea Eb. apply forallb_forall. intros a Ha.
  apply in_flat_map in Ha. destruct Ha as (lx & Hl & Ha).
  apply in_workgroup in Hl. rewrite Ea, Eb in Ha.
  destruct (source_index_A n lx Hn HnK Hl) as [EA HAb].
  destruct (source_index_B n lx Hn HnK Hl) as [EB HBb].
  rewrite EA, EB in Ha.
  destruct Ha as [<-|[<-|[]]]; cbn [in_extent];
    apply andb_true_iff; split; try apply Z.leb_le; try apply Z.ltb_lt; lia.
Qed.

(** One chunk of the inner dimension. *)
Lemma chunk_inv n s :
  0 <= n -> n * BK < K -> inv n s ->
  exists s', chunk_step (n * BK) s = Some s' /\ inv (n + 1) s'.
Proof.
  intros Hn HnK (HlA & HlB & Ea & Eb & Hlen & Hres & Hlog & Hst).
  destruct block_facts
    as (H1 & H2 & H3 & H4 & H5 & Hrows & Hcols & HW & HT & HBKm).
  assert (HnK' : (n + 1) * BK <= K) by (apply stride_next; assumption).
  assert (Hn0 : 0 <= n * BK) by (apply Z.mul_nonneg_nonneg; flia).
  assert (Hx0 : 0 <= gx * BM) by (apply Z.mul_nonneg_nonneg; flia).
  assert (Hy0 : 0 <= gy * BN) by (apply Z.mul_nonneg_nonneg; flia).
  assert (Hg0 : 0 <= gx * BM * K) by (apply Z.mul_nonneg_nonneg; flia).
  assert (Hg1 : 0 <= gy * BN * K) by (apply Z.mul_nonneg_nonneg; flia).
  assert (Hg2 : gx * BM * K <= (M - 1) * K)
    by (apply Z.mul_le_mono_nonneg_r; flia).
  assert (Hg3 : gy * BN * K <= (N - 1) * K)
    by (apply Z.mul_le_mono_nonneg_r; flia).
  assert (HBKr : 1 <= BK < U32.modulus) by flia.
  assert (HTMr : 0 <= TM < U32.modulus) by flia.
  unfold Matmul3.chunk_step. rewrite load_fold.
  set (s1 := advance BK _).
  destruct (opt_map_inv
              (Matmul3.accumulate BM BK BN TM M N groupID s1)
              (combine (lanes W) (threadResults s1)))
    as (ys & Eys & Hys).
  { intros lane _. now apply Matmul3Facts.accumulate_returns. }
  rewrite Eys. eexists. split; [reflexivity|].
  assert (Hacc : forall lx, 0 <= lx < W ->
            Matmul3.accumulate BM BK BN TM M N groupID s1
              (lx, nth (Z.to_nat lx) (threadResults s) [])
            = Some (nth (Z.to_nat lx) ys [])).
  { apply (opt_map_lanes _ W (threadResults s) ys [] []);
      [exact Hlen | exact Eys]. }
  unfold Matmul3Index.inv.
  cbn [tileA tileB aPtr bPtr threadResults log s1 advance].
  split; [now rewrite fold_arr_set_length|].
  split; [now rewrite fold_arr_set_length|].
  split.
  { rewrite Ea. rewrite u32_add_small by fits. flia. }
  split.
  { rewrite Eb. rewrite u32_add_small by fits. flia. }
  split.
  { rewrite Hys. now apply combine_lanes_length. }
  split.
  { intros lx Hl. destruct (Hres lx Hl) as [Hl0 Hv]. split.
    - destruct (accumulate_sums BM BK BN TM M N groupID s1 lx
                  (nth (Z.to_nat lx) (threadResults s) []) 0 HBKr HTMr Hl0)
        as (r' & Er & Hlr & _); [flia|].
      rewrite (Hacc lx Hl) in Er. injection Er as <-. exact Hlr.
    - intros res Hr.
      destruct (accumulate_sums BM BK BN TM M N groupID s1 lx
                  (nth (Z.to_nat lx) (threadResults s) []) res HBKr HTMr
                  Hl0 Hr)
        as (r' & Er & _ & Hg).
      rewrite (Hacc lx Hl) in Er. injection Er as <-. rewrite Hg. clear Hg.
      rewrite (Hv res Hr).
      rewrite (to_nat_stride n BK) by (assumption || flia).
      rewrite sum_from_app. rewrite Z2Nat.id by exact Hn0.
      rewrite (sum_from_shift _ (n * BK) (Z.to_nat BK) 0).
      apply sum_from_ext. intros d Hd.
      apply in_range_to_nat in Hd; [|exact HBK].
      destruct (lane_facts lx Hl) as (_ & Hq & Hm & _).
      destruct (thread_facts lx res Hl Hr) as (Ht & HtA & HtB).
      rewrite mask_true by assumption. unfold threadRow, threadCol.
      assert (0 <= lx / BN * TM) by (apply Z.mul_nonneg_nonneg; flia).
      assert (HBMm : BM * 1 <= BM * BK)
        by (apply Z.mul_le_mono_nonneg_l; flia).
      assert (HdA : 0 <= (lx / BN * TM + res) * BK + d < W) by flia.
      assert (HdB : 0 <= lx mod BN * BK + d < W) by flia.
      rewrite (u32_mul_small (lx / BN) TM) by fits.
      rewrite (u32_add_small (lx / BN * TM)) by fits.
      rewrite (u32_mul_small (lx / BN * TM + res) BK) by fits.
      rewrite (u32_mul_small (lx mod BN) BK) by fits.
      rewrite !u32_add_small by fits.
      cbn [tileA tileB s1 advance].
      rewrite !tile_filled by assumption.
      rewrite Ea, Eb.
      destruct (source_index_A n _ Hn HnK' HdA) as [-> _].
      destruct (source_index_B n _ Hn HnK' HdB) as [-> _].
      destruct (div_mod_pair BK (lx / BN * TM + res) d Hd) as [-> ->].
      destruct (div_mod_pair BK (lx mod BN) d Hd) as [-> ->].
      unfold Matmul3Index.masked_term, Matmul3Index.out_row,
        Matmul3Index.out_col.
      now rewrite (Z.add_comm d (n * BK)). }
  split.
  { rewrite forallb_app, Hlog. cbn [andb]. now apply (reads_in_extent n). }
  rewrite stores_app, Hst. apply stores_reads.
Qed.

Lemma init_inv : inv 0 (Matmul3.init BM BK BN TM K W groupID).
Proof.
  destruct block_facts
    as (H1 & H2 & H3 & H4 & H5 & Hrows & Hcols & HW & HT & HBKm).
  unfold Matmul3Index.inv, Matmul3.init, cRow, cCol.
  cbn [tileA tileB aPtr bPtr threadResults log].
  assert (0 <= gx * BM) by nia. assert (0 <= gy * BN) by nia.
  assert (gx * BM * K <= (M - 1) * K)
    by (apply Z.mul_le_mono_nonneg_r; lia).
  assert (gy * BN * K <= (N - 1) * K)
    by (apply Z.mul_le_mono_nonneg_r; lia).
  assert (0 <= gx * BM * K) by nia. assert (0 <= gy * BN * K) by nia.
  assert (1 * M <= N * M) by (apply Z.mul_le_mono_nonneg_r; lia).
  assert (1 * N <= M * N) by (apply Z.mul_le_mono_nonneg_r; lia).
  repeat split.
  - apply zeros_length.
  - rewrite zeros_length. f_equal. rewrite HBMN. lia.
  - rewrite (u32_mul_small gx BM) by (unfold U32.in_range; lia).
    rewrite u32_mul_small by (unfold U32.in_range; lia). lia.
  - rewrite (u32_mul_small gy BN) by (unfold U32.in_range; lia).
    rewrite u32_mul_small by (unfold U32.in_range; lia). lia.
  - apply repeat_length.
  - rewrite nth_repeat_lt by lia. apply zeros_length.
  - intros res Hr. rewrite nth_repeat_lt by lia.
    unfold arr_get, zeros. rewrite nth_repeat. reflexivity.
Qed.

Lemma loop_inv :
  exists s,
    for_loop K (fun bkIdx => I32.add bkIdx BK) chunk_step 0
      (Matmul3.init BM BK BN TM K W groupID) = Some s
    /\ inv (K / BK) s.
Proof.
  unfold for_loop.
  destruct (for_fuel_stride inv K BK chunk_step)
    with (fuel := S (Z.to_nat (K - 0))) (n := 0)
         (s := Matmul3.init BM BK BN TM K W groupID)
    as (n' & s' & Eloop & Hinv & Hn'); try lia.
  - intros n s Hn HnK Hs. now apply chunk_inv.
  - apply init_inv.
  - rewrite Z.mul_0_l in Eloop. exists s'. split; [exact Eloop|].
    rewrite (stride_end n' BK K) by assumption. exact Hinv.
Qed.

Lemma c_index_eq lx res :
  0 <= lx < W -> 0 <= res < TM ->
  c_index BM BN TM N groupID lx res = out_row lx res * N + out_col lx
  /\ 0 <= out_row lx res * N + out_col lx < M * N.
Proof.
  intros Hl Hr. destruct (lane_facts lx Hl) as (_ & Hq & Hm & _).
  destruct (thread_facts lx res Hl Hr) as (Ht & _).
  destruct block_facts
    as (H1 & H2 & H3 & H4 & H5 & Hrows & Hcols & HW & HT & HBKm).
  unfold Matmul3Index.out_row, Matmul3Index.out_col.
  set (r := lx / BN * TM + res) in *. set (c := lx mod BN) in *.
  assert (Hb : 0 <= (gx * BM + r) * N + (gy * BN + c) < M * N).
  { assert (0 <= gx * BM) by nia. assert (0 <= gy * BN) by nia.
    assert (0 <= (gx * BM + r) * N) by nia.
    assert ((gx * BM + r) * N <= (M - 1) * N)
      by (apply Z.mul_le_mono_nonneg_r; lia).
    lia. }
  split; [|exact Hb].
  unfold c_index, cPtr, cRow, cCol, threadRow, threadCol.
  assert (0 <= gx * BM) by nia. assert (0 <= gy * BN) by nia.
  assert (0 <= lx / BN * TM) by nia.
  assert (0 <= gx * BM * N) by nia.
  assert (0 <= r * N) by nia.
  assert ((gx * BM + r) * N = gx * BM * N + r * N) by lia.
  assert (1 * M <= N * M) by (apply Z.mul_le_mono_nonneg_r; lia).
  assert (1 * N <= M * N) by (apply Z.mul_le_mono_nonneg_r; lia).
  rewrite (u32_mul_small gx BM) by (unfold U32.in_range; lia).
  rewrite (u32_mul_small (gx * BM) N) by (unfold U32.in_range; lia).
  rewrite (u32_mul_small gy BN) by (unfold U32.in_range; lia).
  rewrite (u32_add_small (gx * BM * N)) by (unfold U32.in_range; lia).
  rewrite (u32_mul_small (lx / BN) TM) by (unfold U32.in_range; lia).
  rewrite (u32_add_small (lx / BN * TM)) by (unfold U32.in_range; lia).
  fold r c.
  rewrite (u32_mul_small r N) by (unfold U32.in_range; lia).
  rewrite (u32_add_small (gx * BM * N + gy * BN))
    by (unfold U32.in_range; lia).
  rewrite u32_add_small by (unfold U32.in_range; lia).
  lia.
Qed.

Lemma main_blocks :
  exists accesses,
    main BM BK BN TM M K N A B W groupID = Some accesses
    /\ forallb (in_extent M K N) accesses = true
    /\ stores accesses = expected_stores BM BN TM K N A B W groupID.
Proof.
  destruct loop_inv as (s & Eloop & HlA & HlB & Ea & Eb & Hlen & Hres
                          & Hlog & Hst).
  destruct block_facts
    as (H1 & H2 & H3 & H4 & H5 & Hrows & Hcols & HW & HT & HBKm).
  unfold main. rewrite Eloop.
  rewrite (opt_map_some _ (writes BM BN TM N groupID))
    by (intros; apply Matmul3Facts.write_back_eq; lia).
  rewrite <- flat_map_concat_map.
  unfold lanes. rewrite (combine_zseq []) by lia.
  rewrite flat_map_concat_map, map_map, <- flat_map_concat_map.
  eexists. split; [reflexivity|]. split.
  - rewrite forallb_app, Hlog. cbn [andb].
    apply forallb_forall. intros a Ha. apply in_flat_map in Ha.
    destruct Ha as (lx & Hl & Ha). apply in_zseq in Hl.
    unfold writes in Ha. cbn [fst snd] in Ha. apply in_map_iff in Ha.
    destruct Ha as (res & <- & Hr). apply in_zseq in Hr.
    destruct (c_index_eq lx res ltac:(lia) ltac:(lia)) as [-> Hb].
    cbn [in_extent]. apply andb_true_iff.
    split; [apply Z.leb_le|apply Z.ltb_lt]; lia.
  - rewrite stores_app, Hst, stores_flat_map. cbn [app].
    unfold expected_stores. apply flat_map_ext_in. intros lx Hl.
    apply in_zseq in Hl. unfold writes. cbn [fst snd].
    rewrite Z.sub_0_r.
    rewrite (stores_writes
               (fun res => c_index BM BN TM N groupID lx res)
               (fun res => arr_get (nth (Z.to_nat lx) (threadResults s) [])
                                   res)).
    apply map_ext_in. intros res Hr. apply in_zseq in Hr.
    destruct (c_index_eq lx res ltac:(lia) ltac:(lia)) as [-> _].
    destruct (Hres lx ltac:(lia)) as [_ Hv]. rewrite Hv by lia.
    unfold dot_masked. do 3 f_equal.
    pose proof (Z.div_mod K BK ltac:(lia)) as EK. rewrite HKd in EK. lia.
Qed.

End Divisible.

(** X9.  The block-tiled kernel where it is right.  Let the blocks be
    square, [BM = BN = BK * TM], the workgroup have [BM * BN / TM]
    invocations, as [runTest] sizes it, and let [BM], [BN] and [BK]
    divide [M], [N] and [K].  Then every workgroup of the grid returns,
    all its loads and stores lie within the extents of [A], [B] and
    [C], and its stores are, invocation by invocation and accumulator
    by accumulator, the elements of its block of [C]: to
    [C[i * N + j]] the products [1.0 * A[i * K + k] * B[j * K + k]]
    added up from zero for [k] from 0 to [K - 1]. *)
Theorem main_blocks_divide {E : Type} {PE : Precision E}
    (BM BK BN TM M K N : Z) (A B : Z -> E) (W : Z) (groupID : vec3) :
  1 <= BK -> 1 <= TM -> BM = BN -> BN = BK * TM -> W = BM * BN / TM ->
  1 <= M -> 1 <= K -> 1 <= N ->
  M mod BM = 0 -> N mod BN = 0 -> K mod BK = 0 ->
  K + BK <= 2 ^ 31 ->
  M * K < U32.modulus -> N * K < U32.modulus -> M * N < U32.modulus ->
  0 <= vx groupID < cdiv M BM -> 0 <= vy groupID < cdiv N BN ->
  exists accesses,
    main BM BK BN TM M K N A B W groupID = Some accesses
    /\ forallb (in_extent M K N) accesses = true
    /\ stores accesses = expected_stores BM BN TM K N A B W groupID.
Proof.
  intros HBK HTM HBMN HBN HW HM HK HN HMd HNd HKd HK31 HA HB HC
    [Hx0 Hx] [Hy0 Hy].
  assert (H1 : 1 <= BN) by nia.
  apply cdiv_gt in Hx; [|lia]. apply cdiv_gt in Hy; [|lia].
  assert (EW : W = BM * BK).
  { rewrite HW, HBN at 1. rewrite Z.mul_assoc. apply Z.div_mul. lia. }
  rewrite EW. apply main_blocks; auto.
Qed.

(** The theorem at the configuration of [runTest] and the small test of
    [main()]. *)
Lemma main_blocks_divide_witness :
  exists accesses,
    main RunTest.BM RunTest.BK RunTest.BN RunTest.TM 256 128 512
      (ones 32768) (ones 65536) (nth 0 RunTest.wgSize3 0) (Vec3 63 127 0)
    = Some accesses
    /\ forallb (in_extent 256 128 512) accesses = true
    /\ stores accesses
       = expected_stores RunTest.BM RunTest.BN RunTest.TM 128 512
           (ones 32768) (ones 65536) (nth 0 RunTest.wgSize3 0)
           (Vec3 63 127 0).
Proof.
  apply (main_blocks_divide RunTest.BM RunTest.BK RunTest.BN RunTest.TM
           256 128 512 (ones 32768) (ones 65536) (nth 0 RunTest.wgSize3 0)
           (Vec3 63 127 0));
    vm_compute; repeat split; (reflexivity || discriminate).
Defined.

End Matmul3More.

(** ** The three versions together, and the program *)

Section Dots.

Context {E : Type} {PE : Precision E}.

Variables A B : Z -> E.
Variables K i j : Z.

Lemma dot1_dot0 :
  1 <= K ->
  fadd fzero (term A B K i j 0) = term A B K i j 0 ->
  dot1 A B K i j = dot0 A B K i j.
Proof.
  intros HK H0. unfold dot1, dot0, sum_from.
  replace (Z.to_nat K) with (S (Z.to_nat (K - 1))) by lia.
  cbn [zseq fold_left]. rewrite H0. reflexivity.
Qed.

Lemma dot_masked_dot0 :
  (forall k, 0 <= k < K ->
             fmul (of_bool true) (A (i * K + k)) = A (i * K + k)) ->
  Matmul3Index.dot_masked K A B i j = dot0 A B K i j.
Proof.
  intros H1. unfold Matmul3Index.dot_masked, dot0.
  apply sum_from_ext. intros k Hk.
  unfold Matmul3Index.masked_term, term. rewrite H1 by lia. reflexivity.
Qed.

End Dots.

Module ProgramFacts.

(** The block of version 3 that holds element [(i, j)] stores it. *)
Lemma blocks_store {E : Type} {PE : Precision E} (M K N : Z)
    (A B : Z -> E) (i j : Z) :
  0 <= i < M -> 0 <= j < N ->
  In (i * N + j, Matmul3Index.dot_masked K A B i j)
     (Matmul3Index.expected_stores 4 4 1 K N A B 16
        (Vec3 (i / 4) (j / 4) 0)).
Proof.
  intros Hi Hj.
  pose proof (Z.div_mod i 4 ltac:(lia)) as Ei.
  pose proof (Z.div_mod j 4 ltac:(lia)) as Ej.
  pose proof (Z.mod_pos_bound i 4 ltac:(lia)) as Hmi.
  pose proof (Z.mod_pos_bound j 4 ltac:(lia)) as Hmj.
  unfold Matmul3Index.expected_stores. apply in_flat_map.
  exists (i mod 4 * 4 + j mod 4). split; [apply in_zseq; lia|].
  apply in_map_iff. exists 0. split; [|apply in_zseq; lia].
  unfold Matmul3Index.out_row, Matmul3Index.out_col. cbn [vx vy].
  destruct (div_mod_pair 4 (i mod 4) (j mod 4) Hmj) as [-> ->].
  replace (i / 4 * 4 + (i mod 4 * 1 + 0)) with i by lia.
  replace (j / 4 * 4 + j mod 4) with j by lia.
  reflexivity.
Qed.

(** X10.  The three versions agree.  Let [runTest]'s block size of
    version 3 divide [M] and [N] and its tile size of version 2 divide
    [K].  For every element [(i, j)] of [C] whose first product is not
    changed by adding it to zero, and whose elements of [A] are not
    changed by the multiplication with the mask [1.0], the three
    kernels store the same value to [C[i * N + j]]: version 1 in the
    invocation [(i, j)], versions 2 and 3 in a workgroup of the grid
    [runTest] dispatches. *)
Theorem runTest_versions_agree {E : Type} {PE : Precision E} (M K N : Z)
    (A B : Z -> E) (i j : Z) :
  1 <= K ->
  M mod RunTest.BM = 0 -> N mod RunTest.BN = 0 ->
  K mod RunTest.tileSize = 0 ->
  K + RunTest.BK <= 2 ^ 31 ->
  M * K + RunTest.tileSize <= U32.modulus ->
  N * K + RunTest.tileSize <= U32.modulus ->
  M * N < U32.modulus ->
  0 <= i < M -> 0 <= j < N ->
  fadd fzero (term A B K i j 0) = term A B K i j 0 ->
  (forall k, 0 <= k < K ->
             fmul (of_bool true) (A (i * K + k)) = A (i * K + k)) ->
  exists v,
    Matmul1.main M K N A B (Vec3 i j 0) = Some [(i * N + j, v)]
    /\ (exists groupID l stores,
          (0 <= vx groupID < nth 0 (RunTest.nWorkgroups2 M N) 0
           /\ 0 <= vy groupID < nth 1 (RunTest.nWorkgroups2 M N) 0)
          /\ 0 <= l < nth 0 RunTest.wgSize2 0
          /\ Matmul2.main (tileSize_of RunTest.wgSize2) M K N A B
               (nth 0 RunTest.wgSize2 0) groupID = Some stores
          /\ nth (Z.to_nat l) stores [] = [(i * N + j, v)])
    /\ (exists groupID accesses,
          (0 <= vx groupID < nth 0 (RunTest.nWorkgroups3 M N) 0
           /\ 0 <= vy groupID < nth 1 (RunTest.nWorkgroups3 M N) 0)
          /\ Matmul3.main RunTest.BM RunTest.BK RunTest.BN RunTest.TM
               M K N A B (nth 0 RunTest.wgSize3 0) groupID = Some accesses
          /\ In (i * N + j, v) (stores accesses)).
Proof.
  intros HK HMd HNd HKd HK31 HA HB HC Hi Hj H0 H1.
  change RunTest.BM with 4 in *. change RunTest.BN with 4 in *.
  change RunTest.BK with 4 in *. change RunTest.TM with 1 in *.
  change RunTest.tileSize with 16 in *.
  change (tileSize_of RunTest.wgSize2) with 16.
  change (nth 0 RunTest.wgSize2 0) with (16 * 16).
  change (nth 0 RunTest.wgSize3 0) with (4 * 4).
  change (RunTest.nWorkgroups2 M N) with [cdiv M 16; cdiv N 16; cdiv 1 1].
  change (RunTest.nWorkgroups3 M N) with [cdiv (cdiv M 4) 1; cdiv N 4; 1].
  cbn [nth].
  assert (Hc1 : cdiv (cdiv M 4) 1 = cdiv M 4).
  { unfold cdiv at 1. rewrite Z.div_1_r. lia. }
  rewrite Hc1.
  pose proof (Z.div_mod i 16 ltac:(lia)) as Ei.
  pose proof (Z.div_mod j 16 ltac:(lia)) as Ej.
  pose proof (Z.mod_pos_bound i 16 ltac:(lia)) as Hmi.
  pose proof (Z.mod_pos_bound j 16 ltac:(lia)) as Hmj.
  pose proof (Z.div_mod i 4 ltac:(lia)) as Ei4.
  pose proof (Z.div_mod j 4 ltac:(lia)) as Ej4.
  pose proof (Z.mod_pos_bound i 4 ltac:(lia)) as Hmi4.
  pose proof (Z.mod_pos_bound j 4 ltac:(lia)) as Hmj4.
  assert (0 <= i / 16) by (apply Z.div_pos; lia).
  assert (0 <= j / 16) by (apply Z.div_pos; lia).
  assert (0 <= i / 4) by (apply Z.div_pos; lia).
  assert (0 <= j / 4) by (apply Z.div_pos; lia).
  pose proof (Z.div_mod K 16 ltac:(lia)) as EK. rewrite HKd in EK.
  assert (HKd4 : K mod 4 = 0).
  { rewrite EK, Z.add_0_r.
    replace (16 * (K / 16)) with (4 * (K / 16) * 4) by lia.
    apply Z.mod_mul. lia. }
  assert (HMK : 1 * K <= M * K) by (apply Z.mul_le_mono_nonneg_r; lia).
  assert (HNK : 1 * K <= N * K) by (apply Z.mul_le_mono_nonneg_r; lia).
  exists (dot0 A B K i j). split; [|split].
  - rewrite <- dot1_dot0 by assumption.
    apply (GridFacts.naive_in_range M K N A B (Vec3 i j 0));
      cbn [vx vy]; unfold U32.modulus in *; lia.
  - set (groupID := Vec3 (i / 16) (j / 16) 0).
    set (l := i mod 16 * 16 + j mod 16).
    destruct (Matmul2More.main_padded 16 M K N A B groupID)
      as (stores & Emain & _ & Hnth);
      try (unfold U32.modulus in *; cbn [groupID vx vy]; lia).
    exists groupID, l, stores.
    split; [cbn [groupID vx vy]; repeat split; try lia; apply cdiv_gt; lia|].
    split; [unfold l; lia|]. split; [exact Emain|].
    rewrite Hnth by (unfold l; lia).
    unfold Matmul2Index.expected_padded, Matmul2.out_row, Matmul2.out_col.
    cbn [groupID vx vy].
    destruct (div_mod_pair 16 (i mod 16) (j mod 16) Hmj) as [Eq Em].
    fold l in Eq, Em. rewrite Eq, Em.
    replace (i / 16 * 16 + i mod 16) with i by lia.
    replace (j / 16 * 16 + j mod 16) with j by lia.
    destruct (Z.ltb_spec i M); [|lia]. destruct (Z.ltb_spec j N); [|lia].
    cbn [andb]. unfold Matmul2Index.dot0_padded, dot0.
    replace (cdiv K 16 * 16) with K; [reflexivity|].
    unfold cdiv. rewrite EK at 2.
    replace (16 * (K / 16) + 0 + 16 - 1) with (K / 16 * 16 + 15) by lia.
    destruct (div_mod_pair 16 (K / 16) 15 ltac:(lia)) as [-> _]. lia.
  - set (groupID := Vec3 (i / 4) (j / 4) 0).
    destruct (Matmul3More.main_blocks 4 4 4 1 M K N A B groupID)
      as (accesses & Emain & _ & Hst);
      try (unfold U32.modulus in *; cbn [groupID vx vy]; lia).
    exists groupID, accesses.
    split; [cbn [groupID vx vy]; repeat split; try lia; apply cdiv_gt; lia|].
    split; [exact Emain|].
    rewrite Hst, <- (dot_masked_dot0 A B K i j H1).
    now apply (blocks_store M).
Qed.

Lemma ones_masked (extent idx : Z) :
  fmul (of_bool true) (ones extent idx) = ones extent idx.
Proof.
  unfold ones. destruct ((0 <=? idx) && (idx <? extent)); reflexivity.
Qed.

(** The theorem at element [(5, 2)] of a [8 x 16] by [16 x 4] product
    in binary32. *)
Lemma runTest_versions_agree_witness :
  exists v,
    Matmul1.main 8 16 4 (ones 128) (ones 64) (Vec3 5 2 0)
    = Some [(5 * 4 + 2, v)]
    /\ (exists groupID l stores,
          (0 <= vx groupID < nth 0 (RunTest.nWorkgroups2 8 4) 0
           /\ 0 <= vy groupID < nth 1 (RunTest.nWorkgroups2 8 4) 0)
          /\ 0 <= l < nth 0 RunTest.wgSize2 0
          /\ Matmul2.main (tileSize_of RunTest.wgSize2) 8 16 4
               (ones 128) (ones 64) (nth 0 RunTest.wgSize2 0) groupID
             = Some stores
          /\ nth (Z.to_nat l) stores [] = [(5 * 4 + 2, v)])
    /\ (exists groupID accesses,
          (0 <= vx groupID < nth 0 (RunTest.nWorkgroups3 8 4) 0
           /\ 0 <= vy groupID < nth 1 (RunTest.nWorkgroups3 8 4) 0)
          /\ Matmul3.main RunTest.BM RunTest.BK RunTest.BN RunTest.TM
               8 16 4 (ones 128) (ones 64) (nth 0 RunTest.wgSize3 0) groupID
             = Some accesses
          /\ In (5 * 4 + 2, v) (stores accesses)).
Proof.
  apply (runTest_versions_agree 8 16 4 (ones 128) (ones 64) 5 2);
    try reflexivity;
    try (intros k _; apply ones_masked);
    unfold RunTest.BK, RunTest.tileSize, U32.modulus; lia.
Defined.

(** X11.  The program.  For each of the three test sizes of [main], and
    the version [main] runs, every workgroup of the grid [runTest]
    dispatches returns, keeps all its loads and stores within the three
    buffers, and stores the elements of its block of [C] as the contract
    of the kernels has them, whatever the inputs. *)
Theorem main_test_sizes {E : Type} {PE : Precision E} (kTestSize : Z)
    (A B : Z -> E) (groupID : vec3) :
  let '(M, K, N) := Main.dims kTestSize in
  0 <= vx groupID < nth 0 (RunTest.nWorkgroups3 M N) 0 ->
  0 <= vy groupID < nth 1 (RunTest.nWorkgroups3 M N) 0 ->
  Main.version = 3
  /\ exists accesses,
       Matmul3.main RunTest.BM RunTest.BK RunTest.BN RunTest.TM M K N A B
         (nth 0 RunTest.wgSize3 0) groupID = Some accesses
       /\ forallb (Matmul3.in_extent M K N) accesses = true
       /\ stores accesses
          = Matmul3Index.expected_stores RunTest.BM RunTest.BN RunTest.TM
              K N A B (nth 0 RunTest.wgSize3 0) groupID.
Proof.
  unfold Main.dims.
  change RunTest.BM with 4. change RunTest.BN with 4.
  change RunTest.BK with 4. change RunTest.TM with 1.
  change (nth 0 RunTest.wgSize3 0) with (4 * 4).
  destruct (kTestSize =? 0); [|destruct (kTestSize =? 1)];
    intros Hx Hy; (split; [reflexivity|]);
    apply Matmul3More.main_blocks;
    try reflexivity; try (vm_compute; discriminate);
    match type of Hx with
    | _ <= _ < ?g => let t := eval vm_compute in g in change g with t in Hx
    end;
    match type of Hy with
    | _ <= _ < ?g => let t := eval vm_compute in g in change g with t in Hy
    end;
    lia.
Qed.

(** The theorem at the test size [main] is compiled with. *)
Lemma main_test_sizes_witness :
  Main.version = 3
  /\ exists accesses,
       Matmul3.main RunTest.BM RunTest.BK RunTest.BN RunTest.TM 256 128 512
         (ones 32768) (ones 65536) (nth 0 RunTest.wgSize3 0) (Vec3 0 0 0)
       = Some accesses
       /\ forallb (Matmul3.in_extent 256 128 512) accesses = true
       /\ stores accesses
          = Matmul3Index.expected_stores RunTest.BM RunTest.BN RunTest.TM
              128 512 (ones 32768) (ones 65536) (nth 0 RunTest.wgSize3 0)
              (Vec3 0 0 0).
Proof.
  apply (main_test_sizes Main.kTestSize (ones 32768) (ones 65536)
           (Vec3 0 0 0));
    vm_compute; split; (reflexivity || discriminate).
Defined.

End ProgramFacts.

(** ** The generators on their templates *)

Module PiecesFacts.

Import Pieces.

Section Passes.

Local Open Scope string_scope.

Lemma no_open_brace_shape (shape : Shape) :
  no_open_brace (toString_shape shape) = true.
Proof.
  induction shape as [|n shape IH]; [reflexivity|].
  destruct shape as [|n' shape]; [apply no_open_brace_size|].
  change (toString_shape (n :: n' :: shape))
    with (toString_size n ++ ", " ++ toString_shape (n' :: shape)).
  rewrite !no_open_brace_app, no_open_brace_size, IH. reflexivity.
Qed.

Lemma no_open_brace_nth (vals : list string) (i : nat) :
  Forall (fun v => no_open_brace v = true) vals ->
  no_open_brace (nth i vals "") = true.
Proof.
  intros H. revert i. induction H as [|v vals Hv _ IH]; intros [|i];
    try reflexivity; [exact Hv | apply IH].
Qed.

Lemma flatten_closed (vals : list string) (ps : list piece) :
  forallb no_val ps = true -> flatten vals ps = flatten [] ps.
Proof.
  induction ps as [|p ps IH]; intros H; [reflexivity|].
  cbn [forallb] in H. apply andb_true_iff in H. destruct H as [Hp Hps].
  cbn [flatten fold_right]. fold (flatten vals ps). fold (flatten [] ps).
  rewrite IH by assumption. destruct p; try reflexivity. discriminate Hp.
Qed.

(** A pass of [replaceAll] on the text of pieces is the pass on the
    pieces. *)
Lemma pass_ok (from' : string) (i : nat) (vals : list string)
    (ps : list piece) :
  Forall (fun v => no_open_brace v = true) vals ->
  forallb (okb (String "{" from')) ps = true ->
  replace_from (String "{" from') (nth i vals "") 0 (flatten vals ps)
  = flatten vals (pass (String "{" from') i ps).
Proof.
  intros Hvals. induction ps as [|p ps IH]; intros H; [reflexivity|].
  cbn [forallb] in H. apply andb_true_iff in H. destruct H as [Hp Hps].
  cbn [flatten fold_right pass map]. fold (flatten vals ps).
  fold (pass (String "{" from') i ps).
  fold (flatten vals (pass (String "{" from') i ps)).
  destruct p as [s|name|j]; cbn [okb piece_text] in *.
  - rewrite replace_from_keeps by assumption. now rewrite IH.
  - destruct (String.eqb name (String "{" from')) eqn:Ename.
    + apply String.eqb_eq in Ename. subst name. cbn [piece_text].
      rewrite replace_from_hit. now rewrite IH.
    + cbn [orb] in Hp. cbn [piece_text].
      rewrite replace_from_keeps by assumption. now rewrite IH.
  - rewrite replace_from_no_brace by now apply no_open_brace_nth.
    now rewrite IH.
Qed.

(** The passes of [replaceAll], one name after the other. *)
Lemma run_ok (all : list (string * string)) :
  Forall (fun v => no_open_brace v = true) (map snd all) ->
  forall rest pre ps ps',
    all = (pre ++ rest)%list ->
    run (length pre) (map fst rest) ps = Some ps' ->
    replaceAll (flatten (map snd all) ps) rest
    = flatten (map snd all) ps'.
Proof.
  intros Hvals. induction rest as [|[from to] rest IH];
    intros pre ps ps' Hall Hrun.
  - cbn [map run] in Hrun. injection Hrun as <-. reflexivity.
  - cbn [map run fst] in Hrun.
    destruct from as [|c from']; [discriminate|].
    cbn [opens_with_brace] in Hrun.
    destruct (Ascii.eqb c "{") eqn:Ec; [|discriminate].
    apply Ascii.eqb_eq in Ec. subst c.
    destruct (forallb (okb (String "{" from')) ps) eqn:Hok; [|discriminate].
    cbn [andb] in Hrun.
    unfold replaceAll. cbn [fold_left fst snd].
    assert (Hto : nth (length pre) (map snd all) "" = to).
    { rewrite Hall, map_app, app_nth2 by (rewrite length_map; lia).
      rewrite length_map, Nat.sub_diag. reflexivity. }
    rewrite <- Hto at 1. rewrite pass_ok by assumption.
    apply (IH (pre ++ [(String "{" from', to)])%list).
    + rewrite <- app_assoc. exact Hall.
    + rewrite length_app, Nat.add_1_r. exact Hrun.
Qed.

(** The generators on a template whose split passes the checks. *)
Lemma render_ok (template : string) (reps : list (string * string))
    (ps' : list piece) :
  Forall (fun v => no_open_brace v = true) (map snd reps) ->
  forallb no_val (split (map fst reps) template) = true ->
  flatten [] (split (map fst reps) template) = template ->
  run 0 (map fst reps) (split (map fst reps) template) = Some ps' ->
  replaceAll template reps = flatten (map snd reps) ps'.
Proof.
  intros Hvals Hnv Hsplit Hrun.
  rewrite <- Hsplit at 1.
  rewrite <- (flatten_closed (map snd reps)) by assumption.
  now apply (run_ok reps Hvals reps []).
Qed.

End Passes.

Lemma values_brace_free (wgSize : Shape) (precision : NumType)
    (sizes : list Z) :
  Forall (fun v => no_open_brace v = true)
    (toString_shape wgSize :: toString_precision precision
     :: map toString_size sizes).
Proof.
  constructor; [apply no_open_brace_shape|].
  constructor; [now destruct precision|].
  induction sizes as [|n sizes IH]; constructor;
    [apply no_open_brace_size | exact IH].
Qed.

(** X12.  [createMatmul1] on the template of the naive kernel.  For all
    dimensions, workgroup shapes and precisions, the generated source is
    the template with every placeholder replaced by the value of its
    name and nothing else changed: the text between the placeholders is
    kept, no placeholder is left, and no value is scanned again.  The
    workgroup shape is passed on. *)
Theorem createMatmul1_renders (M K N : Z) (wgSize : Shape)
    (precision : NumType) :
  let vals := [toString_shape wgSize; toString_precision precision;
               toString_size M; toString_size K; toString_size N] in
  let code := createMatmul1 kShaderMatmul1 M K N wgSize precision in
  data code = flatten vals (map (fill names1) (split names1 kShaderMatmul1))
  /\ flatten [] (split names1 kShaderMatmul1) = kShaderMatmul1
  /\ filled (map (fill names1) (split names1 kShaderMatmul1)) = true
  /\ workgroupSize code = wgSize.
Proof.
  intros vals code. split; [|repeat split; vm_compute; reflexivity].
  unfold code, createMatmul1. cbn [data].
  apply (render_ok kShaderMatmul1
           [("{{workgroupSize}}", toString_shape wgSize);
            ("{{precision}}", toString_precision precision);
            ("{{M}}", toString_size M);
            ("{{K}}", toString_size K);
            ("{{N}}", toString_size N)]%string).
  - apply (values_brace_free wgSize precision [M; K; N]).
  - vm_compute. reflexivity.
  - vm_compute. reflexivity.
  - vm_compute. reflexivity.
Qed.

(** X13.  [createMatmul2] on the template of the tiled kernel: the
    generated source is the template with every placeholder replaced by
    the value of its name, [{{tileSize}}] by the square root of the
    first extent of the workgroup shape, taken in [double] and cut to an
    integer; no placeholder is left. *)
Theorem createMatmul2_renders (M K N : Z) (wgSize : Shape)
    (precision : NumType) :
  let vals := [toString_shape wgSize; toString_precision precision;
               toString_size M; toString_size K; toString_size N;
               toString_size (tileSize_of wgSize)] in
  let code := createMatmul2 kShaderMatmul2 M K N wgSize precision in
  data code = flatten vals (map (fill names2) (split names2 kShaderMatmul2))
  /\ flatten [] (split names2 kShaderMatmul2) = kShaderMatmul2
  /\ filled (map (fill names2) (split names2 kShaderMatmul2)) = true
  /\ workgroupSize code = wgSize.
Proof.
  intros vals code. split; [|repeat split; vm_compute; reflexivity].
  unfold code, createMatmul2. cbn [data].
  apply (render_ok kShaderMatmul2
           [("{{workgroupSize}}", toString_shape wgSize);
            ("{{precision}}", toString_precision precision);
            ("{{M}}", toString_size M);
            ("{{K}}", toString_size K);
            ("{{N}}", toString_size N);
            ("{{tileSize}}", toString_size (tileSize_of wgSize))]%string).
  - apply (values_brace_free wgSize precision [M; K; N; tileSize_of wgSize]).
  - vm_compute. reflexivity.
  - vm_compute. reflexivity.
  - vm_compute. reflexivity.
Qed.

(** X14.  [createMatmul3] on the template of the block-tiled kernel:
    the generated source is the template with every placeholder
    replaced by the value of its name, the four block parameters
    included; the pass for [{{M}}] leaves [{{BM}}] and [{{TM}}] to
    theirs; no placeholder is left. *)
Theorem createMatmul3_renders (M K N BM BK BN TM : Z) (wgSize : Shape)
    (precision : NumType) :
  let vals := [toString_shape wgSize; toString_precision precision;
               toString_size M; toString_size K; toString_size N;
               toString_size BM; toString_size BK; toString_size BN;
               toString_size TM] in
  let code :=
    createMatmul3 kShaderMatmul3 M K N BM BK BN TM wgSize precision in
  data code = flatten vals (map (fill names3) (split names3 kShaderMatmul3))
  /\ flatten [] (split names3 kShaderMatmul3) = kShaderMatmul3
  /\ filled (map (fill names3) (split names3 kShaderMatmul3)) = true
  /\ workgroupSize code = wgSize.
Proof.
  intros vals code. split; [|repeat split; vm_compute; reflexivity].
  unfold code, createMatmul3. cbn [data].
  apply (render_ok kShaderMatmul3
           [("{{workgroupSize}}", toString_shape wgSize);
            ("{{precision}}", toString_precision precision);
            ("{{M}}", toString_size M);
            ("{{K}}", toString_size K);
            ("{{N}}", toString_size N);
            ("{{BM}}", toString_size BM);
            ("{{BK}}", toString_size BK);
            ("{{BN}}", toString_size BN);
            ("{{TM}}", toString_size TM)]%string).
  - apply (values_brace_free wgSize precision [M; K; N; BM; BK; BN; TM]).
  - vm_compute. reflexivity.
  - vm_compute. reflexivity.
  - vm_compute. reflexivity.
Qed.

End PiecesFacts.

(** ** Variant 3 with tiles larger than the workgroup *)

Lemma fold_arr_set_other {E : Type} {PE : Precision E} (idx : Z -> Z)
    (val : Z -> E) (j : Z) (ls : list Z) : forall a,
  0 <= j ->
  (forall l, In l ls -> 0 <= idx l /\ idx l <> j) ->
  arr_get (fold_left (fun a l => arr_set a (idx l) (val l)) ls a) j
  = arr_get a j.
Proof.
  induction ls as [|x ls IH]; intros a Hj Hls; [reflexivity|].
  cbn [fold_left]. rewrite IH by (auto using in_cons).
  destruct (Hls x (in_eq _ _)) as [H0 Hne].
  apply arr_get_set_other; assumption.
Qed.

Lemma arr_get_zeros {E : Type} {PE : Precision E} (n i : Z) :
  arr_get (zeros n) i = fzero.
Proof. unfold arr_get, zeros. apply nth_repeat. Qed.

Module Matmul3PartialFacts.

Import Matmul3 Matmul3Index Matmul3Partial.

Section Partial.

Context {E : Type} {PE : Precision E}.

Variables BM BK BN TM M K N : Z.
Variables A B : Z -> E.
Variable W : Z.
Variable groupID : vec3.

Hypothesis HBK : 1 <= BK.
Hypothesis HTM : 1 <= TM.
Hypothesis HBN : 1 <= BN.
Hypothesis HBMd : BM mod TM = 0.
Hypothesis HBM : 1 <= BM.
Hypothesis HW : W = BM / TM * BN.
Hypothesis HWA : W <= BM * BK.
Hypothesis HWB : W <= BK * BN.
Hypothesis HM : 1 <= M.
Hypothesis HK : 1 <= K.
Hypothesis HN : 1 <= N.
Hypothesis HMd : M mod BM = 0.
Hypothesis HNd : N mod BN = 0.
Hypothesis HKd : K mod BK = 0.
Hypothesis HK31 : K + BK <= 2 ^ 31.
Hypothesis HA : M * K < U32.modulus.
Hypothesis HB : N * K < U32.modulus.
Hypothesis HC : M * N < U32.modulus.
Hypothesis Hgx : 0 <= vx groupID /\ vx groupID * BM < M.
Hypothesis Hgy : 0 <= vy groupID /\ vy groupID * BN < N.

Local Abbreviation load := (Matmul3.load BK K A B).
Local Abbreviation tile_index := (Matmul3Index.tile_index BK).
Local Abbreviation source_index := (Matmul3Index.source_index BK K).
Local Abbreviation chunk_step :=
  (Matmul3.chunk_step BM BK BN TM M K N A B W groupID).
Local Abbreviation inv :=
  (Matmul3Partial.inv BM BK BN TM M K N A B W groupID).
Local Abbreviation out_row := (Matmul3Index.out_row BM BN TM groupID).
Local Abbreviation out_col := (Matmul3Index.out_col BN groupID).
Local Abbreviation partial_term :=
  (Matmul3Partial.partial_term BM BK BN TM K A B W groupID).
Local Abbreviation gx := (vx groupID).
Local Abbreviation gy := (vy groupID).

Lemma partial_block_facts :
  BM <= M /\ BN <= N /\ BK <= K
  /\ gx * BM + BM <= M /\ gy * BN + BN <= N
  /\ BM * BK <= M * K /\ BK * BN <= N * K
  /\ M < U32.modulus /\ N < U32.modulus /\ K < U32.modulus
  /\ 0 <= W /\ BM = BM / TM * TM /\ TM <= BM.
Proof.
  pose proof (Z.div_mod M BM ltac:(lia)) as EM. rewrite HMd in EM.
  pose proof (Z.div_mod N BN ltac:(lia)) as EN. rewrite HNd in EN.
  pose proof (Z.div_mod K BK ltac:(lia)) as EK. rewrite HKd in EK.
  pose proof (Z.div_mod BM TM ltac:(lia)) as EB. rewrite HBMd in EB.
  assert (H3 : gx * BM + BM <= M).
  { assert (gx < M / BM) by nia. nia. }
  assert (H4 : gy * BN + BN <= N).
  { assert (gy < N / BN) by nia. nia. }
  assert (H5 : BK <= K).
  { assert (0 < K / BK) by nia. nia. }
  assert (H6 : BM <= M) by nia.
  assert (H7 : BN <= N) by nia.
  assert (H8 : BM * BK <= M * K).
  { transitivity (M * BK); [apply Z.mul_le_mono_nonneg_r; lia|].
    apply Z.mul_le_mono_nonneg_l; lia. }
  assert (H9 : BK * BN <= N * K).
  { transitivity (K * BN); [apply Z.mul_le_mono_nonneg_r; lia|].
    rewrite (Z.mul_comm N K). apply Z.mul_le_mono_nonneg_l; lia. }
  assert (H10 : 1 * N <= M * N) by (apply Z.mul_le_mono_nonneg_r; lia).
  assert (H11 : 1 * K <= M * K) by (apply Z.mul_le_mono_nonneg_r; lia).
  assert (H12 : 1 * M <= N * M) by (apply Z.mul_le_mono_nonneg_r; lia).
  assert (H13 : 0 < BM / TM) by nia.
  assert (H14 : 0 <= W) by nia.
  assert (H15 : TM * 1 <= TM * (BM / TM))
    by (apply Z.mul_le_mono_nonneg_l; lia).
  repeat split; try assumption; lia.
Qed.

Lemma partial_lane_facts lx :
  0 <= lx < W ->
  (0 <= lx / BK < BM /\ lx / BK < BN /\ 0 <= lx mod BK < BK
   /\ lx = lx / BK * BK + lx mod BK)
  /\ (0 <= lx / BN /\ lx / BN * TM + TM <= BM /\ 0 <= lx mod BN < BN
      /\ lx = lx / BN * BN + lx mod BN).
Proof.
  intros Hl.
  destruct partial_block_facts
    as (_ & _ & _ & _ & _ & _ & _ & _ & _ & _ & _ & EB & _).
  pose proof (Z.div_mod lx BK ltac:(lia)) as E1.
  pose proof (Z.mod_pos_bound lx BK ltac:(lia)) as B1.
  pose proof (Z.div_mod lx BN ltac:(lia)) as E2.
  pose proof (Z.mod_pos_bound lx BN ltac:(lia)) as B2.
  assert (0 <= lx / BK) by (apply Z.div_pos; lia).
  assert (0 <= lx / BN) by (apply Z.div_pos; lia).
  assert (lx / BK < BM) by (apply Z.div_lt_upper_bound; lia).
  assert (lx / BK < BN) by (apply Z.div_lt_upper_bound; lia).
  assert (lx / BN < BM / TM) by (apply Z.div_lt_upper_bound; lia).
  assert (lx / BN * TM + TM <= BM / TM * TM).
  { assert ((lx / BN + 1) * TM <= BM / TM * TM)
      by (apply Z.mul_le_mono_nonneg_r; lia). lia. }
  repeat split; lia.
Qed.

Lemma partial_tile_index lx : 0 <= lx < W -> tile_index lx = lx.
Proof.
  intros Hl. destruct (partial_lane_facts lx Hl) as ((Hq & _ & Hr & Eq) & _).
  destruct partial_block_facts
    as (_ & _ & _ & _ & _ & HAK & _ & _ & _ & _ & _).
  unfold Matmul3Index.tile_index, loadRowA, loadColA.
  assert (0 <= lx / BK * BK) by (apply Z.mul_nonneg_nonneg; flia).
  rewrite u32_mul_small by (unfold U32.in_range; lia).
  rewrite u32_add_small by (unfold U32.in_range; lia).
  lia.
Qed.

Lemma partial_source_A n lx :
  0 <= n -> (n + 1) * BK <= K -> 0 <= lx < W ->
  source_index (gx * BM * K + n * BK) lx
  = (gx * BM + lx / BK) * K + (n * BK + lx mod BK)
  /\ 0 <= (gx * BM + lx / BK) * K + (n * BK + lx mod BK) < M * K.
Proof.
  intros Hn HnK Hl.
  destruct (partial_lane_facts lx Hl) as ((Hq & _ & Hr & Eq) & _).
  destruct partial_block_facts as (_ & _ & _ & Hrows & _).
  assert (0 <= gx * BM) by (apply Z.mul_nonneg_nonneg; flia).
  assert (Hle : (gx * BM + lx / BK) * K <= (M - 1) * K)
    by (apply Z.mul_le_mono_nonneg_r; lia).
  assert (0 <= (gx * BM + lx / BK) * K) by nia.
  assert (0 <= n * BK) by (apply Z.mul_nonneg_nonneg; flia).
  assert (Hb : 0 <= (gx * BM + lx / BK) * K + (n * BK + lx mod BK) < M * K)
    by lia.
  split; [|exact Hb].
  unfold Matmul3Index.source_index, loadRowA, loadColA.
  assert (0 <= lx / BK * K) by (apply Z.mul_nonneg_nonneg; flia). assert (0 <= gx * BM * K) by (apply Z.mul_nonneg_nonneg; flia).
  assert ((gx * BM + lx / BK) * K = gx * BM * K + lx / BK * K) by lia.
  rewrite (u32_mul_small (lx / BK) K) by (unfold U32.in_range; lia).
  rewrite (u32_add_small (gx * BM * K + n * BK))
    by (unfold U32.in_range; lia).
  rewrite u32_add_small by (unfold U32.in_range; lia).
  lia.
Qed.

Lemma partial_source_B n lx :
  0 <= n -> (n + 1) * BK <= K -> 0 <= lx < W ->
  source_index (gy * BN * K + n * BK) lx
  = (gy * BN + lx / BK) * K + (n * BK + lx mod BK)
  /\ 0 <= (gy * BN + lx / BK) * K + (n * BK + lx mod BK) < N * K.
Proof.
  intros Hn HnK Hl.
  destruct (partial_lane_facts lx Hl) as ((Hq & Hq' & Hr & Eq) & _).
  destruct partial_block_facts as (_ & _ & _ & _ & Hcols & _).
  assert (0 <= gy * BN) by (apply Z.mul_nonneg_nonneg; flia).
  assert (Hle : (gy * BN + lx / BK) * K <= (N - 1) * K)
    by (apply Z.mul_le_mono_nonneg_r; lia).
  assert (0 <= (gy * BN + lx / BK) * K) by nia.
  assert (0 <= n * BK) by (apply Z.mul_nonneg_nonneg; flia).
  assert (Hb : 0 <= (gy * BN + lx / BK) * K + (n * BK + lx mod BK) < N * K)
    by lia.
  split; [|exact Hb].
  unfold Matmul3Index.source_index, loadRowA, loadColA.
  assert (0 <= lx / BK * K) by (apply Z.mul_nonneg_nonneg; flia). assert (0 <= gy * BN * K) by (apply Z.mul_nonneg_nonneg; flia).
  assert ((gy * BN + lx / BK) * K = gy * BN * K + lx / BK * K) by lia.
  rewrite (u32_mul_small (lx / BK) K) by (unfold U32.in_range; lia).
  rewrite (u32_add_small (gy * BN * K + n * BK))
    by (unfold U32.in_range; lia).
  rewrite u32_add_small by (unfold U32.in_range; lia).
  lia.
Qed.

Lemma partial_in_lanes lx : In lx (lanes W) <-> 0 <= lx < W.
Proof.
  destruct partial_block_facts
    as (_ & _ & _ & _ & _ & _ & _ & _ & _ & _ & HW0 & _).
  unfold lanes. rewrite in_zseq. lia.
Qed.

(** After the loads the first [W] elements of a tile hold what the
    invocations loaded, and the others what they held. *)
Lemma partial_tile (v : Z -> E) (a : list E) idx :
  W <= Z.of_nat (length a) -> 0 <= idx ->
  arr_get (fold_left (fun a l => arr_set a (tile_index l) (v l)) (lanes W) a)
          idx
  = if idx <? W then v idx else arr_get a idx.
Proof.
  intros Hlen Hi. destruct (Z.ltb_spec idx W) as [Hlt|Hge].
  - rewrite <- (partial_tile_index idx) at 1 by lia.
    apply fold_arr_set_get.
    + intros l1 l2 H1 H2. apply partial_in_lanes in H1, H2.
      rewrite !partial_tile_index by assumption. auto.
    + intros l' H'. apply partial_in_lanes in H'.
      rewrite partial_tile_index by assumption. lia.
    + apply partial_in_lanes. lia.
    + rewrite partial_tile_index by lia. lia.
  - apply fold_arr_set_other; [assumption|].
    intros l Hl. apply partial_in_lanes in Hl.
    rewrite partial_tile_index by assumption. lia.
Qed.

Lemma partial_mask lx res :
  0 <= lx < W -> 0 <= res < TM ->
  mask BM BN TM M N groupID lx res = of_bool true.
Proof.
  intros Hl Hr.
  destruct (partial_lane_facts lx Hl) as (_ & Hq & Ht & Hm & _).
  destruct partial_block_facts
    as (H3 & H4 & _ & Hrows & Hcols & _ & _ & HMm & HNm & _ & _ & _ & HTB).
  unfold mask, threadRow, threadCol, cRow, cCol.
  assert (0 <= lx / BN * TM) by (apply Z.mul_nonneg_nonneg; flia).
  assert (0 <= gx * BM) by (apply Z.mul_nonneg_nonneg; flia). assert (0 <= gy * BN) by (apply Z.mul_nonneg_nonneg; flia).
  assert (lx / BN * 1 <= lx / BN * TM)
    by (apply Z.mul_le_mono_nonneg_l; lia).
  rewrite (u32_mul_small (lx / BN) TM) by (unfold U32.in_range; lia).
  rewrite (u32_add_small (lx / BN * TM)) by (unfold U32.in_range; lia).
  rewrite (u32_mul_small gy BN) by (unfold U32.in_range; lia).
  rewrite (u32_mul_small gx BM) by (unfold U32.in_range; lia).
  rewrite (u32_add_small (gy * BN)) by (unfold U32.in_range; lia).
  rewrite (u32_add_small (gx * BM)) by (unfold U32.in_range; lia).
  f_equal. rewrite !andb_true_iff. repeat split; apply Z.ltb_lt; lia.
Qed.

Lemma partial_reads n (s : state E) :
  0 <= n -> (n + 1) * BK <= K ->
  aPtr s = gx * BM * K + n * BK -> bPtr s = gy * BN * K + n * BK ->
  forallb (in_extent M K N)
    (flat_map (fun lx => [ReadA (source_index (aPtr s) lx);
                          ReadB (source_index (bPtr s) lx) : access E])
              (lanes W)) = true.
Proof.
  intros Hn HnK Ea Eb. apply forallb_forall. intros a Ha.
  apply in_flat_map in Ha. destruct Ha as (lx & Hl & Ha).
  apply partial_in_lanes in Hl. rewrite Ea, Eb in Ha.
  destruct (partial_source_A n lx Hn HnK Hl) as [EA HAb].
  destruct (partial_source_B n lx Hn HnK Hl) as [EB HBb].
  rewrite EA, EB in Ha.
  destruct Ha as [<-|[<-|[]]]; cbn [in_extent];
    apply andb_true_iff; split; try apply Z.leb_le; try apply Z.ltb_lt; lia.
Qed.

Lemma partial_thread_facts lx res :
  0 <= lx < W -> 0 <= res < TM ->
  0 <= lx / BN * TM + res < BM
  /\ 0 <= (lx / BN * TM + res) * BK <= (BM - 1) * BK
  /\ 0 <= lx mod BN * BK <= (BN - 1) * BK.
Proof.
  intros Hl Hr. destruct (partial_lane_facts lx Hl) as (_ & Hq & Ht & Hm & _).
  assert (0 <= lx / BN * TM) by (apply Z.mul_nonneg_nonneg; flia).
  assert ((lx / BN * TM + res) * BK <= (BM - 1) * BK)
    by (apply Z.mul_le_mono_nonneg_r; lia).
  assert (lx mod BN * BK <= (BN - 1) * BK)
    by (apply Z.mul_le_mono_nonneg_r; lia).
  assert (0 <= (lx / BN * TM + res) * BK) by nia.
  assert (0 <= lx mod BN * BK) by (apply Z.mul_nonneg_nonneg; flia).
  repeat split; lia.
Qed.

(** One chunk of the inner dimension. *)
Lemma partial_chunk n s :
  0 <= n -> n * BK < K -> inv n s ->
  exists s', chunk_step (n * BK) s = Some s' /\ inv (n + 1) s'.
Proof.
  intros Hn HnK
    (HlA & HlB & HzA & HzB & Ea & Eb & Hlen & Hres & Hlog & Hst).
  destruct partial_block_facts
    as (H3 & H4 & H5 & Hrows & Hcols & HAK & HBK' & HMm & HNm & HKm
        & HW0 & EBM & HTB).
  assert (HlA' : W <= Z.of_nat (length (tileA s)))
    by (clear - HlA HWA HW0; lia).
  assert (HlB' : W <= Z.of_nat (length (tileB s)))
    by (clear - HlB HWB HW0; lia).
  assert (HnK' : (n + 1) * BK <= K) by (apply stride_next; assumption).
  assert (Hn0 : 0 <= n * BK) by (apply Z.mul_nonneg_nonneg; flia).
  assert (Hx0 : 0 <= gx * BM) by (apply Z.mul_nonneg_nonneg; flia).
  assert (Hy0 : 0 <= gy * BN) by (apply Z.mul_nonneg_nonneg; flia).
  assert (Hg0 : 0 <= gx * BM * K) by (apply Z.mul_nonneg_nonneg; flia).
  assert (Hg1 : 0 <= gy * BN * K) by (apply Z.mul_nonneg_nonneg; flia).
  assert (Hg2 : gx * BM * K <= (M - 1) * K)
    by (apply Z.mul_le_mono_nonneg_r; flia).
  assert (Hg3 : gy * BN * K <= (N - 1) * K)
    by (apply Z.mul_le_mono_nonneg_r; flia).
  assert (HBKr : 1 <= BK < U32.modulus) by flia.
  assert (HTMr : 0 <= TM < U32.modulus) by flia.
  unfold Matmul3.chunk_step. rewrite Matmul3More.load_fold.
  set (s1 := advance BK _).
  destruct (opt_map_inv
              (Matmul3.accumulate BM BK BN TM M N groupID s1)
              (combine (lanes W) (threadResults s1)))
    as (ys & Eys & Hys).
  { intros lane _. now apply Matmul3Facts.accumulate_returns. }
  rewrite Eys. eexists. split; [reflexivity|].
  assert (Hacc : forall lx, 0 <= lx < W ->
            Matmul3.accumulate BM BK BN TM M N groupID s1
              (lx, nth (Z.to_nat lx) (threadResults s) [])
            = Some (nth (Z.to_nat lx) ys [])).
  { apply (opt_map_lanes _ W (threadResults s) ys [] []);
      [exact Hlen | exact Eys]. }
  unfold Matmul3Partial.inv.
  cbn [tileA tileB aPtr bPtr threadResults log s1 advance].
  split; [now rewrite fold_arr_set_length|].
  split; [now rewrite fold_arr_set_length|].
  split.
  { intros idx Hidx. rewrite partial_tile by (try assumption; flia).
    destruct (Z.ltb_spec idx W); [flia|]. now apply HzA. }
  split.
  { intros idx Hidx. rewrite partial_tile by (try assumption; flia).
    destruct (Z.ltb_spec idx W); [flia|]. now apply HzB. }
  split.
  { rewrite Ea. rewrite u32_add_small by fits. flia. }
  split.
  { rewrite Eb. rewrite u32_add_small by fits. flia. }
  split.
  { rewrite Hys. now apply combine_lanes_length. }
  split.
  { intros lx Hl. destruct (Hres lx Hl) as [Hl0 Hv]. split.
    - destruct (Matmul3More.accumulate_sums BM BK BN TM M N groupID s1 lx
                  (nth (Z.to_nat lx) (threadResults s) []) 0 HBKr HTMr Hl0)
        as (r' & Er & Hlr & _); [flia|].
      rewrite (Hacc lx Hl) in Er. injection Er as <-. exact Hlr.
    - intros res Hr.
      destruct (Matmul3More.accumulate_sums BM BK BN TM M N groupID s1 lx
                  (nth (Z.to_nat lx) (threadResults s) []) res HBKr HTMr
                  Hl0 Hr)
        as (r' & Er & _ & Hg).
      rewrite (Hacc lx Hl) in Er. injection Er as <-. rewrite Hg. clear Hg.
      rewrite (Hv res Hr).
      rewrite (to_nat_stride n BK) by (assumption || flia).
      rewrite sum_from_app. rewrite Z2Nat.id by exact Hn0.
      rewrite (sum_from_shift _ (n * BK) (Z.to_nat BK) 0).
      apply sum_from_ext. intros d Hd.
      apply in_range_to_nat in Hd; [|exact HBK].
      destruct (partial_lane_facts lx Hl) as (_ & Hq & Ht & Hm & _).
      destruct (partial_thread_facts lx res Hl Hr) as (Hr' & HtA & HtB).
      rewrite partial_mask by assumption. unfold threadRow, threadCol.
      assert (0 <= lx / BN * TM) by (apply Z.mul_nonneg_nonneg; flia).
      assert (HdA0 : 0 <= (lx / BN * TM + res) * BK + d) by flia.
      assert (HdB0 : 0 <= lx mod BN * BK + d) by flia.
      rewrite (u32_mul_small (lx / BN) TM) by fits.
      rewrite (u32_add_small (lx / BN * TM)) by fits.
      rewrite (u32_mul_small (lx / BN * TM + res) BK) by fits.
      rewrite (u32_mul_small (lx mod BN) BK) by fits.
      rewrite !u32_add_small by fits.
      cbn [tileA tileB s1 advance].
      rewrite (partial_tile (fun l => A (source_index (aPtr s) l)) (tileA s)
                 _ HlA' HdA0).
      rewrite (partial_tile (fun l => B (source_index (bPtr s) l)) (tileB s)
                 _ HlB' HdB0).
      unfold Matmul3Partial.partial_term, loadedA, loadedB.
      assert (Emod : (d + n * BK) mod BK = d).
      { rewrite Z.mod_add by flia. now apply Z.mod_small. }
      rewrite Emod. rewrite Ea, Eb.
      f_equal; [f_equal|].
      + destruct (Z.ltb_spec ((lx / BN * TM + res) * BK + d) W) as [HdA|HdA].
        * destruct (partial_source_A n _ Hn HnK' (conj HdA0 HdA)) as [-> _].
          destruct (div_mod_pair BK (lx / BN * TM + res) d Hd) as [-> ->].
          unfold Matmul3Index.out_row.
          now rewrite (Z.add_comm d (n * BK)).
        * now apply HzA.
      + destruct (Z.ltb_spec (lx mod BN * BK + d) W) as [HdB|HdB].
        * destruct (partial_source_B n _ Hn HnK' (conj HdB0 HdB)) as [-> _].
          destruct (div_mod_pair BK (lx mod BN) d Hd) as [-> ->].
          unfold Matmul3Index.out_col.
          now rewrite (Z.add_comm d (n * BK)).
        * now apply HzB. }
  split.
  { rewrite forallb_app, Hlog. cbn [andb]. now apply (partial_reads n). }
  rewrite stores_app, Hst. apply stores_reads.
Qed.

Lemma partial_init : inv 0 (Matmul3.init BM BK BN TM K W groupID).
Proof.
  destruct partial_block_facts
    as (H3 & H4 & H5 & Hrows & Hcols & HAK & HBK' & HMm & HNm & HKm
        & HW0 & EBM & HTB).
  unfold Matmul3Partial.inv, Matmul3.init, cRow, cCol.
  cbn [tileA tileB aPtr bPtr threadResults log].
  assert (0 <= gx * BM) by (apply Z.mul_nonneg_nonneg; flia). assert (0 <= gy * BN) by (apply Z.mul_nonneg_nonneg; flia).
  assert (gx * BM * K <= (M - 1) * K)
    by (apply Z.mul_le_mono_nonneg_r; lia).
  assert (gy * BN * K <= (N - 1) * K)
    by (apply Z.mul_le_mono_nonneg_r; lia).
  assert (0 <= gx * BM * K) by (apply Z.mul_nonneg_nonneg; flia). assert (0 <= gy * BN * K) by (apply Z.mul_nonneg_nonneg; flia).
  split; [apply zeros_length|]. split; [apply zeros_length|].
  split; [intros; apply arr_get_zeros|].
  split; [intros; apply arr_get_zeros|].
  split.
  { rewrite (u32_mul_small gx BM) by (unfold U32.in_range; lia).
    rewrite u32_mul_small by (unfold U32.in_range; lia). lia. }
  split.
  { rewrite (u32_mul_small gy BN) by (unfold U32.in_range; lia).
    rewrite u32_mul_small by (unfold U32.in_range; lia). lia. }
  split; [apply repeat_length|].
  split; [|split; reflexivity].
  intros lx Hl. rewrite nth_repeat_lt by lia.
  split; [apply zeros_length|]. intros res Hr. apply arr_get_zeros.
Qed.

Lemma partial_loop :
  exists s,
    for_loop K (fun bkIdx => I32.add bkIdx BK) chunk_step 0
      (Matmul3.init BM BK BN TM K W groupID) = Some s
    /\ inv (K / BK) s.
Proof.
  unfold for_loop.
  destruct (for_fuel_stride inv K BK chunk_step)
    with (fuel := S (Z.to_nat (K - 0))) (n := 0)
         (s := Matmul3.init BM BK BN TM K W groupID)
    as (n' & s' & Eloop & Hinv & Hn'); try lia.
  - intros n s Hn HnK Hs. now apply partial_chunk.
  - apply partial_init.
  - rewrite Z.mul_0_l in Eloop. exists s'. split; [exact Eloop|].
    rewrite (stride_end n' BK K) by assumption. exact Hinv.
Qed.

Lemma partial_c_index lx res :
  0 <= lx < W -> 0 <= res < TM ->
  c_index BM BN TM N groupID lx res = out_row lx res * N + out_col lx
  /\ 0 <= out_row lx res * N + out_col lx < M * N.
Proof.
  intros Hl Hr. destruct (partial_lane_facts lx Hl) as (_ & Hq & Ht & Hm & _).
  destruct (partial_thread_facts lx res Hl Hr) as (Hr' & _).
  destruct partial_block_facts
    as (H3 & H4 & H5 & Hrows & Hcols & HAK & HBK' & HMm & HNm & HKm
        & HW0 & EBM & HTB).
  unfold Matmul3Index.out_row, Matmul3Index.out_col.
  assert (0 <= lx / BN * TM) by (apply Z.mul_nonneg_nonneg; flia).
  set (r := lx / BN * TM + res) in *. set (c := lx mod BN) in *.
  assert (0 <= gx * BM) by (apply Z.mul_nonneg_nonneg; flia). assert (0 <= gy * BN) by (apply Z.mul_nonneg_nonneg; flia).
  assert (Hb : 0 <= (gx * BM + r) * N + (gy * BN + c) < M * N).
  { assert (0 <= (gx * BM + r) * N) by nia.
    assert ((gx * BM + r) * N <= (M - 1) * N)
      by (apply Z.mul_le_mono_nonneg_r; lia).
    lia. }
  split; [|exact Hb].
  unfold c_index, cPtr, cRow, cCol, threadRow, threadCol.
  assert (0 <= gx * BM * N) by (apply Z.mul_nonneg_nonneg; flia).
  assert (0 <= r * N) by (apply Z.mul_nonneg_nonneg; flia).
  assert ((gx * BM + r) * N = gx * BM * N + r * N) by lia.
  rewrite (u32_mul_small gx BM) by (unfold U32.in_range; lia).
  rewrite (u32_mul_small (gx * BM) N) by (unfold U32.in_range; lia).
  rewrite (u32_mul_small gy BN) by (unfold U32.in_range; lia).
  rewrite (u32_add_small (gx * BM * N)) by (unfold U32.in_range; lia).
  rewrite (u32_mul_small (lx / BN) TM) by (unfold U32.in_range; lia).
  rewrite (u32_add_small (lx / BN * TM)) by (unfold U32.in_range; lia).
  fold r c.
  rewrite (u32_mul_small r N) by (unfold U32.in_range; lia).
  rewrite (u32_add_small (gx * BM * N + gy * BN))
    by (unfold U32.in_range; lia).
  rewrite u32_add_small by (unfold U32.in_range; lia).
  lia.
Qed.

Lemma partial_main :
  exists accesses,
    main BM BK BN TM M K N A B W groupID = Some accesses
    /\ forallb (in_extent M K N) accesses = true
    /\ stores accesses
       = expected_partial BM BK BN TM K N A B W groupID.
Proof.
  destruct partial_loop
    as (s & Eloop & HlA & HlB & HzA & HzB & Ea & Eb & Hlen & Hres
        & Hlog & Hst).
  destruct partial_block_facts
    as (H3 & H4 & H5 & Hrows & Hcols & HAK & HBK' & HMm & HNm & HKm
        & HW0 & EBM & HTB).
  unfold main. rewrite Eloop.
  rewrite (opt_map_some _ (writes BM BN TM N groupID))
    by (intros; apply Matmul3Facts.write_back_eq; lia).
  rewrite <- flat_map_concat_map.
  unfold lanes. rewrite (combine_zseq []) by lia.
  rewrite flat_map_concat_map, map_map, <- flat_map_concat_map.
  eexists. split; [reflexivity|]. split.
  - rewrite forallb_app, Hlog. cbn [andb].
    apply forallb_forall. intros a Ha. apply in_flat_map in Ha.
    destruct Ha as (lx & Hl & Ha). apply in_zseq in Hl.
    unfold writes in Ha. cbn [fst snd] in Ha. apply in_map_iff in Ha.
    destruct Ha as (res & <- & Hr). apply in_zseq in Hr.
    destruct (partial_c_index lx res ltac:(lia) ltac:(lia)) as [-> Hb].
    cbn [in_extent]. apply andb_true_iff.
    split; [apply Z.leb_le|apply Z.ltb_lt]; lia.
  - rewrite stores_app, Hst, stores_flat_map. cbn [app].
    unfold expected_partial. apply flat_map_ext_in. intros lx Hl.
    apply in_zseq in Hl. unfold writes. cbn [fst snd].
    rewrite Z.sub_0_r.
    rewrite (stores_writes
               (fun res => c_index BM BN TM N groupID lx res)
               (fun res => arr_get (nth (Z.to_nat lx) (threadResults s) [])
                                   res)).
    apply map_ext_in. intros res Hr. apply in_zseq in Hr.
    destruct (partial_c_index lx res ltac:(lia) ltac:(lia)) as [-> _].
    destruct (Hres lx ltac:(lia)) as [_ Hv]. rewrite Hv by lia.
    unfold partial_dot. do 3 f_equal.
    pose proof (Z.div_mod K BK ltac:(lia)) as EK. rewrite HKd in EK. lia.
Qed.

End Partial.

Lemma workgroup_size (BM BN TM : Z) :
  1 <= TM -> BM mod TM = 0 -> BM * BN / TM = BM / TM * BN.
Proof.
  intros HTM Hd.
  pose proof (Z.div_mod BM TM ltac:(lia)) as EB. rewrite Hd in EB.
  rewrite EB at 1.
  replace ((TM * (BM / TM) + 0) * BN) with (BM / TM * BN * TM) by lia.
  apply Z.div_mul. lia.
Qed.

(** An accumulator none of whose elements of [tileA] was loaded adds
    up products that do not involve [A]; likewise for [tileB] and
    [B]. *)
Lemma unloaded_A {E : Type} {PE : Precision E} (BM BK BN TM K : Z)
    (A A' B : Z -> E) (W : Z) (groupID : vec3) (lx res : Z) :
  1 <= BK -> W <= (lx / BN * TM + res) * BK ->
  partial_dot BM BK BN TM K A B W groupID lx res
  = partial_dot BM BK BN TM K A' B W groupID lx res.
Proof.
  intros HBK HW. unfold partial_dot. apply sum_from_ext. intros k _.
  unfold partial_term, loadedA.
  pose proof (Z.mod_pos_bound k BK ltac:(lia)).
  destruct (Z.ltb_spec ((lx / BN * TM + res) * BK + k mod BK) W);
    [lia|reflexivity].
Qed.

Lemma unloaded_B {E : Type} {PE : Precision E} (BM BK BN TM K : Z)
    (A B B' : Z -> E) (W : Z) (groupID : vec3) (lx res : Z) :
  1 <= BK -> W <= lx mod BN * BK ->
  partial_dot BM BK BN TM K A B W groupID lx res
  = partial_dot BM BK BN TM K A B' W groupID lx res.
Proof.
  intros HBK HW. unfold partial_dot. apply sum_from_ext. intros k _.
  unfold partial_term, loadedB.
  pose proof (Z.mod_pos_bound k BK ltac:(lia)).
  destruct (Z.ltb_spec (lx mod BN * BK + k mod BK) W);
    [lia|reflexivity].
Qed.

(** X15.  The block-tiled kernel for any block parameters whose tiles
    are at least as large as the workgroup.  Let [TM] divide [BM], the
    workgroup have [BM * BN / TM] invocations, as [runTest] sizes it,
    at most [BM * BK] and at most [BK * BN], and let the blocks divide
    the dimensions.  Then every workgroup of the grid returns, all its
    loads and stores lie within the extents, and accumulator [resIdx]
    of invocation [lx] stores, to its element of [C], the sum from zero
    over [k] of [1.0 * a * b], where [a] is [A[i * K + k]] if the
    element of [tileA] it reads is among the first [W], which the [W]
    invocations load, and the zero the tile starts with otherwise; [b]
    likewise for [tileB] and [B[j * K + k]]. *)
Theorem main_partial_tiles {E : Type} {PE : Precision E}
    (BM BK BN TM M K N : Z) (A B : Z -> E) (W : Z) (groupID : vec3) :
  1 <= BM -> 1 <= BK -> 1 <= BN -> 1 <= TM ->
  BM mod TM = 0 -> W = BM * BN / TM -> W <= BM * BK -> W <= BK * BN ->
  1 <= M -> 1 <= K -> 1 <= N ->
  M mod BM = 0 -> N mod BN = 0 -> K mod BK = 0 ->
  K + BK <= 2 ^ 31 ->
  M * K < U32.modulus -> N * K < U32.modulus -> M * N < U32.modulus ->
  0 <= vx groupID < cdiv M BM -> 0 <= vy groupID < cdiv N BN ->
  exists accesses,
    main BM BK BN TM M K N A B W groupID = Some accesses
    /\ forallb (in_extent M K N) accesses = true
    /\ stores accesses = expected_partial BM BK BN TM K N A B W groupID.
Proof.
  intros HBM HBK HBN HTM HBMd HW HWA HWB HM HK HN HMd HNd HKd HK31
    HA HB HC [Hx0 Hx] [Hy0 Hy].
  apply cdiv_gt in Hx; [|lia]. apply cdiv_gt in Hy; [|lia].
  rewrite workgroup_size in HW by assumption.
  apply partial_main; auto.
Qed.

(** The theorem at the block parameters left in a comment of
    [runTest]. *)
Lemma main_partial_tiles_witness :
  exists accesses,
    main 32 8 32 8 32 8 32 (ones 256) (ones 256) 128 (Vec3 0 0 0)
    = Some accesses
    /\ forallb (in_extent 32 8 32) accesses = true
    /\ stores accesses
       = expected_partial 32 8 32 8 8 32 (ones 256) (ones 256) 128
           (Vec3 0 0 0).
Proof.
  apply (main_partial_tiles 32 8 32 8 32 8 32 (ones 256) (ones 256) 128
           (Vec3 0 0 0));
    vm_compute; repeat split; (reflexivity || discriminate).
Defined.

(** X16.  Why larger blocks fail.  Under the conditions of X15, an
    accumulator whose row of [tileA] lies beyond the first [W] elements
    stores a value in which [A] does not occur: it is the same for
    every [A].  Likewise an invocation whose row of [tileB] lies beyond
    the first [W] elements stores values in which [B] does not occur.
    With the block parameters left in the comment of [runTest],
    [BM = 32, BK = 8, BN = 32, TM = 8], a workgroup has 128 invocations
    for tiles of 256 elements, and this holds for the invocations from
    64 on, and for those with [lx mod 32 >= 16]. *)
Theorem main_unloaded_tiles {E : Type} {PE : Precision E}
    (BM BK BN TM M K N : Z) (A A' B B' : Z -> E) (W : Z) (groupID : vec3) :
  1 <= BM -> 1 <= BK -> 1 <= BN -> 1 <= TM ->
  BM mod TM = 0 -> W = BM * BN / TM -> W <= BM * BK -> W <= BK * BN ->
  1 <= M -> 1 <= K -> 1 <= N ->
  M mod BM = 0 -> N mod BN = 0 -> K mod BK = 0 ->
  K + BK <= 2 ^ 31 ->
  M * K < U32.modulus -> N * K < U32.modulus -> M * N < U32.modulus ->
  0 <= vx groupID < cdiv M BM -> 0 <= vy groupID < cdiv N BN ->
  exists accesses accessesA accessesB,
    main BM BK BN TM M K N A B W groupID = Some accesses
    /\ main BM BK BN TM M K N A' B W groupID = Some accessesA
    /\ main BM BK BN TM M K N A B' W groupID = Some accessesB
    /\ stores accesses = expected_partial BM BK BN TM K N A B W groupID
    /\ stores accessesA = expected_partial BM BK BN TM K N A' B W groupID
    /\ stores accessesB = expected_partial BM BK BN TM K N A B' W groupID
    /\ (forall lx res,
          W <= (lx / BN * TM + res) * BK ->
          partial_dot BM BK BN TM K A B W groupID lx res
          = partial_dot BM BK BN TM K A' B W groupID lx res)
    /\ (forall lx res,
          W <= lx mod BN * BK ->
          partial_dot BM BK BN TM K A B W groupID lx res
          = partial_dot BM BK BN TM K A B' W groupID lx res).
Proof.
  intros HBM HBK HBN HTM HBMd HW HWA HWB HM HK HN HMd HNd HKd HK31
    HA HB HC [Hx0 Hx] [Hy0 Hy].
  apply cdiv_gt in Hx; [|lia]. apply cdiv_gt in Hy; [|lia].
  rewrite workgroup_size in HW by assumption.
  destruct (partial_main BM BK BN TM M K N A B W groupID)
    as (acc & E1 & _ & S1); auto.
  destruct (partial_main BM BK BN TM M K N A' B W groupID)
    as (accA & E2 & _ & S2); auto.
  destruct (partial_main BM BK BN TM M K N A B' W groupID)
    as (accB & E3 & _ & S3); auto.
  exists acc, accA, accB. repeat split; try assumption.
  - intros lx res Hrow. now apply unloaded_A.
  - intros lx res Hrow. now apply unloaded_B.
Qed.

(** The theorem at the block parameters left in the comment, with
    inputs that differ everywhere; invocation 64 is one of those whose
    stores ignore [A]. *)
Lemma main_unloaded_tiles_witness :
  exists accesses accessesA accessesB,
    main 32 8 32 8 32 8 32 (ones 256) (ones 256) 128 (Vec3 0 0 0)
    = Some accesses
    /\ main 32 8 32 8 32 8 32 (ones 0) (ones 256) 128 (Vec3 0 0 0)
       = Some accessesA
    /\ main 32 8 32 8 32 8 32 (ones 256) (ones 0) 128 (Vec3 0 0 0)
       = Some accessesB
    /\ stores accesses
       = expected_partial 32 8 32 8 8 32 (ones 256) (ones 256) 128
           (Vec3 0 0 0)
    /\ stores accessesA
       = expected_partial 32 8 32 8 8 32 (ones 0) (ones 256) 128
           (Vec3 0 0 0)
    /\ stores accessesB
       = expected_partial 32 8 32 8 8 32 (ones 256) (ones 0) 128
           (Vec3 0 0 0)
    /\ (forall lx res,
          128 <= (lx / 32 * 8 + res) * 8 ->
          partial_dot 32 8 32 8 8 (ones 256) (ones 256) 128 (Vec3 0 0 0)
            lx res
          = partial_dot 32 8 32 8 8 (ones 0) (ones 256) 128 (Vec3 0 0 0)
              lx res)
    /\ (forall lx res,
          128 <= lx mod 32 * 8 ->
          partial_dot 32 8 32 8 8 (ones 256) (ones 256) 128 (Vec3 0 0 0)
            lx res
          = partial_dot 32 8 32 8 8 (ones 256) (ones 0) 128 (Vec3 0 0 0)
              lx res).
Proof.
  apply (main_unloaded_tiles 32 8 32 8 32 8 32 (ones 256) (ones 0)
           (ones 256) (ones 0) 128 (Vec3 0 0 0));
    vm_compute; repeat split; (reflexivity || discriminate).
Defined.

End Matmul3PartialFacts.

(** ** The tile size of version 2 *)

Module TileSizeFacts.

Import Pieces.

Local Open Scope string_scope.

(** The square root in [double] of a square below [2^32] is exact. *)
Lemma tileSize_of_square (t : Z) :
  0 <= t -> t * t < U32.modulus -> tileSize_of [t * t; 1; 1] = t.
Proof.
  intros Ht Hsq.
  assert (Hall : forallb (fun t => Z.eqb (tileSize_of [t * t; 1; 1]) t)
                         (zseq 0 (Z.to_nat 65536)) = true)
    by (vm_compute; reflexivity).
  rewrite forallb_forall in Hall. apply Z.eqb_eq. apply Hall.
  apply in_zseq. unfold U32.modulus in Hsq.
  assert (t < 65536) by nia. lia.
Qed.

(** Beyond [2^52] the conversion to [double] and the rounding of the
    root show: the root of [2^52 + 2^27], which is [2^26] rounded down,
    comes out one larger. *)
Lemma tileSize_of_rounds :
  tileSize_of [2 ^ 52 + 2 ^ 27; 1; 1] = 2 ^ 26 + 1
  /\ Z.sqrt (2 ^ 52 + 2 ^ 27) = 2 ^ 26.
Proof. split; vm_compute; reflexivity. Qed.

(** C7, as the generator has it.  In the source generated from the
    template of the tiled kernel every [{{tileSize}}] holds the decimal
    of one number: the square root of the first extent of the workgroup
    shape alone, taken in [double] and cut to an integer.  For a shape
    [{t * t, 1, 1}] below [2^32], as [runTest] passes with [t = 16],
    that is [t], the square root of the number of invocations. *)
Theorem createMatmul2_tileSize (M K N : Z) (wgSize : Shape)
    (precision : NumType) :
  let T := tileSize_of wgSize in
  let vals := [toString_shape wgSize; toString_precision precision;
               toString_size M; toString_size K; toString_size N;
               toString_size T] in
  let pieces := map (fill names2) (split names2 kShaderMatmul2) in
  data (createMatmul2 kShaderMatmul2 M K N wgSize precision)
  = flatten vals pieces
  /\ (forall p, In p (split names2 kShaderMatmul2) ->
        fill names2 p = Val 5 <-> p = Hole "{{tileSize}}")
  /\ In (Hole "{{tileSize}}") (split names2 kShaderMatmul2)
  /\ T = F64.to_Z (F64.sqrt (F64.of_Z (nth 0 wgSize 0)))
  /\ forall t, 0 <= t -> t * t < U32.modulus -> wgSize = [t * t; 1; 1] ->
       T = t /\ t * t = lane_count wgSize.
Proof.
  intros T vals pieces. split; [|split; [|split; [|split]]].
  - unfold createMatmul2. cbn [data].
    apply (PiecesFacts.render_ok kShaderMatmul2
             [("{{workgroupSize}}", toString_shape wgSize);
              ("{{precision}}", toString_precision precision);
              ("{{M}}", toString_size M);
              ("{{K}}", toString_size K);
              ("{{N}}", toString_size N);
              ("{{tileSize}}", toString_size (tileSize_of wgSize))]).
    + apply (PiecesFacts.values_brace_free wgSize precision
               [M; K; N; tileSize_of wgSize]).
    + vm_compute. reflexivity.
    + vm_compute. reflexivity.
    + vm_compute. reflexivity.
  - assert (Hall : forallb
                     (fun p =>
                        match fill names2 p, p with
                        | Val 5, Hole name => String.eqb name "{{tileSize}}"
                        | Val 5, _ => false
                        | _, Hole name =>
                            negb (String.eqb name "{{tileSize}}")
                        | _, _ => true
                        end)
                     (split names2 kShaderMatmul2) = true)
      by (vm_compute; reflexivity).
    rewrite forallb_forall in Hall. intros p Hp. specialize (Hall p Hp).
    split.
    + intros Ef. rewrite Ef in Hall. destruct p as [s|name|i];
        try discriminate. apply String.eqb_eq in Hall. now subst name.
    + intros ->. reflexivity.
  - vm_compute. tauto.
  - reflexivity.
  - intros t Ht Hsq ->. split.
    + now apply tileSize_of_square.
    + unfold lane_count. cbn [fold_right]. lia.
Qed.

(** The theorem at the shape [runTest] passes. *)
Lemma createMatmul2_tileSize_witness :
  tileSize_of [256; 1; 1] = 16 /\ 16 * 16 = lane_count [256; 1; 1].
Proof.
  destruct (createMatmul2_tileSize 256 128 512 [256; 1; 1] kf32)
    as (_ & _ & _ & _ & H).
  apply (H 16); [lia | unfold U32.modulus; lia | reflexivity].
Defined.

(** C7 as stated fails.  For the workgroup shape [{16, 16, 1}], of 256
    invocations, the tile size substituted is 4, not 16: the kernel
    generated from the template divides by 4 where it loads. *)
Lemma createMatmul2_tileSize_counterexample :
  tileSize_of [16; 16; 1] = 4
  /\ lane_count [16; 16; 1] = 256
  /\ Z.sqrt (lane_count [16; 16; 1]) = 16
  /\ data (createMatmul2 "{{tileSize}}" 16 4 8 [16; 16; 1] kf32) = "4"
  /\ contains "let loadRow = localIdx /  4;"
       (data (createMatmul2 kShaderMatmul2 16 4 8 [16; 16; 1] kf32)) = true
  /\ contains "let loadRow = localIdx /  16;"
       (data (createMatmul2 kShaderMatmul2 16 4 8 [16; 16; 1] kf32)) = false.
Proof. repeat split; vm_compute; reflexivity. Qed.

End TileSizeFacts.

(** ** The grid of version 3 and the elements of [C] *)







Module Grid3Facts.

Import Matmul3 Matmul3Index.

Section Assigned.

Context {E : Type} {PE : Precision E}.

Variables BM BK BN TM M K N : Z.
Variables A B : Z -> E.
Variable W : Z.
Variable groupID : vec3.

Hypothesis HBM : 1 <= BM.
Hypothesis HBK : 1 <= BK < U32.modulus.
Hypothesis HBN : 1 <= BN.
Hypothesis HTM : 1 <= TM < U32.modulus.
Hypothesis HK : 0 <= K /\ K + BK <= 2 ^ 31.
Hypothesis HC : M * N < U32.modulus.
Hypothesis Hgx : 0 <= vx groupID.
Hypothesis Hgy : 0 <= vy groupID.

Local Abbreviation chunk_step :=
  (Matmul3.chunk_step BM BK BN TM M K N A B W groupID).
Local Abbreviation out_row := (Matmul3Index.out_row BM BN TM groupID).
Local Abbreviation out_col := (Matmul3Index.out_col BN groupID).
Local Abbreviation gx := (vx groupID).
Local Abbreviation gy := (vy groupID).






End Assigned.

Section InRange.

Context {E : Type} {PE : Precision E}.

Variables BM BK BN TM M K N : Z.
Variables A B : Z -> E.
Variable groupID : vec3.

Local Abbreviation W := (BM * BK).

Hypothesis HBK : 1 <= BK.
Hypothesis HTM : 1 <= TM.
Hypothesis HBMN : BM = BN.
Hypothesis HBN : BN = BK * TM.
Hypothesis HWm : BM * BK < U32.modulus.
Hypothesis HM : 1 <= M.
Hypothesis HK : 1 <= K.
Hypothesis HN : 1 <= N.
Hypothesis HK31 : K + BK <= 2 ^ 31.
Hypothesis HA : M * K + BK <= U32.modulus.
Hypothesis HB : N * K + BK <= U32.modulus.
Hypothesis HC : M * N < U32.modulus.
Hypothesis Hgx : 0 <= vx groupID /\ vx groupID * BM < M.
Hypothesis Hgy : 0 <= vy groupID /\ vy groupID * BN < N.

Local Abbreviation load := (Matmul3.load BK K A B).
Local Abbreviation tile_index := (Matmul3Index.tile_index BK).
Local Abbreviation source_index := (Matmul3Index.source_index BK K).
Local Abbreviation chunk_step :=
  (Matmul3.chunk_step BM BK BN TM M K N A B W groupID).
Local Abbreviation inv := (Grid3.inv BM BK BN TM M K N A B W groupID).
Local Abbreviation out_row := (Matmul3Index.out_row BM BN TM groupID).
Local Abbreviation out_col := (Matmul3Index.out_col BN groupID).
Local Abbreviation masked_term := (Matmul3Index.masked_term K A B).
Local Abbreviation gx := (vx groupID).
Local Abbreviation gy := (vy groupID).

Lemma sizes :
  1 <= BM /\ 1 <= BN /\ TM <= BN /\ BK <= BN
  /\ W < U32.modulus /\ TM < U32.modulus /\ BK < U32.modulus
  /\ BN < U32.modulus
  /\ M < U32.modulus /\ N < U32.modulus
  /\ 0 <= gx * BM /\ 0 <= gy * BN.
Proof.
  assert (H1 : BK * 1 <= BK * TM) by (apply Z.mul_le_mono_nonneg_l; lia).
  assert (H2 : 1 * TM <= BK * TM) by (apply Z.mul_le_mono_nonneg_r; lia).
  assert (H3 : BM * 1 <= BM * BK) by (apply Z.mul_le_mono_nonneg_l; lia).
  assert (H4 : 1 * M <= N * M) by (apply Z.mul_le_mono_nonneg_r; lia).
  assert (H5 : 1 * N <= M * N) by (apply Z.mul_le_mono_nonneg_r; lia).
  assert (H6 : 0 <= gx * BM) by (apply Z.mul_nonneg_nonneg; lia).
  assert (H7 : 0 <= gy * BN) by (apply Z.mul_nonneg_nonneg; lia).
  repeat split; lia.
Qed.













End InRange.




End Grid3Facts.
